(** * WebRetriever (Vingester fork): control plane of the main process

    A shallow embedding of the configuration schema and sanitizer, the
    persistence routines, the instance registry with its lifecycle
    operations, the handlers of the Web UI and of the REST API, the CPU
    alert, the shutdown handler, the auto-start, the media path handling
    and the media upload of the main process, of the syslog sender and of
    the option parsing of the service installer, followed by the
    properties proved about them.

    JavaScript objects used as records or dictionaries are finite maps
    from property names to values.  Names inherited from [Object.prototype]
    are outside the model: property names and instance ids range over
    strings that are not such names, and a statement about an id that is
    not in the registry says so. *)

From Stdlib Require Import ZArith Ascii QArith Qround DecimalString DecimalZ
  DecimalNat.
From stdpp Require Import gmap strings list fin_maps.

Local Open Scope string_scope.

(** ** JavaScript values *)

Module JS.

(** The Number type with the primitives the program applies to it.  The
    laws are the ones ECMAScript states for [Number::toString]: converting
    a Number to a String and back gives the same Number, except that the
    negative zero prints as the positive one. *)
Class JSNumber := {
  num : Type;
  num_eq_dec :: EqDecision num;
  NaN : num;
  negzero : num;
  num_of_Z : Z → num;
  num_truthy : num → bool;
  StringToNumber : string → num;
  NumberToString : num → string;
  ToNumber_ToString : ∀ n, n ≠ negzero → StringToNumber (NumberToString n) = n;
  ToString_negzero : NumberToString negzero = NumberToString (num_of_Z 0);
  zero_not_negzero : num_of_Z 0 ≠ negzero
}.

Section Values.
Context `{JSNumber}.

(** The primitive values a configuration record holds. *)
Inductive value :=
| VUndefined
| VNull
| VBool (b : bool)
| VNum (n : num)
| VStr (s : string).

#[export] Instance value_eq_dec : EqDecision value.
Proof. solve_decision. Defined.

(** [Boolean(v)] *)
Definition ToBoolean (v : value) : bool :=
  match v with
  | VUndefined | VNull => false
  | VBool b => b
  | VNum n => num_truthy n
  | VStr s => negb (String.eqb s EmptyString)
  end.

(** [Number(v)] *)
Definition ToNumber (v : value) : num :=
  match v with
  | VUndefined => NaN
  | VNull => num_of_Z 0
  | VBool true => num_of_Z 1
  | VBool false => num_of_Z 0
  | VNum n => n
  | VStr s => StringToNumber s
  end.

(** [String(v)], also the conversion of a template literal *)
Definition ToString (v : value) : string :=
  match v with
  | VUndefined => "undefined"
  | VNull => "null"
  | VBool true => "true"
  | VBool false => "false"
  | VNum n => NumberToString n
  | VStr s => s
  end.

(** The result of [typeof v], as far as the program tests it. *)
Inductive jstype := TString | TNumber | TBoolean.

#[export] Instance jstype_eq_dec : EqDecision jstype.
Proof. solve_decision. Defined.

Definition has_type (t : jstype) (v : value) : bool :=
  match t, v with
  | TString, VStr _ | TNumber, VNum _ | TBoolean, VBool _ => true
  | _, _ => false
  end.

(** An object: own enumerable properties.  A property can be present
    and hold [undefined]. *)
Definition get (o : gmap string value) (k : string) : value :=
  default VUndefined (o !! k).

(** [Object.keys(o)] (the order of the keys is not modelled) *)
Definition keys (o : gmap string value) : list string :=
  (map_to_list o).*1.

(** The two zeros of the Number type taken as one. *)
Definition one_zero (n : num) : num :=
  if decide (n = negzero) then num_of_Z 0 else n.

(** [JSON.parse(JSON.stringify(o))] for an object [o] of primitive
    values: a property that holds [undefined] is left out, a Number that
    is not finite is written as [null] and the negative zero as [0].
    [finite] tells the finite Numbers. *)
Definition JSON_value (finite : num → bool) (v : value) : option value :=
  match v with
  | VUndefined => None
  | VNum n => Some (if finite n then VNum (one_zero n) else VNull)
  | _ => Some v
  end.

Definition JSON_object (finite : num → bool) (o : gmap string value)
  : gmap string value :=
  omap (JSON_value finite) o.

End Values.

End JS.

Import JS.

(** ** Configuration schema and sanitizer *)

Module Config.

Section Schema.
Context `{JSNumber}.

Record field := Field {
  iname : string;
  itype : jstype;
  def : value;
  etype : jstype;
  ename : string
}.

Definition fields : list field := [
  Field "t"  TString  (VStr EmptyString)   TString  "BrowserTitle";
  Field "i"  TString  (VStr EmptyString)   TString  "BrowserInfo";
  Field "w"  TString  (VStr "1280")        TNumber  "BrowserWidth";
  Field "h"  TString  (VStr "720")         TNumber  "BrowserHeight";
  Field "c"  TString  (VStr "transparent") TString  "BrowserColor";
  Field "z"  TString  (VStr "1.0")         TNumber  "BrowserZoom";
  Field "H"  TBoolean (VBool false)        TBoolean "BrowserTrust";
  Field "I"  TBoolean (VBool false)        TBoolean "BrowserNodeAPI";
  Field "B"  TBoolean (VBool false)        TBoolean "BrowserOBSDOM";
  Field "S"  TBoolean (VBool false)        TBoolean "BrowserPersist";
  Field "ar" TBoolean (VBool false)        TBoolean "AutoRefreshEnabled";
  Field "ai" TString  (VStr "300")         TNumber  "AutoRefreshInterval";
  Field "as" TBoolean (VBool false)        TBoolean "InstanceAutoStart";
  Field "it" TString  (VStr "url")         TString  "InputType";
  Field "u"  TString  (VStr EmptyString)   TString  "InputURL";
  Field "if" TString  (VStr EmptyString)   TString  "InputFiles";
  Field "si" TString  (VStr "5")           TNumber  "SlideshowInterval";
  Field "sf" TString  (VStr "1")           TNumber  "SlideshowFade";
  Field "k"  TString  (VStr "0")           TNumber  "PatchDelay";
  Field "j"  TString  (VStr EmptyString)   TString  "PatchFrame";
  Field "g"  TString  (VStr "inline")      TString  "PatchStyleType";
  Field "q"  TString  (VStr EmptyString)   TString  "PatchStyleCode";
  Field "G"  TString  (VStr "inline")      TString  "PatchScriptType";
  Field "Q"  TString  (VStr EmptyString)   TString  "PatchScriptCode";
  Field "N"  TBoolean (VBool false)        TBoolean "Output2Enabled";
  Field "f"  TString  (VStr "30")          TNumber  "Output2VideoFrameRate";
  Field "a"  TBoolean (VBool false)        TBoolean "Output2VideoAdaptive";
  Field "O"  TString  (VStr "0")           TNumber  "Output2VideoDelay";
  Field "r"  TNumber  (VNum (num_of_Z 48000)) TNumber "Output2AudioSampleRate";
  Field "C"  TString  (VStr "2")           TNumber  "Output2AudioChannels";
  Field "o"  TString  (VStr "0")           TNumber  "Output2AudioDelay";
  Field "n"  TBoolean (VBool true)         TBoolean "Output2SinkNDIEnabled";
  Field "v"  TBoolean (VBool true)         TBoolean "Output2SinkNDIAlpha";
  Field "l"  TBoolean (VBool false)        TBoolean "Output2SinkNDITallyReload";
  Field "m"  TBoolean (VBool false)        TBoolean "Output2SinkFFmpegEnabled";
  Field "R"  TString  (VStr "vbr")         TString  "Output2SinkFFmpegMode";
  Field "F"  TString  (VStr "matroska")    TString  "Output2SinkFFmpegFormat";
  Field "M"  TString  (VStr EmptyString)   TString  "Output2SinkFFmpegOptions";
  Field "P"  TBoolean (VBool false)        TBoolean "PreviewEnabled";
  Field "T"  TBoolean (VBool false)        TBoolean "ConsoleEnabled";
  Field "E"  TBoolean (VBool false)        TBoolean "DevToolsEnabled";
  Field "_"  TBoolean (VBool false)        TBoolean "Collapsed"
].

(** [fields.find((field) => field.iname === attr)] *)
Definition find_field (attr : string) : option field :=
  List.find (λ field, String.eqb (iname field) attr) fields.

(** The first loop of [sanitizeConfig]: one schema field. *)
Definition fill_default (acc : gmap string value * nat) (field : field)
  : gmap string value * nat :=
  let '(browser, changed) := acc in
  if decide (get browser (iname field) = VUndefined)
  then (<[iname field := def field]> browser, S changed)
  else (browser, changed).

(** The second loop of [sanitizeConfig]: one key of the record. *)
Definition prune_attr (acc : gmap string value * nat) (attr : string)
  : gmap string value * nat :=
  let '(browser, changed) := acc in
  if String.eqb attr "id" then (browser, changed)
  else match find_field attr with
       | Some _ => (browser, changed)
       | None => (delete attr browser, S changed)
       end.

(** [sanitizeConfig(browser)]: the record after the call and the number
    of changes it returns. *)
Definition sanitizeConfig (browser : gmap string value)
  : gmap string value * nat :=
  let migrated :=
    if decide (get browser "it" = VStr "video")
    then (<["it" := VStr "url"]> browser, 1)
    else (browser, 0) in
  let filled := foldl fill_default migrated fields in
  foldl prune_attr filled (keys filled.1).

End Schema.

End Config.

(** ** The main process: state and effects *)

Module Main.

(** What the surroundings of the main process provide: the JSON and YAML
    codecs, the capture worker behind [Browser.start()], the id generator
    and the strings of the file header. *)
Class Runtime `{JSNumber} := {
  json : Type;
  JSON_stringify : list (gmap string value) → json;
  JSON_parse : json → list (gmap string value);
  jsYAML_dump : value → string;
  jsYAML_load : string → option (option (list (gmap string value)));
  Browser_start : string → gmap string value → bool;
  new_uuid : nat → string;
  version_vingester : string;
  moment_format : string
}.

(** [jsYAML_load] gives [None] when [jsYAML.load] throws, [Some None] for
    [null] and [Some (Some l)] for a sequence of mappings of scalars.
    Documents of another shape that the parser accepts (a scalar, a lone
    mapping, a sequence of other things), over which the loop of
    [importConfig] throws or runs character by character, are outside
    the model. *)

Section State.
Context `{Runtime}.

(** Modelled from the spec: class [Browser] of [vingester-browser.js], a
    file that is not among the sources.  The status is derived from the
    worker; [valid()] asks for a non-empty title and an enabled output;
    [reconfigure] replaces the configuration and keeps the worker;
    [stop()] leaves the worker stopped; [reload()] and [clear()] do not
    change the status. *)
Record Browser := {
  cfg : gmap string value;
  worker_running : bool
}.

Definition running (b : Browser) : bool := worker_running b.

Definition valid (b : Browser) : bool :=
  negb (bool_decide (get (cfg b) "t" = VStr EmptyString))
  && ToBoolean (get (cfg b) "N").

Definition Browser_new (c : gmap string value) : Browser :=
  {| cfg := c; worker_running := false |}.

Definition reconfigure (c : gmap string value) (b : Browser) : Browser :=
  {| cfg := c; worker_running := worker_running b |}.

Definition set_running (r : bool) (b : Browser) : Browser :=
  {| cfg := cfg b; worker_running := r |}.

(** What the main process does to the outside, in order of occurrence.
    Calls of the local logger are left out. *)
Inductive event :=
| IpcSend (channel : string) (arg : string)
| Syslog (level tag message : string)
| WorkerCall (method id : string)
| StoreSet (key : string)
| FileWrite (file : string)
| DebouncedAutosave
| TimerCleared (name : string)
| ListenerClosed (name : string)
| BoundsSaved
| ControlDestroyed.

#[export] Instance event_eq_dec : EqDecision event.
Proof. solve_decision. Defined.

(** An HTTP server object of the classes [API] and [WebUI]: the fields the
    constructor declares.  [server] is [true] while it listens. *)
Record Server := {
  server : bool;
  enabled : bool;
  addr : string;
  port : string
}.

(** [api.hapi], [webui.hapi]: neither class declares such a property. *)
Definition hapi (s : Server) : value := VUndefined.

Record App := {
  browsers : gmap string Browser;
  store_browsers : option json;
  settings : gmap string value;
  configVersion : nat;
  files : gmap string string;
  uuids : nat;
  timer : bool;
  autosaveTimer : bool;
  autosaveFile : string;
  configFile : option string;
  api : Server;
  webui : Server;
  control_destroyed : bool;
  effects : list event
}.

Inductive error :=
| Error (message : string)
| TypeError (message : string).

#[export] Instance error_eq_dec : EqDecision error.
Proof. solve_decision. Defined.

Definition message_of (e : error) : string :=
  match e with Error m | TypeError m => m end.

Inductive outcome (A : Type) :=
| Ok (a : A)
| Throw (e : error).
Arguments Ok {A} a.
Arguments Throw {A} e.

(** A computation of the main process: it changes the state and either
    returns or throws; what it did before throwing stays done. *)
Definition M (A : Type) : Type := App → outcome A * App.

#[export] Instance M_ret : MRet M := λ A a st, (Ok a, st).

#[export] Instance M_bind : MBind M := λ A B f m st,
  match m st with
  | (Ok a, st') => f a st'
  | (Throw e, st') => (Throw e, st')
  end.

Definition throw {A} (e : error) : M A := λ st, (Throw e, st).

Definition read {A} (f : App → A) : M A := λ st, (Ok (f st), st).

Definition update (f : App → App) : M unit := λ st, (Ok tt, f st).

(** [try { m } catch (ex) { h ex }] *)
Definition try_catch {A} (m : M A) (h : error → M A) : M A := λ st,
  match m st with
  | (Ok a, st') => (Ok a, st')
  | (Throw e, st') => h e st'
  end.

Definition set_browsers (b : gmap string Browser) (st : App) : App :=
  {| browsers := b; store_browsers := store_browsers st;
     settings := settings st; configVersion := configVersion st;
     files := files st; uuids := uuids st; timer := timer st;
     autosaveTimer := autosaveTimer st; autosaveFile := autosaveFile st;
     configFile := configFile st; api := api st; webui := webui st;
     control_destroyed := control_destroyed st; effects := effects st |}.

Definition emit (e : event) : M unit := update (λ st,
  {| browsers := browsers st; store_browsers := store_browsers st;
     settings := settings st; configVersion := configVersion st;
     files := files st; uuids := uuids st; timer := timer st;
     autosaveTimer := autosaveTimer st; autosaveFile := autosaveFile st;
     configFile := configFile st; api := api st; webui := webui st;
     control_destroyed := control_destroyed st;
     effects := effects st ++ [e] |}).

End State.

Arguments Ok {A} a.
Arguments Throw {A} e.

(** ** Persistence: the store and the YAML files *)

Section Persistence.
Context `{Runtime}.
Import Config.

Definition set_store (j : option json) (st : App) : App :=
  {| browsers := browsers st; store_browsers := j;
     settings := settings st; configVersion := configVersion st;
     files := files st; uuids := uuids st; timer := timer st;
     autosaveTimer := autosaveTimer st; autosaveFile := autosaveFile st;
     configFile := configFile st; api := api st; webui := webui st;
     control_destroyed := control_destroyed st; effects := effects st |}.

Definition set_configVersion (n : nat) (st : App) : App :=
  {| browsers := browsers st; store_browsers := store_browsers st;
     settings := settings st; configVersion := n;
     files := files st; uuids := uuids st; timer := timer st;
     autosaveTimer := autosaveTimer st; autosaveFile := autosaveFile st;
     configFile := configFile st; api := api st; webui := webui st;
     control_destroyed := control_destroyed st; effects := effects st |}.

Definition set_files (fs : gmap string string) (st : App) : App :=
  {| browsers := browsers st; store_browsers := store_browsers st;
     settings := settings st; configVersion := configVersion st;
     files := fs; uuids := uuids st; timer := timer st;
     autosaveTimer := autosaveTimer st; autosaveFile := autosaveFile st;
     configFile := configFile st; api := api st; webui := webui st;
     control_destroyed := control_destroyed st; effects := effects st |}.

Definition set_uuids (n : nat) (st : App) : App :=
  {| browsers := browsers st; store_browsers := store_browsers st;
     settings := settings st; configVersion := configVersion st;
     files := files st; uuids := n; timer := timer st;
     autosaveTimer := autosaveTimer st; autosaveFile := autosaveFile st;
     configFile := configFile st; api := api st; webui := webui st;
     control_destroyed := control_destroyed st; effects := effects st |}.

(** [saveConfigs(browsers)] *)
Definition saveConfigs (bs : list (gmap string value)) : M unit :=
  update (set_store (Some (JSON_stringify bs))) ;;
  emit (StoreSet "browsers") ;;
  v ← read configVersion;
  update (set_configVersion (S v)).

(** [loadConfigs()] *)
Definition loadConfigs : M (list (gmap string value)) :=
  stored ← read store_browsers;
  let '(bs, changed) :=
    match stored with
    | Some j => (JSON_parse j, 0)
    | None => ([], 1)
    end in
  let changed := changed + sum_list ((λ b, (sanitizeConfig b).2) <$> bs) in
  let bs := (λ b, (sanitizeConfig b).1) <$> bs in
  (if bool_decide (0 < changed) then saveConfigs bs else mret tt) ;;
  mret bs.

(** The coercion chain that export applies with [field.etype] and import
    with [field.itype]. *)
Definition coerce (t : jstype) (v : value) : value :=
  match t with
  | TBoolean => if has_type TBoolean v then v else VBool (ToBoolean v)
  | TNumber => if has_type TNumber v then v else VNum (ToNumber v)
  | TString => if has_type TString v then v else VStr (ToString v)
  end.

Definition nl : string := String "010"%char EmptyString.

Fixpoint spaces (n : nat) : string :=
  match n with
  | 0 => EmptyString
  | S n => String " "%char (spaces n)
  end.

(** [s.padEnd(n, " ")] *)
Definition padEnd (n : nat) (s : string) : string :=
  s ++ spaces (n - String.length s).

(** [value.replace(/\r?\n$/, "")] *)
Fixpoint strip_eol (s : string) : string :=
  match s with
  | String "013"%char (String "010"%char EmptyString) => EmptyString
  | String "010"%char EmptyString => EmptyString
  | String c s' => String c (strip_eol s')
  | EmptyString => EmptyString
  end.

(** One line of a block: [line] is the counter of the source. *)
Definition yaml_line (browser : gmap string value) (line : nat) (field : field)
  : string :=
  (if bool_decide (line = 1) then "-   " else "    ")
  ++ padEnd 30 (ename field ++ ":") ++ " "
  ++ strip_eol (jsYAML_dump (coerce (etype field) (get browser (iname field))))
  ++ nl.

Fixpoint yaml_lines (browser : gmap string value) (line : nat) (fs : list field)
  : string :=
  match fs with
  | [] => EmptyString
  | field :: fs => yaml_line browser line field ++ yaml_lines browser (S line) fs
  end.

Definition yaml_block (browser : gmap string value) : string :=
  yaml_lines browser 1 fields ++ nl.

Definition yaml_blocks (bs : list (gmap string value)) : string :=
  String.concat EmptyString (yaml_block <$> bs).

Definition export_header : string :=
  "%YAML 1.2" ++ nl ++
  "##" ++ nl ++
  "##  WebRetriever Configuration" ++ nl ++
  "##  Version: WebRetriever " ++ version_vingester ++ nl ++
  "##  Date:    " ++ moment_format ++ nl ++
  "##" ++ nl ++
  nl ++
  "---" ++ nl ++
  nl.

(** [fs.promises.writeFile(file, text)] and [fs.promises.readFile(file)] *)
Definition writeFile (file text : string) : M unit :=
  fs ← read files;
  update (set_files (<[file := text]> fs)) ;;
  emit (FileWrite file).

Definition readFile (file : string) : M string :=
  fs ← read files;
  match fs !! file with
  | Some text => mret text
  | None => throw (Error "ENOENT: no such file or directory")
  end.

(** [exportConfig(file)] *)
Definition exportConfig (file : string) : M unit :=
  bs ← loadConfigs;
  let bs := delete "id" <$> bs in
  writeFile file (export_header ++ yaml_blocks bs).

End Persistence.

Section Importing.
Context `{Runtime}.
Import Config.

(** The body of the inner loop of [importConfig]: one schema field. *)
Definition import_field (browser : gmap string value) (field : field)
  : gmap string value :=
  let value := get browser (ename field) in
  if decide (value = VUndefined) then browser
  else <[iname field := coerce (itype field) value]>
         (delete (ename field) browser).

Definition legacyFields : list string := [
  "Output1Enabled"; "Output1VideoPositionX"; "Output1VideoPositionY";
  "Output1VideoDisplay"; "Output1VideoPinTop"; "Output1AudioDevice";
  "D"; "x"; "y"; "d"; "p"; "A"
].

(** One record of the imported sequence, after its id is settled. *)
Definition import_browser (browser : gmap string value) : gmap string value :=
  let browser := foldl import_field browser fields in
  let browser := foldl (λ b lf, delete lf b) browser legacyFields in
  (sanitizeConfig browser).1.

(** The outer loop of [importConfig]; [n] counts the ids generated. *)
Fixpoint import_browsers (n : nat) (bs : list (gmap string value))
  : list (gmap string value) * nat :=
  match bs with
  | [] => ([], n)
  | browser :: bs =>
    let '(browser, n) :=
      if decide (get browser "id" = VUndefined)
      then (<["id" := VStr (new_uuid n)]> browser, S n)
      else (browser, n) in
    let '(rest, n) := import_browsers n bs in
    (import_browser browser :: rest, n)
  end.

(** [importConfig(file)]: [Some false] is the [false] of the failure
    path, [None] the [undefined] of the path that runs to the end. *)
Definition importConfig (file : string) : M (option bool) :=
  yaml ← readFile file;
  match jsYAML_load yaml with
  | None => mret (Some false)
  | Some loaded =>
    let browsers := default [] loaded in
    n ← read uuids;
    let '(browsers, n) := import_browsers n browsers in
    update (set_uuids n) ;;
    saveConfigs browsers ;;
    mret None
  end.

(** [store.get(key) ?? dflt] *)
Definition setting_or (key : string) (dflt : value) : M value :=
  read (λ st,
    match settings st !! key with
    | Some VUndefined | Some VNull | None => dflt
    | Some v => v
    end).

Definition autosave_header (webuiEnabled webuiAddr webuiPort
                            apiEnabled apiAddr apiPort : value) : string :=
  "%YAML 1.2" ++ nl ++
  "##" ++ nl ++
  "##  WebRetriever Autosave Configuration" ++ nl ++
  "##  Version: WebRetriever " ++ version_vingester ++ nl ++
  "##  Date:    " ++ moment_format ++ nl ++
  "##" ++ nl ++
  "##  WebUI:  enabled=" ++ ToString webuiEnabled ++ "  addr="
    ++ ToString webuiAddr ++ "  port=" ++ ToString webuiPort ++ nl ++
  "##  API:    enabled=" ++ ToString apiEnabled ++ "    addr="
    ++ ToString apiAddr ++ "    port=" ++ ToString apiPort ++ nl ++
  "##" ++ nl ++
  nl ++
  "---" ++ nl ++
  nl.

(** [autosaveConfig(file)] *)
Definition autosaveConfig (file : string) : M unit :=
  bs ← loadConfigs;
  let bs := delete "id" <$> bs in
  webuiEnabled ← setting_or "webui.enabled" (VBool false);
  webuiAddr ← setting_or "webui.addr" (VStr "127.0.0.1");
  webuiPort ← setting_or "webui.port" (VStr "7212");
  apiEnabled ← setting_or "api.enabled" (VBool false);
  apiAddr ← setting_or "api.addr" (VStr "127.0.0.1");
  apiPort ← setting_or "api.port" (VStr "7211");
  writeFile file
    (autosave_header webuiEnabled webuiAddr webuiPort apiEnabled apiAddr apiPort
     ++ yaml_blocks bs).

(** [performAutosave()] *)
Definition performAutosave : M unit :=
  file ← read autosaveFile;
  if String.eqb file EmptyString then mret tt
  else
    try_catch
      (autosaveConfig file ;;
       read control_destroyed ≫= λ destroyed : bool,
       if destroyed then mret tt else emit (IpcSend "autosave-done" file))
      (λ err, mret tt).

End Importing.

(** ** The instance registry and its operations *)

Section Control.
Context `{Runtime}.

(** The errors [controlBrowser] throws, under the names of the error
    taxonomy. *)
Definition UnknownInstance : error := Error "invalid browser id".
Definition AlreadyRunning : error := Error "browser already running".
Definition InvalidConfig : error := Error "browser configuration not valid".
Definition NotRunning : error := Error "browser still not running".
Definition StillRunning : error := Error "browser still running".

Definition dq : string := String "034"%char EmptyString.

(** The template [`${what}: "${title}" (id=${id})`] of the syslog lines. *)
Definition instance_message (what : string) (title : value) (id : string)
  : string :=
  what ++ ": " ++ dq ++ ToString title ++ dq ++ " (id=" ++ id ++ ")".

(** [browsers[id]], for an id that is not a name inherited from
    [Object.prototype]: for such a name that is no key of the registry
    the code gets the inherited value, which is not [undefined]. *)
Definition lookup_browser (id : string) : M (option Browser) :=
  read (λ st, browsers st !! id).

Definition put_browser (id : string) (b : Browser) : M unit :=
  update (λ st, set_browsers (<[id := b]> (browsers st)) st).

Definition remove_browser (id : string) : M unit :=
  update (λ st, set_browsers (delete id (browsers st)) st).

(** The branch ["add"]. *)
Definition control_add (id : string) (c : gmap string value) : M unit :=
  put_browser id (Browser_new c) ;;
  emit (Syslog "info" "instance" (instance_message "added" (get c "t") id)).

(** The branch ["mod"]. *)
Definition control_mod (id : string) (c : gmap string value) : M unit :=
  ob ← lookup_browser id;
  match ob with
  | None => throw (TypeError "Cannot read properties of undefined")
  | Some browser =>
    put_browser id (reconfigure c browser) ;;
    emit (Syslog "info" "instance" (instance_message "modified" (get c "t") id))
  end.

(** The branch ["start"]. *)
Definition control_start (id : string) : M unit :=
  ob ← lookup_browser id;
  match ob with
  | None => throw UnknownInstance
  | Some browser =>
    if running browser then throw AlreadyRunning
    else if negb (valid browser) then throw InvalidConfig
    else
      emit (IpcSend "browser-start" id) ;;
      emit (WorkerCall "start" id) ;;
      if Browser_start id (cfg browser) then
        put_browser id (set_running true browser) ;;
        emit (IpcSend "browser-started" id) ;;
        emit (Syslog "info" "instance"
                (instance_message "started" (get (cfg browser) "t") id))
      else
        emit (IpcSend "browser-failed" id) ;;
        emit (Syslog "error" "instance"
                (instance_message "start failed" (get (cfg browser) "t") id)) ;;
        emit (WorkerCall "stop" id) ;;
        put_browser id (set_running false browser)
  end.

(** The branch ["reload"]. *)
Definition control_reload (id : string) : M unit :=
  ob ← lookup_browser id;
  match ob with
  | None => throw UnknownInstance
  | Some browser =>
    if negb (running browser) then throw NotRunning
    else
      emit (IpcSend "browser-reload" id) ;;
      emit (WorkerCall "reload" id) ;;
      emit (IpcSend "browser-reloaded" id) ;;
      emit (Syslog "info" "instance"
              (instance_message "reloaded" (get (cfg browser) "t") id))
  end.

(** The branch ["stop"]. *)
Definition control_stop (id : string) : M unit :=
  ob ← lookup_browser id;
  match ob with
  | None => throw UnknownInstance
  | Some browser =>
    if negb (running browser) then throw NotRunning
    else
      emit (IpcSend "browser-stop" id) ;;
      emit (WorkerCall "stop" id) ;;
      put_browser id (set_running false browser) ;;
      emit (IpcSend "browser-stopped" id) ;;
      emit (Syslog "info" "instance"
              (instance_message "stopped" (get (cfg browser) "t") id))
  end.

(** The branch ["clear"]. *)
Definition control_clear (id : string) : M unit :=
  ob ← lookup_browser id;
  match ob with
  | None => throw UnknownInstance
  | Some browser =>
    if running browser then throw StillRunning
    else
      emit (IpcSend "browser-clear" id) ;;
      emit (WorkerCall "clear" id) ;;
      emit (IpcSend "browser-cleared" id)
  end.

(** The branch ["del"]; its call [controlBrowser("stop", id)] is the
    branch ["stop"]. *)
Definition control_del (id : string) : M unit :=
  ob ← lookup_browser id;
  let title :=
    match ob with
    | Some browser =>
      if ToBoolean (get (cfg browser) "t") then get (cfg browser) "t"
      else VStr id
    | None => VStr id
    end in
  match ob with
  | Some browser => if running browser then control_stop id else mret tt
  | None => mret tt
  end ;;
  remove_browser id ;;
  emit (Syslog "info" "instance" (instance_message "deleted" title id)).

(** The loop of a bulk action followed by [Promise.all(p)]: every call
    that passes the test is made, and the first rejection, if any, is the
    one of the whole.  Each call runs to its end before the next; the
    interleaving of the calls at their [await]s is not modelled. *)
Fixpoint bulk (test : Browser → bool) (op : string → M unit)
  (ids : list string) : M unit :=
  match ids with
  | [] => mret tt
  | id :: ids => λ st,
    match browsers st !! id with
    | None => (Throw (TypeError "Cannot read properties of undefined"), st)
    | Some browser =>
      if test browser then
        match op id st with
        | (Ok _, st') => bulk test op ids st'
        | (Throw e, st') => (Throw e, (bulk test op ids st').2)
        end
      else bulk test op ids st
    end
  end.

(** [Object.keys(browsers)] (the order of the ids is not modelled) *)
Definition browser_ids (st : App) : list string :=
  (map_to_list (browsers st)).*1.

(** The branch ["prune"]. *)
Definition prune_one (id : string) : M unit :=
  ob ← lookup_browser id;
  match ob with
  | None => throw (TypeError "Cannot read properties of undefined")
  | Some browser =>
    (if running browser then
       emit (WorkerCall "stop" id) ;;
       put_browser id (set_running false browser)
     else mret tt) ;;
    remove_browser id
  end.

Definition control_prune : M unit :=
  ids ← read browser_ids;
  foldr (λ id rest, prune_one id ;; rest) (mret tt) ids.

(** [controlBrowser(action, id, cfg)] *)
Definition controlBrowser (action id : string) (c : gmap string value)
  : M unit :=
  if String.eqb action "prune" then control_prune
  else if String.eqb action "add" then control_add id c
  else if String.eqb action "mod" then control_mod id c
  else if String.eqb action "del" then control_del id
  else if String.eqb action "start-all" then
    ids ← read browser_ids;
    bulk (λ b, negb (running b) && valid b) control_start ids
  else if String.eqb action "reload-all" then
    ids ← read browser_ids;
    bulk running control_reload ids
  else if String.eqb action "stop-all" then
    ids ← read browser_ids;
    bulk running control_stop ids
  else if String.eqb action "start" then control_start id
  else if String.eqb action "reload" then control_reload id
  else if String.eqb action "stop" then control_stop id
  else if String.eqb action "clear" then control_clear id
  else mret tt.

End Control.

(** ** The control surfaces that change the configuration *)

Section Surfaces.
Context `{Runtime}.
Import Config.

(** The JSON bodies the handlers answer with. *)
Inductive body :=
| BodyOk
| BodyOkId (id : string)
| BodyOkRestarted (restarted : bool)
| BodyError (error : string).

Record response := Response { status : nat; payload : body }.

(** [wrap(fn)] with the global error handler of the Web UI application. *)
Definition wrap (fn : M response) : M response :=
  try_catch fn (λ err, mret (Response 500 (BodyError (message_of err)))).

(** [saveBrowsersToStore()] *)
Definition saveBrowsersToStore : M unit :=
  registry ← read browsers;
  let cfgArray :=
    (λ entry : string * Browser, cfg entry.2 ∪ {["id" := VStr entry.1]})
      <$> map_to_list registry in
  saveConfigs cfgArray ;;
  read control_destroyed ≫= λ destroyed : bool,
  (if destroyed then mret tt else emit (IpcSend "browsers-refresh" EmptyString)) ;;
  emit DebouncedAutosave.

(** [POST /api/instances] *)
Definition webui_post_instance (req_body : gmap string value) : M response :=
  wrap (
    n ← read uuids;
    update (set_uuids (S n)) ;;
    let id := new_uuid n in
    let c := (sanitizeConfig (req_body ∪ {["id" := VStr id]})).1 in
    controlBrowser "add" id c ;;
    saveBrowsersToStore ;;
    mret (Response 201 (BodyOkId id))).

(** [PATCH /api/instances/:id] *)
Definition webui_patch_instance (id : string) (req_body : gmap string value)
  : M response :=
  wrap (
    ob ← lookup_browser id;
    match ob with
    | None => mret (Response 404 (BodyError "instance not found"))
    | Some browser =>
      let c := (sanitizeConfig (req_body ∪ cfg browser)).1 in
      let wasRunning := running browser in
      (if wasRunning then controlBrowser "stop" id ∅ else mret tt) ;;
      controlBrowser "mod" id c ;;
      (if wasRunning then controlBrowser "start" id ∅ else mret tt) ;;
      saveBrowsersToStore ;;
      (if wasRunning
       then emit (Syslog "info" "webui"
                    (instance_message "auto-restarted after edit" (get c "t") id))
       else mret tt) ;;
      mret (Response 200 (BodyOkRestarted wasRunning))
    end).

(** [DELETE /api/instances/:id] *)
Definition webui_delete_instance (id : string) : M response :=
  wrap (
    ob ← lookup_browser id;
    match ob with
    | None => mret (Response 404 (BodyError "instance not found"))
    | Some browser =>
      controlBrowser "del" id ∅ ;;
      saveBrowsersToStore ;;
      mret (Response 200 BodyOk)
    end).

(** The handler of the local channel ["control"]. *)
Definition ipc_control (action id : string) (browser : gmap string value)
  : M unit :=
  controlBrowser action id browser.

(** The handler of the local channel ["browsers-save"]. *)
Definition ipc_browsers_save (bs : list (gmap string value)) : M unit :=
  saveConfigs bs.

End Surfaces.

(** ** Shutdown *)

Section Shutdown.
Context `{Runtime}.

Definition set_timer (b : bool) (st : App) : App :=
  {| browsers := browsers st; store_browsers := store_browsers st;
     settings := settings st; configVersion := configVersion st;
     files := files st; uuids := uuids st; timer := b;
     autosaveTimer := autosaveTimer st; autosaveFile := autosaveFile st;
     configFile := configFile st; api := api st; webui := webui st;
     control_destroyed := control_destroyed st; effects := effects st |}.

Definition set_autosaveTimer (b : bool) (st : App) : App :=
  {| browsers := browsers st; store_browsers := store_browsers st;
     settings := settings st; configVersion := configVersion st;
     files := files st; uuids := uuids st; timer := timer st;
     autosaveTimer := b; autosaveFile := autosaveFile st;
     configFile := configFile st; api := api st; webui := webui st;
     control_destroyed := control_destroyed st; effects := effects st |}.

Definition set_api (s : Server) (st : App) : App :=
  {| browsers := browsers st; store_browsers := store_browsers st;
     settings := settings st; configVersion := configVersion st;
     files := files st; uuids := uuids st; timer := timer st;
     autosaveTimer := autosaveTimer st; autosaveFile := autosaveFile st;
     configFile := configFile st; api := s; webui := webui st;
     control_destroyed := control_destroyed st; effects := effects st |}.

Definition set_webui (s : Server) (st : App) : App :=
  {| browsers := browsers st; store_browsers := store_browsers st;
     settings := settings st; configVersion := configVersion st;
     files := files st; uuids := uuids st; timer := timer st;
     autosaveTimer := autosaveTimer st; autosaveFile := autosaveFile st;
     configFile := configFile st; api := api st; webui := s;
     control_destroyed := control_destroyed st; effects := effects st |}.

Definition set_control_destroyed (b : bool) (st : App) : App :=
  {| browsers := browsers st; store_browsers := store_browsers st;
     settings := settings st; configVersion := configVersion st;
     files := files st; uuids := uuids st; timer := timer st;
     autosaveTimer := autosaveTimer st; autosaveFile := autosaveFile st;
     configFile := configFile st; api := api st; webui := webui st;
     control_destroyed := b; effects := effects st |}.

Definition closed (s : Server) : Server :=
  {| server := false; enabled := enabled s; addr := addr s; port := port s |}.

(** [stop()] of the classes [API] and [WebUI]: closing a server that is
    not there is caught inside. *)
Definition api_stop : M unit :=
  s ← read api;
  (if server s then emit (ListenerClosed "API") else mret tt) ;;
  update (set_api (closed s)).

Definition webui_stop : M unit :=
  s ← read webui;
  (if server s then emit (ListenerClosed "Web UI") else mret tt) ;;
  update (set_webui (closed s)).

(** The handler of [control.on("close")].  [updateBounds()] is the event
    [BoundsSaved]. *)
Definition on_close : M unit :=
  (read timer ≫= λ t : bool,
   if t then emit (TimerCleared "usage") ;; update (set_timer false)
   else mret tt) ;;
  (read autosaveTimer ≫= λ t : bool,
   if t then emit (TimerCleared "autosave") ;; update (set_autosaveTimer false)
   else mret tt) ;;
  performAutosave ;;
  controlBrowser "stop-all" EmptyString ∅ ;;
  (s ← read api; if ToBoolean (hapi s) then api_stop else mret tt) ;;
  (s ← read webui; if ToBoolean (hapi s) then webui_stop else mret tt) ;;
  (cf ← read configFile;
   match cf with
   | Some file => emit (IpcSend "save" EmptyString) ;; exportConfig file
   | None => mret tt
   end) ;;
  emit BoundsSaved ;;
  emit ControlDestroyed ;;
  update (set_control_destroyed true).

End Shutdown.

End Main.

(** ** Telemetry: the CPU alert *)

Module Telemetry.

(** What the callback of [usages.record] sends out. *)
Inductive output :=
| Usage (avg : Q)
| Warn (tag message : string).

Definition string_of_Z (z : Z) : string :=
  NilZero.string_of_int (Z.to_int z).

(** [Math.round(x)] *)
Definition Math_round (x : Q) : Z := Qfloor (x + (1 # 2)).

(** The callback, applied to [stat.avg] with the current [cpuHighCount]:
    the new counter and what is sent. *)
Definition on_average (avg : Q) (cpuHighCount : nat) : nat * list output :=
  if Qle_bool (80 # 1) avg then
    let cpuHighCount := S cpuHighCount in
    (cpuHighCount,
     Usage avg ::
     if Nat.eqb cpuHighCount 3
     then [Warn "system"
             ("high CPU usage: " ++ string_of_Z (Math_round avg) ++ "%")]
     else [])
  else (0, [Usage avg]).

(** The callback over a sequence of averages. *)
Fixpoint feed (avgs : list Q) (cpuHighCount : nat) : nat * list output :=
  match avgs with
  | [] => (cpuHighCount, [])
  | avg :: avgs =>
    let '(count, out) := on_average avg cpuHighCount in
    let '(count', out') := feed avgs count in
    (count', (out ++ out')%list)
  end.

Definition is_warn (o : output) : bool :=
  match o with Warn _ _ => true | Usage _ => false end.

(** The number of alerts among what was sent. *)
Definition alerts (out : list output) : nat :=
  length (List.filter is_warn out).

Definition high (avg : Q) : bool := Qle_bool (80 # 1) avg.

End Telemetry.

(** ** A small runtime to run the model on examples

    Numbers are the integers with [NaN], the two infinities and a
    negative zero, which are the Numbers of JavaScript up to 2^53 in
    absolute value; the examples stay within them.  JSON text is the
    sequence of records that [JSON.parse] gives back for it; the YAML
    reader covers the layout [exportConfig] writes, with strings that
    need no escapes. *)

Module Model.

Inductive znum := ZNaN | ZNeg0 | ZInt (z : Z) | ZInf (negative : bool).

#[export] Instance znum_eq_dec : EqDecision znum.
Proof. solve_decision. Defined.

(** [String(n)] *)
Definition znum_to_string (n : znum) : string :=
  match n with
  | ZNaN => "NaN"
  | ZNeg0 => "0"
  | ZInt z => NilZero.string_of_int (Z.to_int z)
  | ZInf false => "Infinity"
  | ZInf true => "-Infinity"
  end.

(** A decimal numeral with an optional minus sign. *)
Definition znum_of_string (s : string) : znum :=
  match NilZero.int_of_string s with
  | Some d => ZInt (Z.of_int d)
  | None => ZNaN
  end.

Definition znum_truthy (n : znum) : bool :=
  match n with
  | ZNaN | ZNeg0 => false
  | ZInt z => negb (Z.eqb z 0)
  | ZInf _ => true
  end.

Definition znum_finite (n : znum) : bool :=
  match n with
  | ZNaN | ZInf _ => false
  | ZNeg0 | ZInt _ => true
  end.

(** *** [Number] of a string

    The grammar of [StringNumericLiteral]: white space around a decimal
    literal with an optional sign, fraction and exponent, [Infinity], or
    a literal of radix 16, 8 or 2; the empty string is [0]. *)

(** White space and line terminators, as far as they are ASCII. *)
Definition is_space (c : ascii) : bool :=
  match c with
  | "009" | "010" | "011" | "012" | "013" | " " => true
  | _ => false
  end%char.

Definition is_digit (c : ascii) : bool :=
  match c with
  | "0" | "1" | "2" | "3" | "4" | "5" | "6" | "7" | "8" | "9" => true
  | _ => false
  end%char.

Fixpoint drop_blank (s : string) : string :=
  match s with
  | String c s' => if is_space c then drop_blank s' else s
  | EmptyString => EmptyString
  end.

Fixpoint blank (s : string) : bool :=
  match s with
  | String c s' => is_space c && blank s'
  | EmptyString => true
  end.

(** The characters at the head of [s] that pass [p], and the rest. *)
Fixpoint span (p : ascii → bool) (s : string) : string * string :=
  match s with
  | String c s' =>
    if p c then let '(d, r) := span p s' in (String c d, r)
    else (EmptyString, s)
  | EmptyString => (EmptyString, EmptyString)
  end.

(** The value of a digit, up to radix 16. *)
Definition digit_value (c : ascii) : Z :=
  match c with
  | "0" => 0 | "1" => 1 | "2" => 2 | "3" => 3 | "4" => 4
  | "5" => 5 | "6" => 6 | "7" => 7 | "8" => 8 | "9" => 9
  | "a" | "A" => 10 | "b" | "B" => 11 | "c" | "C" => 12
  | "d" | "D" => 13 | "e" | "E" => 14 | "f" | "F" => 15
  | _ => 16
  end%char%Z.

Fixpoint radix_value (radix acc : Z) (s : string) : Z :=
  match s with
  | String c s' => radix_value radix (acc * radix + digit_value c) s'
  | EmptyString => acc
  end.

Definition digits_value (d : string) : Z := radix_value 10 0 d.

Definition is_empty (s : string) : bool :=
  match s with
  | EmptyString => true
  | String _ _ => false
  end.

Definition take_sign (s : string) : bool * string :=
  match s with
  | String "-" s' => (true, s')
  | String "+" s' => (false, s')
  | _ => (false, s)
  end.

Definition signed (negative : bool) (z : Z) : Z := if negative then - z else z.

(** [ExponentPart], when there is one: its value and the rest. *)
Definition exponent (s : string) : option (Z * string) :=
  match s with
  | String c s' =>
    if Ascii.eqb c "e" || Ascii.eqb c "E" then
      let '(negative, s1) := take_sign s' in
      let '(d, r) := span is_digit s1 in
      if is_empty d then None
      else Some (signed negative (digits_value d), r)
    else Some (0%Z, s)
  | EmptyString => Some (0%Z, s)
  end.

(** [StrUnsignedDecimalLiteral] other than [Infinity]: digits [m] and
    exponent [e] of the value [m * 10 ^ e], and the rest. *)
Definition unsigned_decimal (s : string) : option (Z * Z * string) :=
  let '(ip, r1) := span is_digit s in
  let '(fp, r2) :=
    match r1 with
    | String "." r => span is_digit r
    | _ => (EmptyString, r1)
    end in
  if is_empty ip && is_empty fp then None
  else match exponent r2 with
       | Some (e, r3) =>
         Some (digits_value ip * 10 ^ Z.of_nat (String.length fp)
               + digits_value fp,
               e - Z.of_nat (String.length fp), r3)%Z
       | None => None
       end.

Fixpoint strip_prefix (p s : string) : option string :=
  match p, s with
  | EmptyString, _ => Some s
  | String a p', String b s' => if Ascii.eqb a b then strip_prefix p' s' else None
  | _, _ => None
  end.

(** [StrDecimalLiteral] followed by white space. *)
Definition decimal (s : string) : option znum :=
  let '(negative, s1) := take_sign s in
  match strip_prefix "Infinity" s1 with
  | Some rest => if blank rest then Some (ZInf negative) else None
  | None =>
    match unsigned_decimal s1 with
    | Some (m, e, rest) =>
      if negb (blank rest) then None
      else if (m =? 0)%Z then Some (if negative then ZNeg0 else ZInt 0)
      else if (0 <=? e)%Z then Some (ZInt (signed negative (m * 10 ^ e)))
      else
        let '(q, r) := Z.div_eucl m (10 ^ (- e)) in
        if (r =? 0)%Z then Some (ZInt (signed negative q)) else Some ZNaN
    | None => None
    end
  end.

(** [NonDecimalIntegerLiteral] followed by white space. *)
Definition nondecimal (s : string) : option znum :=
  match s with
  | String "0" (String x s') =>
    let radix :=
      match x with
      | "x" | "X" => Some 16%Z
      | "o" | "O" => Some 8%Z
      | "b" | "B" => Some 2%Z
      | _ => None
      end%char in
    match radix with
    | Some r =>
      let '(d, rest) := span (λ c, (digit_value c <? r)%Z) s' in
      if is_empty d || negb (blank rest) then None
      else Some (ZInt (radix_value r 0 d))
    | None => None
    end
  | _ => None
  end.

(** [Number(s)].  A literal whose value is not an integer has no Number
    among the ones of this runtime and reads as [NaN] here, which is not
    what it is in JavaScript. *)
Definition znum_of_literal (s : string) : znum :=
  let s := drop_blank s in
  if is_empty s then ZInt 0
  else match decimal s with
       | Some n => n
       | None => default ZNaN (nondecimal s)
       end.


Lemma span_digits_uint (u : Decimal.uint) :
  span is_digit (NilEmpty.string_of_uint u) = (NilEmpty.string_of_uint u, EmptyString).
Proof.
  induction u; cbn [NilEmpty.string_of_uint span]; [done|..];
    (change (is_digit _) with true; cbv iota; by rewrite IHu).
Qed.

Lemma string_of_uint_head (u : Decimal.uint) :
  u ≠ Decimal.Nil →
  ∃ c s, NilEmpty.string_of_uint u = String c s ∧ is_digit c = true.
Proof. destruct u; [done|..]; intros _; by eexists _, _. Qed.

Lemma radix_value_acc (u : Decimal.uint) (acc : positive) :
  radix_value 10 (Z.pos acc) (NilEmpty.string_of_uint u)
  = Z.pos (Pos.of_uint_acc u acc).
Proof.
  revert acc. induction u; intros acc;
    cbn [NilEmpty.string_of_uint radix_value Pos.of_uint_acc]; [done|..];
    rewrite <- IHu; f_equal; cbn [digit_value]; lia.
Qed.

Lemma digits_value_uint (u : Decimal.uint) :
  digits_value (NilEmpty.string_of_uint u) = Z.of_uint u.
Proof.
  unfold digits_value, Z.of_uint.
  induction u; cbn [NilEmpty.string_of_uint radix_value Pos.of_uint]; [done|..];
    try exact IHu; apply (radix_value_acc u).
Qed.

(** A numeral without sign reads as its value. *)
Lemma decimal_uint (negative : bool) (u : Decimal.uint) :
  u ≠ Decimal.Nil → Z.of_uint u ≠ 0%Z →
  match strip_prefix "Infinity" (NilEmpty.string_of_uint u) with
  | Some rest => if blank rest then Some (ZInf negative) else None
  | None =>
    match unsigned_decimal (NilEmpty.string_of_uint u) with
    | Some (m, e, rest) =>
      if negb (blank rest) then None
      else if (m =? 0)%Z then Some (if negative then ZNeg0 else ZInt 0)
      else if (0 <=? e)%Z then Some (ZInt (signed negative (m * 10 ^ e)))
      else
        let '(q, r) := Z.div_eucl m (10 ^ (- e)) in
        if (r =? 0)%Z then Some (ZInt (signed negative q)) else Some ZNaN
    | None => None
    end
  end = Some (ZInt (signed negative (Z.of_uint u))).
Proof.
  intros Hu Hz.
  assert (strip_prefix "Infinity" (NilEmpty.string_of_uint u) = None) as ->.
  { destruct u; [done|..]; reflexivity. }
  unfold unsigned_decimal. rewrite span_digits_uint.
  destruct (string_of_uint_head u Hu) as (c & s & Hs & Hc).
  rewrite Hs at 1. cbn [is_empty andb exponent String.length blank negb Z.of_nat].
  assert (digits_value (NilEmpty.string_of_uint u) * 10 ^ Z.of_nat 0
          + digits_value EmptyString = Z.of_uint u)%Z as ->.
  { rewrite digits_value_uint. change (digits_value EmptyString) with 0%Z.
    change (Z.of_nat 0) with 0%Z. lia. }
  apply Z.eqb_neq in Hz. rewrite Hz.
  change (0 - Z.of_nat 0)%Z with 0%Z. cbn [Z.leb Z.compare].
  by rewrite Z.pow_0_r, Z.mul_1_r.
Qed.

Lemma znum_of_literal_pos (p : positive) :
  znum_of_literal (NilZero.string_of_int (Z.to_int (Z.pos p))) = ZInt (Z.pos p)
  ∧ znum_of_literal (NilZero.string_of_int (Z.to_int (Z.neg p))) = ZInt (Z.neg p).
Proof.
  assert (Z.of_uint (Pos.to_uint p) = Z.pos p) as Hval.
  { change (Z.of_uint (Pos.to_uint p)) with (Z.of_int (Z.to_int (Z.pos p))).
    apply DecimalZ.of_to. }
  assert (Pos.to_uint p ≠ Decimal.Nil) as Hnil.
  { intros Heq. rewrite Heq in Hval. discriminate Hval. }
  assert (NilZero.string_of_uint (Pos.to_uint p)
          = NilEmpty.string_of_uint (Pos.to_uint p)) as Hstr.
  { by destruct (Pos.to_uint p). }
  destruct (string_of_uint_head _ Hnil) as (c & s & Hs & Hc).
  split.
  - change (Z.to_int (Z.pos p)) with (Decimal.Pos (Pos.to_uint p)).
    cbn [NilZero.string_of_int]. rewrite Hstr. unfold znum_of_literal.
    assert (drop_blank (NilEmpty.string_of_uint (Pos.to_uint p))
            = NilEmpty.string_of_uint (Pos.to_uint p)) as ->.
    { rewrite Hs. cbn [drop_blank].
      replace (is_space c) with false; [done|].
      destruct (Pos.to_uint p); [done|..]; injection Hs as <- _; done. }
    rewrite Hs at 1. cbn [is_empty]. unfold decimal.
    assert (take_sign (NilEmpty.string_of_uint (Pos.to_uint p))
            = (false, NilEmpty.string_of_uint (Pos.to_uint p))) as ->.
    { destruct (Pos.to_uint p); [done|..]; reflexivity. }
    rewrite (decimal_uint false) by (by rewrite ?Hval). by rewrite Hval.
  - change (Z.to_int (Z.neg p)) with (Decimal.Neg (Pos.to_uint p)).
    cbn [NilZero.string_of_int]. rewrite Hstr. unfold znum_of_literal.
    change (drop_blank (String "-" ?s)) with (String "-" s).
    cbn [drop_blank is_empty]. unfold decimal. cbn [take_sign].
    rewrite (decimal_uint true) by (by rewrite ?Hval). by rewrite Hval.
Qed.

Lemma znum_of_to_string (n : znum) :
  n ≠ ZNeg0 → znum_of_literal (znum_to_string n) = n.
Proof.
  destruct n as [| |[|p|p]|[|]]; try done; intros _; apply znum_of_literal_pos.
Qed.

#[export] Instance znumber : JSNumber := {|
  num := znum;
  NaN := ZNaN;
  negzero := ZNeg0;
  num_of_Z := ZInt;
  num_truthy := znum_truthy;
  StringToNumber := znum_of_literal;
  NumberToString := znum_to_string;
  ToNumber_ToString := znum_of_to_string;
  ToString_negzero := eq_refl;
  zero_not_negzero := ltac:(discriminate)
|}.

(** [Number] on some strings, as JavaScript gives it. *)
Lemma znum_of_literal_examples :
  Forall (λ p, znum_of_literal p.1 = p.2)
    [("1.0", ZInt 1); ("", ZInt 0); ("1e3", ZInt 1000); (" 12 ", ZInt 12);
     ("007", ZInt 7); ("-42", ZInt (-42)); ("+5", ZInt 5); ("5.", ZInt 5);
     (".5e1", ZInt 5); ("100e-2", ZInt 1); ("-0", ZNeg0); ("0x1F", ZInt 31);
     ("0b101", ZInt 5); ("0o17", ZInt 15); ("Infinity", ZInf false);
     ("-Infinity", ZInf true); ("abc", ZNaN); ("12px", ZNaN); ("1e", ZNaN);
     (".", ZNaN); ("-0x10", ZNaN); ("1 2", ZNaN); ("1_000", ZNaN)].
Proof. apply (bool_decide_unpack _). vm_compute. exact I. Qed.

(** *** Writing and reading YAML scalars and the exported layout *)

Definition quote : string := String "034"%char EmptyString.

Definition dump (v : value) : string :=
  match v with
  | VStr s => quote ++ s ++ quote
  | VBool true => "true"
  | VBool false => "false"
  | VNum ZNaN => ".nan"
  | VNum ZNeg0 => "-0.0"
  | VNum (ZInt z) => znum_to_string (ZInt z)
  | VNum (ZInf false) => ".inf"
  | VNum (ZInf true) => "-.inf"
  | VNull | VUndefined => "null"
  end ++ String "010"%char EmptyString.

Fixpoint lines (s : string) : list string :=
  match s with
  | EmptyString => [EmptyString]
  | String c s' =>
    if Ascii.eqb c "010"%char then EmptyString :: lines s'
    else match lines s' with
         | l :: ls => String c l :: ls
         | [] => [String c EmptyString]
         end
  end.

Fixpoint drop_spaces (s : string) : string :=
  match s with
  | String " "%char s' => drop_spaces s'
  | _ => s
  end.

(** The text before the first colon and the text after it. *)
Fixpoint split_colon (s : string) : option (string * string) :=
  match s with
  | EmptyString => None
  | String c s' =>
    if Ascii.eqb c ":"%char then Some (EmptyString, s')
    else match split_colon s' with
         | Some (k, r) => Some (String c k, r)
         | None => None
         end
  end.

Fixpoint unquote_tail (s : string) : option string :=
  match s with
  | EmptyString => None
  | String c s' =>
    if Ascii.eqb c "034"%char
    then (if String.eqb s' EmptyString then Some EmptyString else None)
    else option_map (String c) (unquote_tail s')
  end.

Definition scalar (s : string) : option value :=
  match s with
  | String c s' =>
    if Ascii.eqb c "034"%char then option_map VStr (unquote_tail s')
    else if String.eqb s "true" then Some (VBool true)
    else if String.eqb s "false" then Some (VBool false)
    else if String.eqb s ".nan" then Some (VNum ZNaN)
    else if String.eqb s ".inf" then Some (VNum (ZInf false))
    else if String.eqb s "-.inf" then Some (VNum (ZInf true))
    else if String.eqb s "-0.0" then Some (VNum ZNeg0)
    else if String.eqb s "null" then Some VNull
    else match NilZero.int_of_string s with
         | Some d => Some (VNum (ZInt (Z.of_int d)))
         | None => None
         end
  | EmptyString => None
  end.

(** A line of a block: whether it opens a block, its key and value. *)
Definition entry (l : string) : option (bool * string * value) :=
  match l with
  | String a (String b (String c (String d rest))) =>
    let opens := String.eqb (String a (String b (String c (String d EmptyString)))) "-   " in
    let cont := String.eqb (String a (String b (String c (String d EmptyString)))) "    " in
    if opens || cont then
      match split_colon rest with
      | Some (k, r) =>
        match scalar (drop_spaces r) with
        | Some v => Some (opens, k, v)
        | None => None
        end
      | None => None
      end
    else None
  | _ => None
  end.

Fixpoint blocks (ls : list string) (acc : list (gmap string value))
  : option (list (gmap string value)) :=
  match ls with
  | [] => Some (reverse acc)
  | l :: ls =>
    if String.eqb l EmptyString then blocks ls acc
    else match entry l, acc with
         | Some (true, k, v), _ => blocks ls ({[k := v]} :: acc)
         | Some (false, k, v), b :: acc => blocks ls (<[k := v]> b :: acc)
         | _, _ => None
         end
  end.

Fixpoint after_marker (ls : list string) : option (list string) :=
  match ls with
  | [] => None
  | l :: ls => if String.eqb l "---" then Some ls else after_marker ls
  end.

Definition load (s : string) : option (option (list (gmap string value))) :=
  match after_marker (lines s) with
  | None => None
  | Some ls =>
    match blocks ls [] with
    | Some [] => Some None
    | Some bs => Some (Some bs)
    | None => None
    end
  end.

Fixpoint nat_id (n : nat) : string :=
  match n with
  | 0 => "ID"
  | S n => nat_id n ++ "I"
  end.

#[export] Instance runtime : Main.Runtime := {|
  Main.json := list (gmap string value);
  Main.JSON_stringify := fmap (JSON_object znum_finite);
  Main.JSON_parse := id;
  Main.jsYAML_dump := dump;
  Main.jsYAML_load := load;
  Main.Browser_start := λ _ c, negb (bool_decide (get c "u" = VStr "chrome://crash"));
  Main.new_uuid := nat_id;
  Main.version_vingester := "3.0.0";
  Main.moment_format := "2025-01-01 12:00"
|}.

Definition idle : Main.Server :=
  {| Main.server := false; Main.enabled := false;
     Main.addr := "127.0.0.1"; Main.port := "7211" |}.

Definition listening : Main.Server :=
  {| Main.server := true; Main.enabled := true;
     Main.addr := "127.0.0.1"; Main.port := "7211" |}.

(** The state at startup: nothing registered, nothing stored. *)
Definition init : Main.App :=
  {| Main.browsers := ∅; Main.store_browsers := None; Main.settings := ∅;
     Main.configVersion := 0; Main.files := ∅; Main.uuids := 0;
     Main.timer := true; Main.autosaveTimer := true;
     Main.autosaveFile := "/cfg/autosave.yaml"; Main.configFile := None;
     Main.api := idle; Main.webui := idle;
     Main.control_destroyed := false; Main.effects := [] |}.

(** Example configurations and states reached from [init]. *)
Definition cam : gmap string value :=
  (Config.sanitizeConfig (<["t" := VStr "Cam1"]> (<["N" := VBool true]> ∅))).1.

Definition untitled : gmap string value :=
  (Config.sanitizeConfig (<["N" := VBool true]> ∅)).1.

Definition after {A} (m : Main.M A) (st : Main.App) : Main.App := (m st).2.

Definition added : Main.App := after (Main.controlBrowser "add" "A" cam) init.

Definition started : Main.App :=
  after (Main.controlBrowser "start" "A" ∅) added.

Definition retitled : Main.App :=
  after (Main.controlBrowser "mod" "A" untitled) started.

(** The instance ["A"] registered and saved to the store. *)
Definition stored : Main.App := after Main.saveBrowsersToStore added.

(** A valid instance ["A"] and an untitled instance ["B"], both stopped. *)
Definition two : Main.App :=
  after (Main.controlBrowser "add" "B" untitled) added.

End Model.

(** ** The media files of the Web UI *)

Module Media.

(** *** [path.basename] and [path.join] of Node, POSIX flavour *)

(** The pieces of a path between its slashes: [p.split("/")]. *)
Fixpoint segments (p : string) : list string :=
  match p with
  | EmptyString => [EmptyString]
  | String c p' =>
    if Ascii.eqb c "/"%char then EmptyString :: segments p'
    else match segments p' with
         | s :: ss => String c s :: ss
         | [] => [String c EmptyString]
         end
  end.

Definition nonempty (s : string) : bool := negb (String.eqb s EmptyString).

(** [path.basename(p)]: the last piece that is not empty, trailing
    slashes being ignored, or the empty string. *)
Definition basename (p : string) : string :=
  List.last (List.filter nonempty (segments p)) EmptyString.

(** [normalizeString]: the pieces are taken in turn, [res] holding the
    pieces kept so far, last first. *)
Fixpoint normalize_segments (allowAboveRoot : bool) (res : list string)
  (segs : list string) : list string :=
  match segs with
  | [] => res
  | s :: segs =>
    if String.eqb s EmptyString || String.eqb s "." then
      normalize_segments allowAboveRoot res segs
    else if String.eqb s ".." then
      match res with
      | r :: res' =>
        if String.eqb r ".."
        then normalize_segments allowAboveRoot
               (if allowAboveRoot then ".." :: res else res) segs
        else normalize_segments allowAboveRoot res' segs
      | [] =>
        normalize_segments allowAboveRoot
          (if allowAboveRoot then [".."] else []) segs
      end
    else normalize_segments allowAboveRoot (s :: res) segs
  end.

Definition isAbsolute (p : string) : bool :=
  match p with
  | String c _ => Ascii.eqb c "/"%char
  | EmptyString => false
  end.

Fixpoint trailingSeparator (p : string) : bool :=
  match p with
  | EmptyString => false
  | String c EmptyString => Ascii.eqb c "/"%char
  | String _ p' => trailingSeparator p'
  end.

(** The pieces put together with slashes between them. *)
Fixpoint unsplit (segs : list string) : string :=
  match segs with
  | [] => EmptyString
  | [s] => s
  | s :: segs => s ++ "/" ++ unsplit segs
  end.

(** [path.normalize(p)] *)
Definition normalize (p : string) : string :=
  if String.eqb p EmptyString then "."
  else
    let path :=
      unsplit (rev (normalize_segments (negb (isAbsolute p)) [] (segments p))) in
    if String.eqb path EmptyString then
      if isAbsolute p then "/"
      else if trailingSeparator p then "./" else "."
    else
      (if isAbsolute p then "/" else EmptyString)
      ++ path ++ (if trailingSeparator p then "/" else EmptyString).

(** [path.join(a, b)] *)
Definition join (a b : string) : string :=
  if String.eqb a EmptyString then
    if String.eqb b EmptyString then "." else normalize b
  else if String.eqb b EmptyString then normalize a
  else normalize (a ++ "/" ++ b).

(** *** The file system and the two handlers *)

Inductive node :=
| File (data : string)
| Dir.

(** The path a request for [filename] reads or unlinks. *)
Definition filePath (mediaDir filename : string) : string :=
  let safeName := basename filename in
  join mediaDir safeName.

Inductive answer :=
| Sent (data : string)
| Deleted
| NotFound.

(** [GET /media/:filename]: reading anything but a file throws, which
    the handler answers with 404. *)
Definition media_get (mediaDir : string) (fs : gmap string node)
  (filename : string) : answer :=
  match fs !! filePath mediaDir filename with
  | Some (File data) => Sent data
  | _ => NotFound
  end.

(** [DELETE /api/media/:filename]: unlinking anything but a file throws,
    which the handler answers with 404. *)
Definition media_delete (mediaDir : string) (fs : gmap string node)
  (filename : string) : gmap string node * answer :=
  match fs !! filePath mediaDir filename with
  | Some (File _) => (delete (filePath mediaDir filename) fs, Deleted)
  | _ => (fs, NotFound)
  end.

End Media.

(** ** The control routes of the REST API and of the Web UI *)

Module Routes.

Section Routes.
Context `{Main.Runtime}.
Import Main.

(** What a handler of the REST API sends: [send(text)] or
    [json({ error })] after [status(code)]. *)
Inductive content :=
| Text (text : string)
| Failure (error : string).

Record reply := Reply { code : nat; sent : content }.

(** [Object.keys(browsers).find((id) => browsers[id].cfg.t === browser)]:
    the first id in the order of [browser_ids], which is not the order
    of insertion that the code goes by. *)
Definition find_by_title (browser : string) (st : App) : option string :=
  List.find
    (λ id, match browsers st !! id with
           | Some b => bool_decide (get (cfg b) "t" = VStr browser)
           | None => false
           end)
    (browser_ids st).

Definition OK : reply := Reply 200 (Text "OK").

(** The handler of [/:browser/:command] of the class [API]. *)
Definition api_command (browser command : string) : M reply :=
  try_catch
    (if String.eqb browser "all" then
       if String.eqb command "start" then
         controlBrowser "start-all" EmptyString ∅ ;; mret OK
       else if String.eqb command "reload" then
         controlBrowser "reload-all" EmptyString ∅ ;; mret OK
       else if String.eqb command "stop" then
         controlBrowser "stop-all" EmptyString ∅ ;; mret OK
       else mret (Reply 400 (Failure "invalid command"))
     else
       found ← read (find_by_title browser);
       match found with
       | None => mret (Reply 404 (Failure "invalid browser title/name"))
       | Some id =>
         if String.eqb command "start" then
           controlBrowser "start" id ∅ ;; mret OK
         else if String.eqb command "reload" then
           controlBrowser "reload" id ∅ ;; mret OK
         else if String.eqb command "stop" then
           controlBrowser "stop" id ∅ ;; mret OK
         else if String.eqb command "clear" then
           controlBrowser "clear" id ∅ ;; mret OK
         else mret (Reply 400 (Failure "invalid command"))
       end)
    (λ err, mret (Reply 417 (Failure (message_of err)))).

Definition validCommands : list string := ["start"; "stop"; "reload"; "clear"].

Definition timed_out : error := Error "operation timed out after 12 seconds".

(** [Promise.race([ controlBrowser(command, id), timeout ])]: a rejection
    of the guards of [controlBrowser] comes at once; otherwise [timely]
    tells whether the operation is through before the timer.  The
    operation goes on after the timer, and the state given is the one it
    ends in. *)
Definition raced (timely : bool) (m : M unit) : M unit := λ st,
  match m st with
  | (Ok _, st') => if timely then (Ok tt, st') else (Throw timed_out, st')
  | (Throw e, st') => (Throw e, st')
  end.

(** The handler of [/api/instances/:id/:command] of the class [WebUI]. *)
Definition webui_command (timely : bool) (id command : string) : M response :=
  wrap (
    if negb (bool_decide (command ∈ validCommands)) then
      mret (Response 400 (BodyError "invalid command"))
    else
      ob ← lookup_browser id;
      match ob with
      | None => mret (Response 404 (BodyError "instance not found"))
      | Some _ =>
        raced timely (controlBrowser command id ∅) ;;
        mret (Response 200 BodyOk)
      end).

(** The property names every object literal inherits. *)
Definition Object_prototype : list string :=
  ["constructor"; "__defineGetter__"; "__defineSetter__"; "hasOwnProperty";
   "__lookupGetter__"; "__lookupSetter__"; "isPrototypeOf";
   "propertyIsEnumerable"; "toString"; "valueOf"; "__proto__";
   "toLocaleString"].

(** The handler of [/api/all/:command] of the class [WebUI].  For an
    inherited name [map[command]] is a function or an object, so the
    test lets it pass, and [controlBrowser] called with it finds no
    branch to take. *)
Definition webui_all (command : string) : M response :=
  wrap (
    if String.eqb command "start" then
      controlBrowser "start-all" EmptyString ∅ ;; mret (Response 200 BodyOk)
    else if String.eqb command "stop" then
      controlBrowser "stop-all" EmptyString ∅ ;; mret (Response 200 BodyOk)
    else if String.eqb command "reload" then
      controlBrowser "reload-all" EmptyString ∅ ;; mret (Response 200 BodyOk)
    else if bool_decide (command ∈ Object_prototype) then
      mret (Response 200 BodyOk)
    else mret (Response 400 (BodyError "invalid command"))).

End Routes.

End Routes.

(** ** Text and dates as the program formats them *)

Module Text.

(** [String(n)] for a natural number [n]. *)
Definition String_nat (n : nat) : string :=
  NilEmpty.string_of_uint (Nat.to_uint n).

Fixpoint repeat_char (c : ascii) (n : nat) : string :=
  match n with
  | 0 => EmptyString
  | S n => String c (repeat_char c n)
  end.

(** [s.padStart(n, c)] *)
Definition padStart (n : nat) (c : ascii) (s : string) : string :=
  repeat_char c (n - String.length s) ++ s.

(** [s.toLowerCase()], on the letters A to Z *)
Definition lower (c : ascii) : ascii :=
  let n := nat_of_ascii c in
  if (65 <=? n)%nat && (n <=? 90)%nat then ascii_of_nat (n + 32) else c.

Fixpoint toLowerCase (s : string) : string :=
  match s with
  | EmptyString => EmptyString
  | String c s' => String (lower c) (toLowerCase s')
  end.

(** What the getters of a [Date] return. *)
Record date := {
  getFullYear : nat;
  getMonth : nat;
  getDate : nat;
  getHours : nat;
  getMinutes : nat;
  getSeconds : nat
}.

End Text.

(** ** The syslog sender ([vingester-syslog.js]) *)

Module Syslog.

Import Text.

Definition SEVERITY : list (string * nat) :=
  [("emerg", 0); ("alert", 1); ("crit", 2); ("error", 3); ("warn", 4);
   ("notice", 5); ("info", 6); ("debug", 7)].

Definition FACILITY_LOCAL0 : nat := 16.

Definition MONTHS : list string :=
  ["Jan"; "Feb"; "Mar"; "Apr"; "May"; "Jun"; "Jul"; "Aug"; "Sep"; "Oct";
   "Nov"; "Dec"].

(** [rfc3164Timestamp(d)] *)
Definition rfc3164Timestamp (d : date) : string :=
  let mo := default "undefined" (MONTHS !! getMonth d) in
  let day := padStart 2 " " (String_nat (getDate d)) in
  let hh := padStart 2 "0" (String_nat (getHours d)) in
  let mm := padStart 2 "0" (String_nat (getMinutes d)) in
  let ss := padStart 2 "0" (String_nat (getSeconds d)) in
  mo ++ " " ++ day ++ " " ++ hh ++ ":" ++ mm ++ ":" ++ ss.

(** [s.split(".")[0]] *)
Fixpoint before_dot (s : string) : string :=
  match s with
  | EmptyString => EmptyString
  | String c s' => if Ascii.eqb c "."%char then EmptyString
                   else String c (before_dot s')
  end.

(** The builtins the sender calls on the values it is configured with:
    [String.prototype.trim] and [parseInt(_, 10)] after the conversion
    of its argument to a string. *)
Class Builtins `{JSNumber} := {
  trim : string → string;
  parseInt : string → num
}.

Section Sender.
Context `{Builtins}.

Record sender := {
  enabled : bool;
  ip : string;
  port : num;
  hostname : string
}.

(** [new SyslogSender()], [os_hostname] being what [os.hostname()]
    returns. *)
Definition new_sender (os_hostname : string) : sender :=
  {| enabled := false; ip := EmptyString; port := num_of_Z 514;
     hostname := String.substring 0 15 (before_dot os_hostname) |}.

(** How a call ends: it returns, or it throws the [TypeError] of the
    call of [trim] on a value that has no such method. *)
Inductive completion := Returned | TypeError.

(** [configure({ enabled, ip, port })]: the three assignments in turn.
    [ip.trim()] is evaluated where [enabled] and [ip] are truthy, and
    [(ip || "").trim()] always. *)
Definition configure (enabled_ ip_ port_ : value) (s : sender)
  : sender * completion :=
  let test : option bool :=
    if negb (ToBoolean enabled_) then Some false
    else if negb (ToBoolean ip_) then Some false
    else match ip_ with
         | VStr a => Some (negb (String.eqb (trim a) EmptyString))
         | _ => None
         end in
  match test with
  | None => (s, TypeError)
  | Some e =>
    let s := {| enabled := e; ip := ip s; port := port s;
                hostname := hostname s |} in
    match (if ToBoolean ip_ then ip_ else VStr EmptyString) with
    | VStr a =>
      let s := {| enabled := enabled s; ip := trim a; port := port s;
                  hostname := hostname s |} in
      let p := parseInt (ToString port_) in
      ({| enabled := enabled s; ip := ip s;
          port := if num_truthy p then p else num_of_Z 514;
          hostname := hostname s |}, Returned)
    | _ => (s, TypeError)
    end
  end.

(** What [sock.send] is given. *)
Record datagram := {
  raw : string;
  to_port : num;
  to_ip : string
}.

(** [SEVERITY[level] ?? SEVERITY.info] *)
Definition severity_of (level : string) : nat :=
  default 6 (snd <$> List.find (λ e, String.eqb (fst e) level) SEVERITY).

(** [send(level, tag, message)] at the time [now]: the datagram, if one
    is sent.  Errors of the socket are ignored by the source. *)
Definition send (s : sender) (now : date) (level tag message : string)
  : option datagram :=
  if negb (enabled s) || String.eqb (ip s) EmptyString then None
  else
    let severity := severity_of level in
    let pri := FACILITY_LOCAL0 * 8 + severity in
    let ts := rfc3164Timestamp now in
    Some {| raw := "<" ++ String_nat pri ++ ">" ++ ts ++ " " ++ hostname s
                   ++ " WebRetriever[" ++ tag ++ "]: " ++ message;
            to_port := port s; to_ip := ip s |}.

Definition info (s : sender) (now : date) (tag msg : string) :=
  send s now "info" tag msg.
Definition notice (s : sender) (now : date) (tag msg : string) :=
  send s now "notice" tag msg.
Definition warn (s : sender) (now : date) (tag msg : string) :=
  send s now "warn" tag msg.
Definition error (s : sender) (now : date) (tag msg : string) :=
  send s now "error" tag msg.

End Sender.

End Syslog.

(** ** Uploads to the media library *)

Module Upload.

Import Text Media.

(** *** [path.extname] of Node, POSIX flavour *)

(** The variables of the loop of [extname]; [-1] is [None], and
    [stopped] holds after the [break]. *)
Record scan := Scan {
  startDot : option nat;
  startPart : nat;
  end_ : option nat;
  matchedSlash : bool;
  preDotState : Z;
  stopped : bool
}.

(** The body of the loop for the character [code] at the index [i]. *)
Definition extname_step (s : scan) (at_ : nat * ascii) : scan :=
  let '(i, code) := at_ in
  if stopped s then s
  else if Ascii.eqb code "/" then
    if negb (matchedSlash s)
    then Scan (startDot s) (i + 1) (end_ s) (matchedSlash s) (preDotState s) true
    else s
  else
    let s :=
      match end_ s with
      | None => Scan (startDot s) (startPart s) (Some (i + 1)) false
                  (preDotState s) false
      | Some _ => s
      end in
    if Ascii.eqb code "." then
      match startDot s with
      | None => Scan (Some i) (startPart s) (end_ s) (matchedSlash s)
                  (preDotState s) false
      | Some _ =>
        if negb (preDotState s =? 1)%Z
        then Scan (startDot s) (startPart s) (end_ s) (matchedSlash s) 1 false
        else s
      end
    else
      match startDot s with
      | Some _ => Scan (startDot s) (startPart s) (end_ s) (matchedSlash s)
                    (-1) false
      | None => s
      end.

(** The characters of [p] with their indices, last first. *)
Definition backwards (p : string) : list (nat * ascii) :=
  reverse (imap pair (String.list_ascii_of_string p)).

Definition extname (p : string) : string :=
  let s := foldl extname_step (Scan None 0 None true 0 false) (backwards p) in
  match startDot s, end_ s with
  | Some startDot, Some end_ =>
    if (preDotState s =? 0)%Z
       || ((preDotState s =? 1)%Z && (startDot =? end_ - 1)%nat
           && (startDot =? startPart s + 1)%nat)
    then EmptyString
    else String.substring startDot (end_ - startDot) p
  | _, _ => EmptyString
  end.

(** *** The handler of [POST /api/media/upload] *)

(** [req.file], as the upload middleware leaves it. *)
Record file := {
  originalname : string;
  path : string;
  size : nat
}.

Definition allowedExts : list string :=
  [".png"; ".jpg"; ".jpeg"; ".gif"; ".webp"; ".bmp"; ".svg";
   ".mp4"; ".webm"; ".ogg"; ".mov"].

Definition pad (n : nat) : string := padStart 2 "0" (String_nat n).

Definition stamp (now : date) : string :=
  String_nat (getFullYear now) ++ pad (getMonth now + 1) ++ pad (getDate now)
  ++ "_" ++ pad (getHours now) ++ pad (getMinutes now) ++ pad (getSeconds now).

(** [safeName] while [counter] has the given value. *)
Definition safeName_at (base ext : string) (counter : nat) : string :=
  match counter with
  | 0 => base ++ ext
  | _ => base ++ "_" ++ String_nat counter ++ ext
  end.

(** The loop that looks for a free name, from [counter] on: the counter
    it stops at, if it stops within [fuel] rounds.
    [fs.promises.access(p, F_OK)] succeeds when [p] exists. *)
Fixpoint free_slot (fuel : nat) (fs : gmap string node)
  (mediaDir base ext : string) (counter : nat) : option nat :=
  match fuel with
  | 0 => None
  | S fuel =>
    if decide (is_Some (fs !! join mediaDir (safeName_at base ext counter)))
    then free_slot fuel fs mediaDir base ext (S counter)
    else Some counter
  end.

(** [fs.promises.unlink(p).catch(() => {})] *)
Definition unlink_quietly (p : string) (fs : gmap string node)
  : gmap string node :=
  match fs !! p with
  | Some (File _) => delete p fs
  | _ => fs
  end.

Inductive body :=
| ErrorBody (error : string)
| RenameError
| OkBody (name url : string).

(** What a request leaves: the files, the status and the body of the
    answer, and the line for syslog, if any. *)
Record outcome := Outcome {
  files : gmap string node;
  status : nat;
  sent : body;
  logged : option (string * string)
}.

Definition quoted (s : string) : string :=
  String "034"%char EmptyString ++ s ++ String "034"%char EmptyString.

(** The handler, [pkg_name] being [pkg.name] and [now] what [new Date()]
    gives.  A [rename] that throws, as it does when the source is not
    there, is answered by the error handler of the application.  The
    result is [None] when the loop is not through within [fuel]
    rounds. *)
Definition media_upload (fuel : nat) (pkg_name mediaDir : string) (now : date)
  (fs : gmap string node) (req_file : option file) : option outcome :=
  match req_file with
  | None => Some (Outcome fs 400 (ErrorBody "no file in upload") None)
  | Some f =>
    let ext := toLowerCase (extname (originalname f)) in
    if negb (bool_decide (ext ∈ allowedExts)) then
      Some (Outcome (unlink_quietly (path f) fs) 415
              (ErrorBody ("File type '" ++ ext
                          ++ "' not allowed. Allowed: images and videos only."))
              None)
    else
      let base := pkg_name ++ "_" ++ stamp now in
      match free_slot fuel fs mediaDir base ext 0 with
      | None => None
      | Some counter =>
        let safeName := safeName_at base ext counter in
        let destPath := join mediaDir safeName in
        match fs !! path f with
        | None => Some (Outcome fs 500 RenameError None)
        | Some node =>
          let sizeKB :=
            Telemetry.Math_round (Z.of_nat (size f) # 1024) in
          Some (Outcome (<[destPath := node]> (delete (path f) fs)) 200
                  (OkBody safeName ("/media/" ++ safeName))
                  (Some ("media",
                         "uploaded: " ++ quoted safeName ++ " ("
                         ++ Telemetry.string_of_Z sizeKB
                         ++ " KB, original: " ++ originalname f ++ ")")))
        end
      end
  end.

End Upload.

(** ** The service installer ([install-service.js]): its options *)

Module Installer.

(** The loop over [args] from index 1 on: [rest] is what is left of
    [args] from the index [i]; [args[i + 1]] is truthy when it is there
    and not the empty string. *)
Fixpoint options (rest : list string) (svcName extraArgs : string)
  : string * string :=
  match rest with
  | [] => (svcName, extraArgs)
  | arg :: rest' =>
    match rest' with
    | next :: rest'' =>
      if String.eqb arg "--name" && negb (String.eqb next EmptyString)
      then options rest'' next extraArgs
      else if String.eqb arg "--args" && negb (String.eqb next EmptyString)
      then options rest'' svcName next
      else options rest' svcName extraArgs
    | [] => (svcName, extraArgs)
    end
  end.

(** [svcName] and [extraArgs] after the loop, for [process.argv.slice(2)]
    being [args]. *)
Definition parse (args : list string) : string * string :=
  options (tail args) "Vingester" "--autostart".

End Installer.

(** ** Auto-start after the control window was mounted *)

Module Startup.

Section Startup.
Context `{Main.Runtime}.
Import Main.

(** The test of the per-instance loop. *)
Definition wanted (b : Browser) : bool :=
  ToBoolean (get (cfg b) "as") && negb (running b) && valid b.

(** The two timer callbacks of the handler of [control-mounted].  With
    the flag [--autostart] the bulk action ["start-all"] is called.
    Without it every instance that passes the test is started, a
    rejection being caught (and logged).  As in [bulk], each call runs
    to its end before the next.  What the handler does to the control
    window is not modelled. *)
Definition auto_start (autostart : bool) : M unit :=
  if autostart then controlBrowser "start-all" EmptyString ∅
  else
    ids ← read browser_ids;
    bulk wanted
      (λ id, try_catch (controlBrowser "start" id ∅) (λ err, mret tt)) ids.

End Startup.

End Startup.

(** * Properties *)

(** ** The sanitizer *)

Section SanitizeFacts.
Context `{JSNumber}.
Import Config.

Implicit Types (b c : gmap string value) (k : string) (n : nat).

Definition inames : list string := iname <$> fields.

Lemma inames_NoDup : NoDup inames.
Proof. apply (bool_decide_unpack _). vm_compute. reflexivity. Qed.

Lemma id_not_iname : "id" ∉ inames.
Proof. apply (bool_decide_unpack _). vm_compute. reflexivity. Qed.

Lemma defs_defined : Forall (λ f, def f ≠ VUndefined) fields.
Proof. unfold fields. repeat (constructor; [discriminate|]). constructor. Qed.

Lemma find_field_Some k : k ∈ inames → is_Some (find_field k).
Proof.
  unfold inames, find_field. generalize fields. intros l Hk.
  induction l as [|f l IH]; simpl in *.
  - by apply elem_of_nil in Hk.
  - destruct (String.eqb_spec (iname f) k) as [Heq|Hne]; [by eexists|].
    apply IH. apply elem_of_cons in Hk as [Hk|Hk]; [congruence|done].
Qed.

Lemma find_field_None k : k ∉ inames → find_field k = None.
Proof.
  unfold inames, find_field. generalize fields. intros l Hk.
  induction l as [|f l IH]; simpl in *; [done|].
  destruct (String.eqb_spec (iname f) k) as [Heq|Hne].
  - exfalso. apply Hk. rewrite <- Heq. left.
  - apply IH. intros Hin. apply Hk. by right.
Qed.

(** *** The defaulting loop *)

Lemma fill_default_other b n f k :
  k ≠ iname f → (fill_default (b, n) f).1 !! k = b !! k.
Proof.
  intros Hne. unfold fill_default. case_decide; simpl; [|done].
  by rewrite lookup_insert_ne.
Qed.

Lemma fill_default_keeps b n f k :
  get b k ≠ VUndefined → (fill_default (b, n) f).1 !! k = b !! k.
Proof.
  intros Hdef. unfold fill_default. case_decide as Hu; simpl; [|done].
  rewrite lookup_insert_ne; [done|]. congruence.
Qed.

Lemma fill_loop_keeps fs b n k :
  get b k ≠ VUndefined → (foldl fill_default (b, n) fs).1 !! k = b !! k.
Proof.
  revert b n. induction fs as [|f fs IH]; intros b n Hdef; cbn [foldl]; [done|].
  pose proof (fill_default_keeps b n f k Hdef) as Hstep.
  destruct (fill_default (b, n) f) as [b' n'] eqn:E. simpl in Hstep.
  rewrite IH; [done|]. unfold get in *. by rewrite Hstep.
Qed.

Lemma fill_loop_other fs b n k :
  k ∉ iname <$> fs → (foldl fill_default (b, n) fs).1 !! k = b !! k.
Proof.
  revert b n. induction fs as [|f fs IH]; intros b n Hk; cbn [foldl]; [done|].
  rewrite fmap_cons, not_elem_of_cons in Hk. destruct Hk as [Hne Hk].
  pose proof (fill_default_other b n f k Hne) as Hstep.
  destruct (fill_default (b, n) f) as [b' n'] eqn:E. simpl in Hstep.
  by rewrite IH.
Qed.

Lemma fill_loop_missing fs b n f :
  Forall (λ f, def f ≠ VUndefined) fs → NoDup (iname <$> fs) →
  f ∈ fs → get b (iname f) = VUndefined →
  (foldl fill_default (b, n) fs).1 !! iname f = Some (def f).
Proof.
  revert b n. induction fs as [|g fs IH]; intros b n Hdefs Hnd Hin Hmiss; cbn [foldl].
  - by apply elem_of_nil in Hin.
  - rewrite fmap_cons in Hnd. apply NoDup_cons in Hnd as [Hg Hnd].
    apply Forall_cons in Hdefs as [Hdg Hdefs].
    apply elem_of_cons in Hin as [->|Hin].
    + unfold fill_default at 2. rewrite decide_True by done.
      rewrite fill_loop_other by done. apply lookup_insert_eq.
    + assert (iname f ≠ iname g) as Hne.
      { intros Heq. apply Hg. rewrite <- Heq. by apply list_elem_of_fmap_2. }
      pose proof (fill_default_other b n g (iname f) Hne) as Hstep.
      destruct (fill_default (b, n) g) as [b' n'] eqn:E. simpl in Hstep.
      apply IH; try done. unfold get in *. by rewrite Hstep.
Qed.

Lemma fill_loop_defined fs b n f :
  Forall (λ f, def f ≠ VUndefined) fs →
  f ∈ fs → get (foldl fill_default (b, n) fs).1 (iname f) ≠ VUndefined.
Proof.
  revert b n. induction fs as [|g fs IH]; intros b n Hdefs Hin; cbn [foldl].
  - by apply elem_of_nil in Hin.
  - apply Forall_cons in Hdefs as [Hdg Hdefs].
    apply elem_of_cons in Hin as [->|Hin].
    + assert (get (fill_default (b, n) g).1 (iname g) ≠ VUndefined) as Hg.
      { unfold fill_default. case_decide; simpl; [|done].
        unfold get. by rewrite lookup_insert_eq. }
      destruct (fill_default (b, n) g) as [b' n'] eqn:E. simpl in Hg.
      unfold get. rewrite fill_loop_keeps by done. exact Hg.
    + destruct (fill_default (b, n) g) as [b' n'] eqn:E. by apply IH.
Qed.

Lemma fill_loop_noop fs b n :
  (∀ f, f ∈ fs → get b (iname f) ≠ VUndefined) →
  foldl fill_default (b, n) fs = (b, n).
Proof.
  induction fs as [|f fs IH]; intros Hall; cbn [foldl]; [done|].
  unfold fill_default at 2. rewrite decide_False by (apply Hall; left).
  apply IH. intros g Hg. apply Hall. by right.
Qed.

(** *** The pruning loop *)

Lemma elem_of_keys b k : k ∈ keys b ↔ is_Some (b !! k).
Proof.
  unfold keys. rewrite list_elem_of_fmap. split.
  - intros [[k' v] [-> Hin]]. apply elem_of_map_to_list in Hin. by eexists.
  - intros [v Hv]. exists (k, v). split; [done|]. by apply elem_of_map_to_list.
Qed.

Definition kept (k : string) : Prop := k = "id" ∨ k ∈ inames.

#[local] Instance kept_dec k : Decision (kept k).
Proof. unfold kept. apply _. Defined.

Lemma prune_attr_kept b n a : kept a → prune_attr (b, n) a = (b, n).
Proof.
  intros [->|Hin]; unfold prune_attr; [done|].
  destruct (String.eqb a "id"); [done|].
  by destruct (find_field_Some a Hin) as [f ->].
Qed.

Lemma prune_attr_dropped b n a :
  ¬ kept a → prune_attr (b, n) a = (delete a b, S n).
Proof.
  intros Hk. unfold prune_attr.
  destruct (String.eqb_spec a "id") as [->|_]; [exfalso; apply Hk; by left|].
  rewrite find_field_None; [done|]. intros Hin. apply Hk. by right.
Qed.

Lemma prune_loop_lookup ks b n k :
  (foldl prune_attr (b, n) ks).1 !! k =
  if decide (k ∈ ks ∧ ¬ kept k) then None else b !! k.
Proof.
  revert b n. induction ks as [|a ks IH]; intros b n; cbn [foldl].
  - rewrite decide_False; [done|]. intros [Hin _]. by apply elem_of_nil in Hin.
  - destruct (decide (kept a)) as [Ha|Ha].
    + rewrite prune_attr_kept by done. rewrite IH.
      apply decide_ext. rewrite elem_of_cons. intuition congruence.
    + rewrite prune_attr_dropped by done. rewrite IH.
      destruct (decide (k = a)) as [->|Hne].
      * rewrite lookup_delete_eq. rewrite (decide_True (P := a ∈ a :: ks ∧ _)).
        2:{ split; [left|done]. }
        by case_decide.
      * rewrite lookup_delete_ne by done.
        apply decide_ext. rewrite elem_of_cons. intuition congruence.
Qed.

Lemma prune_loop_noop ks b n :
  (∀ k, k ∈ ks → kept k) → foldl prune_attr (b, n) ks = (b, n).
Proof.
  induction ks as [|a ks IH]; intros Hall; cbn [foldl]; [done|].
  rewrite prune_attr_kept by (apply Hall; left).
  apply IH. intros k Hk. apply Hall. by right.
Qed.

(** *** The whole sanitizer *)

(** The record after the migration of the removed input type. *)
Definition migrated c : gmap string value * nat :=
  if decide (get c "it" = VStr "video")
  then (<["it" := VStr "url"]> c, 1) else (c, 0).

Definition filled c : gmap string value * nat :=
  foldl fill_default (migrated c) fields.

Lemma sanitizeConfig_unfold c :
  sanitizeConfig c = foldl prune_attr (filled c) (keys (filled c).1).
Proof. reflexivity. Qed.

Lemma sanitize_lookup c k :
  (sanitizeConfig c).1 !! k =
  if decide (kept k) then (filled c).1 !! k else None.
Proof.
  rewrite sanitizeConfig_unfold. destruct (filled c) as [b n] eqn:E.
  rewrite prune_loop_lookup. cbn [fst].
  destruct (decide (kept k)) as [Hk|Hk].
  - rewrite decide_False; [done|]. intros [_ Hn]. done.
  - case_decide as Hin; [done|].
    destruct (b !! k) as [v|] eqn:Hb; [|done].
    exfalso. apply Hin. split; [|done]. apply elem_of_keys. by eexists.
Qed.

Lemma migrated_other c k : k ≠ "it" → (migrated c).1 !! k = c !! k.
Proof.
  intros Hne. unfold migrated. case_decide; cbn [fst]; [|done].
  by rewrite lookup_insert_ne.
Qed.

Lemma migrated_it c : get (migrated c).1 "it" ≠ VStr "video".
Proof.
  unfold migrated. case_decide as Hv; cbn [fst]; [|done].
  unfold get. by rewrite lookup_insert_eq.
Qed.

Lemma migrated_missing c k :
  get c k = VUndefined → get (migrated c).1 k = VUndefined.
Proof.
  intros Hk. unfold migrated. case_decide as Hv; cbn [fst]; [|done].
  destruct (decide (k = "it")) as [->|Hne]; [congruence|].
  unfold get in *. by rewrite lookup_insert_ne.
Qed.

Lemma it_field : Field "it" TString (VStr "url") TString "InputType" ∈ fields.
Proof. unfold fields. do 13 right. left. Qed.

Lemma filled_defined c f :
  f ∈ fields → get (filled c).1 (iname f) ≠ VUndefined.
Proof.
  intros Hf. unfold filled. destruct (migrated c) as [b n].
  apply fill_loop_defined; [apply defs_defined|done].
Qed.

Lemma filled_it c : get (filled c).1 "it" ≠ VStr "video".
Proof.
  pose proof (migrated_it c) as Hm. unfold filled.
  destruct (migrated c) as [b n] eqn:E. cbn [fst] in Hm.
  destruct (decide (get b "it" = VUndefined)) as [Hu|Hd].
  - pose proof (fill_loop_missing fields b n _ defs_defined inames_NoDup
                  it_field Hu) as Hx.
    cbn [iname def] in Hx. unfold get. by rewrite Hx.
  - unfold get at 1. rewrite fill_loop_keeps by done. exact Hm.
Qed.

Lemma sanitize_field c f :
  f ∈ fields → (sanitizeConfig c).1 !! iname f = (filled c).1 !! iname f.
Proof.
  intros Hf. rewrite sanitize_lookup. rewrite decide_True; [done|].
  right. by apply list_elem_of_fmap_2.
Qed.

Lemma sanitize_defined c f :
  f ∈ fields → get (sanitizeConfig c).1 (iname f) ≠ VUndefined.
Proof.
  intros Hf. unfold get. rewrite sanitize_field by done. by apply filled_defined.
Qed.

Lemma sanitize_missing c f :
  f ∈ fields → get c (iname f) = VUndefined →
  (sanitizeConfig c).1 !! iname f = Some (def f).
Proof.
  intros Hf Hmiss. rewrite sanitize_field by done.
  apply migrated_missing in Hmiss. unfold filled.
  destruct (migrated c) as [b n]. cbn [fst] in Hmiss.
  by apply fill_loop_missing; [apply defs_defined|apply inames_NoDup| |].
Qed.

Lemma sanitize_id c : (sanitizeConfig c).1 !! "id" = c !! "id".
Proof.
  rewrite sanitize_lookup. rewrite decide_True by (by left).
  pose proof (migrated_other c "id") as Hm. unfold filled.
  destruct (migrated c) as [b n]. cbn [fst] in Hm.
  rewrite fill_loop_other by apply id_not_iname. by apply Hm.
Qed.

Lemma sanitize_extra c k : ¬ kept k → (sanitizeConfig c).1 !! k = None.
Proof. intros Hk. rewrite sanitize_lookup. by rewrite decide_False. Qed.

(** A record that is already in the shape of the schema is returned
    as it is, with no change counted. *)
Lemma sanitize_fixpoint c :
  get c "it" ≠ VStr "video" →
  (∀ f, f ∈ fields → get c (iname f) ≠ VUndefined) →
  (∀ k, is_Some (c !! k) → kept k) →
  sanitizeConfig c = (c, 0).
Proof.
  intros Hit Hdef Hkeys. rewrite sanitizeConfig_unfold.
  unfold filled, migrated. rewrite decide_False by done.
  rewrite fill_loop_noop by done. cbn [fst].
  apply prune_loop_noop. intros k Hk. apply Hkeys. by apply elem_of_keys.
Qed.

Lemma sanitize_keys_kept c k :
  is_Some ((sanitizeConfig c).1 !! k) → kept k.
Proof.
  intros Hk. destruct (decide (kept k)) as [|Hn]; [done|].
  rewrite sanitize_extra in Hk by done. by destruct Hk.
Qed.

Lemma sanitize_it c : get (sanitizeConfig c).1 "it" ≠ VStr "video".
Proof.
  pose proof (sanitize_field c _ it_field) as Hx. cbn [iname] in Hx.
  unfold get. rewrite Hx. apply filled_it.
Qed.

Lemma sanitize_sanitize c :
  sanitizeConfig (sanitizeConfig c).1 = ((sanitizeConfig c).1, 0).
Proof.
  apply sanitize_fixpoint.
  - apply sanitize_it.
  - intros f Hf. by apply sanitize_defined.
  - apply sanitize_keys_kept.
Qed.

Lemma sanitize_dom c :
  dom (sanitizeConfig c).1 = list_to_set inames ∪ (dom c ∩ {["id"]}).
Proof.
  apply set_eq. intros k.
  rewrite elem_of_union, elem_of_intersection, elem_of_singleton.
  rewrite !elem_of_dom, elem_of_list_to_set. split.
  - intros Hk. pose proof (sanitize_keys_kept c k Hk) as [->|Hin]; [|by left].
    right. split; [|done]. by rewrite sanitize_id in Hk.
  - intros [Hin|[Hk ->]].
    + apply list_elem_of_fmap in Hin as [f [-> Hf]].
      pose proof (sanitize_defined c f Hf) as Hd. unfold get in Hd.
      destruct ((sanitizeConfig c).1 !! iname f); [by eexists|done].
    + by rewrite sanitize_id.
Qed.

End SanitizeFacts.

(** C1.  For every record [c]: sanitizing the sanitized record again
    reports zero changes and returns it as it is; the keys of the
    sanitized record are exactly the internal names of the schema, plus
    [id] when [c] has it; a field that [c] lacks holds its default, and
    a key that is neither [id] nor a schema name is gone. *)
Theorem sanitize_idempotent_schema_keys `{JSNumber} (c : gmap string value) :
  let c' := (Config.sanitizeConfig c).1 in
  (Config.sanitizeConfig c').2 = 0
  ∧ (Config.sanitizeConfig c').1 = c'
  ∧ dom c' = list_to_set (Config.iname <$> Config.fields) ∪ (dom c ∩ {["id"]})
  ∧ (∀ f, f ∈ Config.fields → get c (Config.iname f) = VUndefined →
          c' !! Config.iname f = Some (Config.def f))
  ∧ (∀ k, k ≠ "id" → k ∉ Config.iname <$> Config.fields → c' !! k = None).
Proof.
  intros c'. subst c'. rewrite sanitize_sanitize. cbn [fst snd].
  split; [done|]. split; [done|]. split; [apply sanitize_dom|].
  split; [apply sanitize_missing|].
  intros k Hid Hk. apply sanitize_extra. unfold kept, inames. tauto.
Qed.

(** ** The CPU alert *)

Section TelemetryFacts.
Import Telemetry.

Implicit Types (avg : Q) (count : nat).

Lemma on_average_low avg count :
  high avg = false → on_average avg count = (0, [Usage avg]).
Proof. unfold high, on_average. by intros ->. Qed.

Lemma on_average_high avg count :
  high avg = true →
  (on_average avg count).1 = S count
  ∧ alerts (on_average avg count).2 = (if Nat.eqb (S count) 3 then 1 else 0).
Proof.
  unfold high, on_average. intros ->. cbn [fst snd]. split; [done|].
  by destruct (Nat.eqb (S count) 3).
Qed.

Lemma alerts_app (o1 o2 : list output) :
  alerts (o1 ++ o2) = alerts o1 + alerts o2.
Proof. unfold alerts. by rewrite List.filter_app, length_app. Qed.

Lemma feed_cons avg avgs count :
  feed (avg :: avgs) count =
  ((feed avgs (on_average avg count).1).1,
   ((on_average avg count).2 ++ (feed avgs (on_average avg count).1).2)%list).
Proof.
  cbn [feed]. destruct (on_average avg count) as [c o]. cbn [fst snd].
  by destruct (feed avgs c).
Qed.

Lemma feed_app (xs ys : list Q) count :
  feed (xs ++ ys) count =
  ((feed ys (feed xs count).1).1,
   ((feed xs count).2 ++ (feed ys (feed xs count).1).2)%list).
Proof.
  revert count. induction xs as [|x xs IH]; intros count.
  - cbn [app feed fst snd]. by destruct (feed ys count).
  - rewrite <- app_comm_cons, !feed_cons, IH. cbn [fst snd].
    by rewrite app_assoc.
Qed.

(** A run of averages at or above the threshold, entered with the
    counter at [count]. *)
Lemma feed_high_run (hs : list Q) count :
  forallb high hs = true →
  (feed hs count).1 = count + length hs
  ∧ alerts (feed hs count).2 =
      (if ((count <? 3) && (3 <=? count + length hs))%nat then 1 else 0).
Proof.
  revert count. induction hs as [|h hs IH]; intros count Hall.
  - cbn [feed fst snd length]. split; [lia|].
    destruct (Nat.ltb_spec count 3), (Nat.leb_spec 3 (count + 0)); cbn; lia.
  - cbn [forallb] in Hall. apply andb_true_iff in Hall as [Hh Hall].
    destruct (on_average_high h count Hh) as [Hc Ha].
    destruct (IH (S count) Hall) as [IH1 IH2].
    rewrite feed_cons. cbn [fst snd]. rewrite Hc, alerts_app, Ha, IH1, IH2.
    cbn [length]. split; [lia|].
    destruct (Nat.eqb_spec (S count) 3),
      (Nat.ltb_spec (S count) 3), (Nat.leb_spec 3 (S count + length hs)),
      (Nat.ltb_spec count 3), (Nat.leb_spec 3 (count + S (length hs)));
      cbn; lia.
Qed.

Lemma feed_low_last (pre : list Q) (l : Q) count :
  high l = false →
  (feed (pre ++ [l]) count).1 = 0
  ∧ alerts (feed (pre ++ [l]) count).2 = alerts (feed pre count).2.
Proof.
  intros Hl. rewrite feed_app. cbn [fst snd]. rewrite feed_cons.
  rewrite on_average_low by done. cbn [feed fst snd].
  split; [done|]. rewrite alerts_app. cbn. lia.
Qed.

End TelemetryFacts.

(** C9.  After any history that ends with an average below the
    threshold the counter is zero; a run [hs] of averages at or above the
    threshold that starts there, or at the initial counter, emits exactly
    one alert if it has three or more averages and none otherwise; and if
    an average below the threshold comes before the third, the run ends
    with no alert and the counter back at zero. *)
Theorem cpu_alert_edge_triggered (pre hs : list Q) (l l' : Q) (count : nat) :
  Telemetry.high l = false →
  forallb Telemetry.high hs = true →
  Telemetry.high l' = false →
  (Telemetry.feed (pre ++ [l]) count).1 = 0
  ∧ Telemetry.alerts (Telemetry.feed (pre ++ [l] ++ hs) count).2 =
      Telemetry.alerts (Telemetry.feed (pre ++ [l]) count).2
      + (if (3 <=? length hs)%nat then 1 else 0)
  ∧ Telemetry.alerts (Telemetry.feed hs 0).2 = (if (3 <=? length hs)%nat then 1 else 0)
  ∧ (length hs < 3 →
     Telemetry.alerts (Telemetry.feed (hs ++ [l']) 0).2 = 0
     ∧ (Telemetry.feed (hs ++ [l']) 0).1 = 0).
Proof.
  intros Hl Hhs Hl'.
  destruct (feed_low_last pre l count Hl) as [Hc _].
  destruct (feed_high_run hs 0 Hhs) as [_ Hrun].
  change (0 + length hs) with (length hs) in Hrun.
  change ((0 <? 3)%nat && (3 <=? length hs)%nat) with (3 <=? length hs)%nat in Hrun.
  split; [done|]. split; [|split; [done|]].
  - rewrite app_assoc, feed_app. cbn [snd].
    rewrite alerts_app, Hc, Hrun. done.
  - intros Hlen. destruct (feed_low_last hs l' 0 Hl') as [Hc' Ha'].
    rewrite Ha', Hrun, Hc'. split; [|done].
    destruct (Nat.leb_spec 3 (length hs)); [lia|done].
Qed.

Lemma cpu_alert_edge_triggered_witness :
  (Telemetry.feed ([] ++ [10 # 1]) 5).1 = 0
  ∧ Telemetry.alerts
      (Telemetry.feed ([] ++ [10 # 1] ++ [85 # 1; 90 # 1; 95 # 1; 99 # 1]) 5).2 =
      Telemetry.alerts (Telemetry.feed ([] ++ [10 # 1]) 5).2
      + (if (3 <=? length [85 # 1; 90 # 1; 95 # 1; 99 # 1])%nat then 1 else 0)
  ∧ Telemetry.alerts (Telemetry.feed [85 # 1; 90 # 1; 95 # 1; 99 # 1] 0).2 =
      (if (3 <=? length [85 # 1; 90 # 1; 95 # 1; 99 # 1])%nat then 1 else 0)
  ∧ (length [85 # 1; 90 # 1; 95 # 1; 99 # 1] < 3 →
     Telemetry.alerts
       (Telemetry.feed ([85 # 1; 90 # 1; 95 # 1; 99 # 1] ++ [79 # 1]) 0).2 = 0
     ∧ (Telemetry.feed ([85 # 1; 90 # 1; 95 # 1; 99 # 1] ++ [79 # 1]) 0).1 = 0).
Proof.
  apply (cpu_alert_edge_triggered [] [85 # 1; 90 # 1; 95 # 1; 99 # 1]
           (10 # 1) (79 # 1) 5); reflexivity.
Defined.

(** ** The registry operations *)

Section MonadFacts.
Context `{Main.Runtime}.
Import Main.

Implicit Types (id : string) (c : gmap string value) (st : App) (b : Browser).

Lemma bind_run {A B} (m : M A) (f : A → M B) st :
  (m ≫= f) st =
  match m st with
  | (Ok a, st') => f a st'
  | (Throw e, st') => (Throw e, st')
  end.
Proof. reflexivity. Qed.

Lemma ret_run {A} (a : A) st : mret (M := M) a st = (Ok a, st).
Proof. reflexivity. Qed.

Lemma run_Ok {A} (m : M A) st a : (m st).1 = Ok a → m st = (Ok a, (m st).2).
Proof. destruct (m st) as [o st']. cbn. by intros ->. Qed.

(** The state after one more event. *)
Definition with_effect (e : event) st : App :=
  {| browsers := browsers st; store_browsers := store_browsers st;
     settings := settings st; configVersion := configVersion st;
     files := files st; uuids := uuids st; timer := timer st;
     autosaveTimer := autosaveTimer st; autosaveFile := autosaveFile st;
     configFile := configFile st; api := api st; webui := webui st;
     control_destroyed := control_destroyed st;
     effects := effects st ++ [e] |}.

Lemma emit_run e st : emit e st = (Ok tt, with_effect e st).
Proof. reflexivity. Qed.

Lemma put_run id b st :
  put_browser id b st = (Ok tt, set_browsers (<[id := b]> (browsers st)) st).
Proof. reflexivity. Qed.

Lemma remove_run id st :
  remove_browser id st = (Ok tt, set_browsers (delete id (browsers st)) st).
Proof. reflexivity. Qed.

Lemma lookup_run id st : lookup_browser id st = (Ok (browsers st !! id), st).
Proof. reflexivity. Qed.

Lemma read_run {A} (f : App → A) st : read f st = (Ok (f st), st).
Proof. reflexivity. Qed.

Lemma update_run (f : App → App) st : update f st = (Ok tt, f st).
Proof. reflexivity. Qed.

End MonadFacts.

(** Runs the first steps of a computation by rewriting with the
    equations of the monad and of the primitive operations. *)
Ltac mrun :=
  repeat (first
    [ rewrite bind_run | rewrite ret_run | rewrite emit_run | rewrite put_run
    | rewrite remove_run | rewrite lookup_run | rewrite read_run
    | rewrite update_run ];
    cbv beta iota).

Section ControlFacts.
Context `{Main.Runtime}.
Import Main.

Implicit Types (id : string) (c : gmap string value) (st : App) (b : Browser).

Lemma start_unknown id st :
  browsers st !! id = None → control_start id st = (Throw UnknownInstance, st).
Proof.
  intros Hid. unfold control_start, lookup_browser, read, mbind, M_bind.
  by rewrite Hid.
Qed.

Lemma start_running id st b :
  browsers st !! id = Some b → running b = true →
  control_start id st = (Throw AlreadyRunning, st).
Proof.
  intros Hid Hrun. unfold control_start, lookup_browser, read, mbind, M_bind.
  by rewrite Hid, Hrun.
Qed.

Lemma start_invalid id st b :
  browsers st !! id = Some b → running b = false → valid b = false →
  control_start id st = (Throw InvalidConfig, st).
Proof.
  intros Hid Hrun Hval. unfold control_start, lookup_browser, read, mbind, M_bind.
  by rewrite Hid, Hrun, Hval.
Qed.

Lemma stop_unknown id st :
  browsers st !! id = None → control_stop id st = (Throw UnknownInstance, st).
Proof.
  intros Hid. unfold control_stop, lookup_browser, read, mbind, M_bind.
  by rewrite Hid.
Qed.

Lemma stop_not_running id st b :
  browsers st !! id = Some b → running b = false →
  control_stop id st = (Throw NotRunning, st).
Proof.
  intros Hid Hrun. unfold control_stop, lookup_browser, read, mbind, M_bind.
  by rewrite Hid, Hrun.
Qed.

(** What the branch ["stop"] does to a running instance. *)
Lemma stop_running id st b :
  browsers st !! id = Some b → running b = true →
  ∃ st', control_stop id st = (Ok tt, st')
    ∧ browsers st' = <[id := set_running false b]> (browsers st)
    ∧ effects st' = (effects st ++
        [IpcSend "browser-stop" id; WorkerCall "stop" id;
         IpcSend "browser-stopped" id;
         Syslog "info" "instance"
           (instance_message "stopped" (get (cfg b) "t") id)])%list
    ∧ configVersion st' = configVersion st
    ∧ store_browsers st' = store_browsers st.
Proof.
  intros Hid Hrun. unfold control_stop. mrun. rewrite Hid, Hrun.
  cbv beta iota. cbn [negb]. mrun.
  eexists. split; [reflexivity|]. cbn. rewrite <- !app_assoc. done.
Qed.

Lemma controlBrowser_start id c : controlBrowser "start" id c = control_start id.
Proof. reflexivity. Qed.

Lemma controlBrowser_stop id c : controlBrowser "stop" id c = control_stop id.
Proof. reflexivity. Qed.

Lemma controlBrowser_del id c : controlBrowser "del" id c = control_del id.
Proof. reflexivity. Qed.

End ControlFacts.

(** C2, as amended.  [start] on an id that is not in the registry, and
    is not a name that every object inherits, throws the
    unknown-instance error; on a running instance the already-running
    error; on an instance that is not running and not valid the
    invalid-configuration error; [stop] on an instance that is not
    running throws the not-running error.  In each case the state, and
    with it the registry, is the one before the call. *)
Theorem start_stop_guards `{Main.Runtime} (id : string)
  (c : gmap string value) (st : Main.App) :
  (id ∉ Routes.Object_prototype → Main.browsers st !! id = None →
   Main.controlBrowser "start" id c st = (Main.Throw Main.UnknownInstance, st))
  ∧ (∀ b, Main.browsers st !! id = Some b → Main.running b = true →
     Main.controlBrowser "start" id c st = (Main.Throw Main.AlreadyRunning, st))
  ∧ (∀ b, Main.browsers st !! id = Some b → Main.running b = false →
     Main.valid b = false →
     Main.controlBrowser "start" id c st = (Main.Throw Main.InvalidConfig, st))
  ∧ (∀ b, Main.browsers st !! id = Some b → Main.running b = false →
     Main.controlBrowser "stop" id c st = (Main.Throw Main.NotRunning, st)).
Proof.
  rewrite controlBrowser_start, controlBrowser_stop.
  split; [intros _; apply start_unknown|]. split; [apply start_running|].
  split; [apply start_invalid|apply stop_not_running].
Qed.

Lemma start_stop_guards_witness :
  Main.controlBrowser "start" "A" ∅ Model.init
    = (Main.Throw Main.UnknownInstance, Model.init)
  ∧ Main.controlBrowser "start" "A" ∅ Model.started
    = (Main.Throw Main.AlreadyRunning, Model.started)
  ∧ Main.controlBrowser "start" "B" ∅
      (Model.after (Main.controlBrowser "add" "B" Model.untitled) Model.init)
    = (Main.Throw Main.InvalidConfig,
       Model.after (Main.controlBrowser "add" "B" Model.untitled) Model.init)
  ∧ Main.controlBrowser "stop" "A" ∅ Model.added
    = (Main.Throw Main.NotRunning, Model.added).
Proof.
  split; [|split; [|split]].
  - apply (start_stop_guards "A" ∅ Model.init).
    + by apply (bool_decide_unpack _).
    + reflexivity.
  - apply (proj1 (proj2 (start_stop_guards "A" ∅ Model.started))
             {| Main.cfg := Model.cam; Main.worker_running := true |});
      reflexivity.
  - apply (proj1 (proj2 (proj2 (start_stop_guards "B" ∅
             (Model.after (Main.controlBrowser "add" "B" Model.untitled)
                Model.init))))
             {| Main.cfg := Model.untitled; Main.worker_running := false |});
      reflexivity.
  - apply (proj2 (proj2 (proj2 (start_stop_guards "A" ∅ Model.added)))
             {| Main.cfg := Model.cam; Main.worker_running := false |});
      reflexivity.
Defined.

(** C2 as stated fails where an instance is both running and not valid,
    a state reached by [add], [start] and then [mod] with an empty title:
    [start] throws the already-running error there. *)
Lemma start_invalid_config_counterexample :
  ∃ b, Main.browsers Model.retitled !! "A" = Some b
    ∧ Main.valid b = false
    ∧ Main.controlBrowser "start" "A" ∅ Model.retitled
      = (Main.Throw Main.AlreadyRunning, Model.retitled)
    ∧ Main.AlreadyRunning ≠ Main.InvalidConfig.
Proof.
  exists {| Main.cfg := Model.untitled; Main.worker_running := true |}.
  split; [reflexivity|]. split; [vm_compute; reflexivity|].
  split; [|discriminate].
  rewrite controlBrowser_start. by eapply start_running.
Qed.

Section DelFacts.
Context `{Main.Runtime}.
Import Main.

Implicit Types (id : string) (c : gmap string value) (st : App) (b : Browser).

(** The title the deletion is logged with: [browsers[id]?.cfg?.t || id]. *)
Definition deleted_title (ob : option Browser) (id : string) : value :=
  match ob with
  | Some b => if ToBoolean (get (cfg b) "t") then get (cfg b) "t" else VStr id
  | None => VStr id
  end.

Lemma del_unknown id st :
  browsers st !! id = None →
  ∃ st', control_del id st = (Ok tt, st')
    ∧ browsers st' = browsers st
    ∧ effects st' = (effects st ++
        [Syslog "info" "instance" (instance_message "deleted" (VStr id) id)])%list
    ∧ store_browsers st' = store_browsers st
    ∧ configVersion st' = configVersion st.
Proof.
  intros Hid. eexists. split.
  - unfold control_del, lookup_browser, remove_browser, emit, update, read,
      mbind, mret, M_ret, M_bind.
    rewrite Hid. cbn. reflexivity.
  - cbn. split; [|done]. by apply delete_id.
Qed.

Lemma del_stopped id st b :
  browsers st !! id = Some b → running b = false →
  ∃ st', control_del id st = (Ok tt, st')
    ∧ browsers st' = delete id (browsers st)
    ∧ effects st' = (effects st ++
        [Syslog "info" "instance"
           (instance_message "deleted" (deleted_title (Some b) id) id)])%list.
Proof.
  intros Hid Hrun. eexists. split.
  - unfold control_del, lookup_browser, remove_browser, emit, update, read,
      mbind, mret, M_ret, M_bind.
    rewrite Hid, Hrun. cbn. reflexivity.
  - cbn. done.
Qed.

Lemma del_running id st b :
  browsers st !! id = Some b → running b = true →
  ∃ st1 st2, control_stop id st = (Ok tt, st1)
    ∧ (running <$> browsers st1 !! id) = Some false
    ∧ control_del id st = (Ok tt, st2)
    ∧ browsers st2 = delete id (browsers st1)
    ∧ effects st2 = (effects st1 ++
        [Syslog "info" "instance"
           (instance_message "deleted" (deleted_title (Some b) id) id)])%list.
Proof.
  intros Hid Hrun.
  destruct (stop_running id st b Hid Hrun) as (st1 & Hstop & Hb1 & He1 & _).
  exists st1. eexists. split; [done|]. split.
  { rewrite Hb1, lookup_insert_eq. done. }
  split.
  - unfold control_del. rewrite bind_run. unfold lookup_browser at 1, read.
    rewrite Hid, Hrun, !bind_run, Hstop. reflexivity.
  - cbn. done.
Qed.

End DelFacts.

(** C3, as amended.  [del] on an id that is not in the registry, and is
    not a name that every object inherits, returns without an error and
    leaves the registry as it is: all it does is to log the deletion.
    On a running instance [del] first does what [stop] does, which
    leaves the instance in the registry with the status stopped, then
    removes the entry, and with it the worker handle, and logs the
    deletion; a later [start] on that id throws the unknown-instance
    error (again for an id that is not an inherited name).  On a stopped
    instance [del] removes the entry. *)
Theorem del_stops_then_removes `{Main.Runtime} (id : string)
  (c : gmap string value) (st : Main.App) :
  (id ∉ Routes.Object_prototype → Main.browsers st !! id = None →
   ∃ st', Main.controlBrowser "del" id c st = (Main.Ok tt, st')
     ∧ Main.browsers st' = Main.browsers st
     ∧ Main.effects st' = (Main.effects st ++
         [Main.Syslog "info" "instance"
            (Main.instance_message "deleted" (VStr id) id)])%list
     ∧ Main.store_browsers st' = Main.store_browsers st
     ∧ Main.configVersion st' = Main.configVersion st)
  ∧ (∀ b, Main.browsers st !! id = Some b → Main.running b = true →
     ∃ st1 st2,
       Main.controlBrowser "stop" id c st = (Main.Ok tt, st1)
       ∧ (Main.running <$> Main.browsers st1 !! id) = Some false
       ∧ Main.controlBrowser "del" id c st = (Main.Ok tt, st2)
       ∧ Main.browsers st2 = delete id (Main.browsers st1)
       ∧ Main.effects st2 = (Main.effects st1 ++
           [Main.Syslog "info" "instance"
              (Main.instance_message "deleted" (deleted_title (Some b) id) id)])%list
       ∧ (id ∉ Routes.Object_prototype →
          Main.controlBrowser "start" id c st2
          = (Main.Throw Main.UnknownInstance, st2)))
  ∧ (∀ b, Main.browsers st !! id = Some b → Main.running b = false →
     ∃ st', Main.controlBrowser "del" id c st = (Main.Ok tt, st')
       ∧ Main.browsers st' = delete id (Main.browsers st)).
Proof.
  rewrite controlBrowser_del, controlBrowser_stop. split; [|split].
  - intros _ Hid.
    destruct (del_unknown id st Hid) as (st' & ? & ? & ? & ? & ?).
    exists st'. done.
  - intros b Hid Hrun.
    destruct (del_running id st b Hid Hrun) as (st1 & st2 & ? & ? & ? & Hb & ?).
    exists st1, st2. repeat (split; [done|]). intros _.
    rewrite controlBrowser_start. apply start_unknown.
    rewrite Hb. apply lookup_delete_eq.
  - intros b Hid Hrun.
    destruct (del_stopped id st b Hid Hrun) as (st' & ? & ? & _). eauto.
Qed.

Section DelExamples.
Import Model.

Lemma del_stops_then_removes_witness :
  (∃ st', Main.controlBrowser "del" "A" ∅ Model.init = (Main.Ok tt, st')
     ∧ Main.browsers st' = Main.browsers Model.init
     ∧ Main.effects st' = (Main.effects Model.init ++
         [Main.Syslog "info" "instance"
            (Main.instance_message "deleted" (VStr "A") "A")])%list
     ∧ Main.store_browsers st' = Main.store_browsers Model.init
     ∧ Main.configVersion st' = Main.configVersion Model.init)
  ∧ (∃ st1 st2,
       Main.controlBrowser "stop" "A" ∅ Model.started = (Main.Ok tt, st1)
       ∧ (Main.running <$> Main.browsers st1 !! "A") = Some false
       ∧ Main.controlBrowser "del" "A" ∅ Model.started = (Main.Ok tt, st2)
       ∧ Main.browsers st2 = delete "A" (Main.browsers st1)
       ∧ Main.effects st2 = (Main.effects st1 ++
           [Main.Syslog "info" "instance"
              (Main.instance_message "deleted"
                 (deleted_title
                    (Some {| Main.cfg := Model.cam; Main.worker_running := true |})
                    "A") "A")])%list
       ∧ ("A" ∉ Routes.Object_prototype →
          Main.controlBrowser "start" "A" ∅ st2
          = (Main.Throw Main.UnknownInstance, st2)))
  ∧ (∃ st', Main.controlBrowser "del" "A" ∅ Model.added = (Main.Ok tt, st')
       ∧ Main.browsers st' = delete "A" (Main.browsers Model.added)).
Proof.
  split; [|split].
  - apply (del_stops_then_removes "A" ∅ Model.init).
    + by apply (bool_decide_unpack _).
    + reflexivity.
  - apply (proj1 (proj2 (del_stops_then_removes "A" ∅ Model.started))
             {| Main.cfg := Model.cam; Main.worker_running := true |});
      reflexivity.
  - apply (proj2 (proj2 (del_stops_then_removes "A" ∅ Model.added))
             {| Main.cfg := Model.cam; Main.worker_running := false |});
      reflexivity.
Defined.

(** C3 as stated fails on an id that is not in the registry: [del]
    returns without an error. *)
Lemma del_unknown_id_counterexample :
  Main.browsers Model.init !! "ghost" = None
  ∧ (Main.controlBrowser "del" "ghost" ∅ Model.init).1 = Main.Ok tt.
Proof. split; reflexivity. Qed.

End DelExamples.

(** ** Bulk actions *)

Section BulkFacts.
Context `{Main.Runtime}.
Import Main.

Implicit Types (id : string) (c : gmap string value) (st : App) (b : Browser).
Implicit Types (evs new : list event).

(** The ids whose worker was asked to start, in order. *)
Definition starts evs : list string :=
  omap (λ e, match e with
             | WorkerCall method id =>
               if String.eqb method "start" then Some id else None
             | _ => None
             end) evs.

Lemma starts_app evs1 evs2 : starts (evs1 ++ evs2) = (starts evs1 ++ starts evs2)%list.
Proof. apply omap_app. Qed.

(** The test of the loop of ["start-all"]. *)
Definition eligible b : bool := negb (running b) && valid b.

Definition eligible_at st id : bool :=
  match browsers st !! id with
  | Some b => eligible b
  | None => false
  end.

(** A computation that only appends events, all of them satisfying [P]. *)
Definition appends {A} (P : list event → Prop) (m : M A) : Prop :=
  ∀ st, ∃ new, effects (m st).2 = (effects st ++ new)%list ∧ P new.

Definition no_start new : Prop := starts new = [].

Lemma appends_ret {A} (a : A) : appends no_start (mret a).
Proof. intros st. exists []. by rewrite app_nil_r. Qed.

Lemma appends_throw {A} e : appends no_start (throw (A := A) e).
Proof. intros st. exists []. by rewrite app_nil_r. Qed.

Lemma appends_read {A} (f : App → A) : appends no_start (read f).
Proof. intros st. exists []. by rewrite app_nil_r. Qed.

Lemma appends_update (f : App → App) :
  (∀ st, effects (f st) = effects st) → appends no_start (update f).
Proof. intros Hf st. exists []. cbn. by rewrite Hf, app_nil_r. Qed.

Lemma appends_emit e : starts [e] = [] → appends no_start (emit e).
Proof. intros He st. by exists [e]. Qed.

Lemma appends_bind {A B} (m : M A) (f : A → M B) :
  appends no_start m → (∀ a, appends no_start (f a)) →
  appends no_start (m ≫= f).
Proof.
  intros Hm Hf st. rewrite bind_run.
  destruct (Hm st) as (new1 & He1 & Hn1).
  destruct (m st) as [[a|e] st1]; cbn [snd] in *.
  - destruct (Hf a st1) as (new2 & He2 & Hn2).
    exists (new1 ++ new2)%list. rewrite He2, He1, app_assoc. split; [done|].
    unfold no_start in *. by rewrite starts_app, Hn1, Hn2.
  - by exists new1.
Qed.

Lemma appends_put id b : appends no_start (put_browser id b).
Proof. by apply appends_update. Qed.

Lemma appends_remove id : appends no_start (remove_browser id).
Proof. by apply appends_update. Qed.

Lemma appends_lookup id : appends no_start (lookup_browser id).
Proof. apply appends_read. Qed.

Lemma appends_stop id : appends no_start (control_stop id).
Proof.
  unfold control_stop. apply appends_bind; [apply appends_lookup|].
  intros [b|]; [|apply appends_throw].
  destruct (negb (running b)); [apply appends_throw|].
  repeat (apply appends_bind; [|intros _]);
    first [by apply appends_emit | apply appends_put].
Qed.

Lemma appends_reload id : appends no_start (control_reload id).
Proof.
  unfold control_reload. apply appends_bind; [apply appends_lookup|].
  intros [b|]; [|apply appends_throw].
  destruct (negb (running b)); [apply appends_throw|].
  repeat (apply appends_bind; [|intros _]); by apply appends_emit.
Qed.

Lemma appends_prune_one id : appends no_start (prune_one id).
Proof.
  unfold prune_one. apply appends_bind; [apply appends_lookup|].
  intros [b|]; [|apply appends_throw].
  apply appends_bind; [|intros _; apply appends_remove].
  destruct (running b); [|apply appends_ret].
  apply appends_bind; [by apply appends_emit|intros _; apply appends_put].
Qed.

Lemma appends_bulk (test : Browser → bool) (op : string → M unit) ids :
  (∀ id, appends no_start (op id)) → appends no_start (bulk test op ids).
Proof.
  intros Hop. induction ids as [|id ids IH]; [apply appends_ret|].
  intros st. cbn [bulk].
  destruct (browsers st !! id) as [b|]; [|exists []; by rewrite app_nil_r].
  destruct (test b); [|apply IH].
  destruct (Hop id st) as (new1 & He1 & Hn1).
  destruct (op id st) as [[[]|e] st1]; cbn [snd] in *.
  - destruct (IH st1) as (new2 & He2 & Hn2).
    exists (new1 ++ new2)%list. rewrite He2, He1, app_assoc. split; [done|].
    unfold no_start in *. by rewrite starts_app, Hn1, Hn2.
  - destruct (IH st1) as (new2 & He2 & Hn2).
    exists (new1 ++ new2)%list. rewrite He2, He1, app_assoc. split; [done|].
    unfold no_start in *. by rewrite starts_app, Hn1, Hn2.
Qed.

Lemma appends_prune : appends no_start control_prune.
Proof.
  unfold control_prune. apply appends_bind; [apply appends_read|].
  intros ids. induction ids as [|id ids IH]; [apply appends_ret|].
  cbn [foldr]. apply appends_bind; [apply appends_prune_one|by intros _].
Qed.

(** What the branch ["start"] does to an instance that passes the test. *)
Lemma start_eligible id st b :
  browsers st !! id = Some b → eligible b = true →
  ∃ st' new, control_start id st = (Ok tt, st')
    ∧ effects st' = (effects st ++ new)%list
    ∧ starts new = [id]
    ∧ browsers st' =
        <[id := set_running (Browser_start id (cfg b)) b]> (browsers st).
Proof.
  intros Hid [Hrun Hval]%andb_true_iff. apply negb_true_iff in Hrun.
  unfold control_start. mrun. rewrite Hid, Hrun, Hval.
  cbv beta iota. cbn [negb]. mrun.
  destruct (Browser_start id (cfg b)) eqn:Hw; mrun.
  - eexists. eexists. split; [reflexivity|]. cbn.
    rewrite <- !app_assoc. cbn. done.
  - eexists. eexists. split; [reflexivity|]. cbn.
    rewrite <- !app_assoc. cbn. done.
Qed.

Lemma eligible_at_insert st st' id id' b :
  browsers st' = <[id := b]> (browsers st) → id' ≠ id →
  eligible_at st' id' = eligible_at st id'.
Proof. intros Hb Hne. unfold eligible_at. by rewrite Hb, lookup_insert_ne. Qed.

Lemma filter_ext_elem {A} (P Q : A → Prop)
  `{!∀ x, Decision (P x)} `{!∀ x, Decision (Q x)} (l : list A) :
  (∀ x, x ∈ l → P x ↔ Q x) → filter P l = filter Q l.
Proof.
  induction l as [|x l IH]; intros Hpq; [done|].
  rewrite !filter_cons. rewrite IH by (intros y Hy; apply Hpq; by right).
  destruct (decide (P x)) as [Hp|Hp], (decide (Q x)) as [Hq|Hq]; try done;
    exfalso; apply (Hpq x (list_elem_of_here _ _)) in Hp || apply Hp;
    try done; by apply (Hpq x (list_elem_of_here _ _)).
Qed.

(** The loop of ["start-all"] over ids that are in the registry: it asks
    the worker to start exactly the ids that pass the test, in order. *)
Lemma bulk_start ids st :
  NoDup ids → (∀ id, id ∈ ids → is_Some (browsers st !! id)) →
  ∃ st' new, bulk eligible control_start ids st = (Ok tt, st')
    ∧ effects st' = (effects st ++ new)%list
    ∧ starts new = filter (λ id, eligible_at st id = true) ids.
Proof.
  revert st. induction ids as [|id ids IH]; intros st Hnd Hall.
  { exists st, []. by rewrite app_nil_r. }
  apply NoDup_cons in Hnd as [Hid Hnd].
  destruct (Hall id) as [b Hb]; [left|].
  assert (eligible_at st id = eligible b) as Hea.
  { unfold eligible_at. by rewrite Hb. }
  cbn [bulk]. rewrite Hb, filter_cons.
  destruct (eligible b) eqn:Hel.
  - destruct (start_eligible id st b Hb Hel) as (st1 & new1 & -> & He1 & Hs1 & Hb1).
    destruct (IH st1 Hnd) as (st2 & new2 & -> & He2 & Hs2).
    { intros id' Hin. rewrite Hb1, lookup_insert_ne by set_solver.
      apply Hall. by right. }
    exists st2, (new1 ++ new2)%list. split; [done|].
    rewrite He2, He1, app_assoc. split; [done|].
    rewrite starts_app, Hs1, Hs2, decide_True by done. cbn. f_equal.
    apply filter_ext_elem. intros id' Hin.
    erewrite eligible_at_insert; [done|done|]. intros ->. done.
  - destruct (IH st Hnd) as (st2 & new2 & -> & He2 & Hs2).
    { intros id' Hin. apply Hall. by right. }
    exists st2, new2. rewrite decide_False by congruence. done.
Qed.

Lemma browser_ids_NoDup st : NoDup (browser_ids st).
Proof. apply NoDup_fst_map_to_list. Qed.

Lemma elem_of_browser_ids st id :
  id ∈ browser_ids st ↔ is_Some (browsers st !! id).
Proof.
  unfold browser_ids. rewrite list_elem_of_fmap. split.
  - intros [[k v] [-> Hin]]. apply elem_of_map_to_list in Hin. by eexists.
  - intros [v Hv]. exists (id, v). split; [done|]. by apply elem_of_map_to_list.
Qed.

Lemma valid_title b :
  valid b = true →
  get (cfg b) "t" ≠ VStr EmptyString ∧ ToBoolean (get (cfg b) "N") = true.
Proof.
  unfold valid. intros [Ht HN]%andb_true_iff. split; [|done].
  apply negb_true_iff, bool_decide_eq_false in Ht. done.
Qed.

(** The events a bulk action appends. *)
Definition appended_by (action : string) c st new : Prop :=
  effects (controlBrowser action EmptyString c st).2 = (effects st ++ new)%list.

Lemma bulk_no_start (action : string) c st :
  action ∈ ["stop-all"; "reload-all"; "prune"] →
  ∃ new, appended_by action c st new ∧ starts new = [].
Proof.
  intros Ha. unfold appended_by.
  assert (appends no_start (controlBrowser action EmptyString c)) as Happ.
  { repeat (apply elem_of_cons in Ha as [->|Ha]); [| | |by apply elem_of_nil in Ha].
    - apply appends_bind; [apply appends_read|]. intros ids.
      apply appends_bulk, appends_stop.
    - apply appends_bind; [apply appends_read|]. intros ids.
      apply appends_bulk, appends_reload.
    - apply appends_prune. }
  apply Happ.
Qed.

End BulkFacts.

(** C6.  ["start-all"] returns normally, and the ids whose worker it asks
    to start are exactly, and once each, the ids of the registry whose
    instance is not running and valid.  A valid instance has a title
    other than the empty string and the output enabled.  Hence no bulk
    action asks the worker of an instance with an empty title to start. *)
Theorem start_all_attempts `{Main.Runtime} (c : gmap string value)
  (st : Main.App) :
  (∃ st' new,
     Main.controlBrowser "start-all" EmptyString c st = (Main.Ok tt, st')
     ∧ Main.effects st' = (Main.effects st ++ new)%list
     ∧ NoDup (starts new)
     ∧ ∀ id, id ∈ starts new ↔
         ∃ b, Main.browsers st !! id = Some b
              ∧ Main.running b = false ∧ Main.valid b = true)
  ∧ (∀ b, Main.valid b = true →
       get (Main.cfg b) "t" ≠ VStr EmptyString
       ∧ ToBoolean (get (Main.cfg b) "N") = true)
  ∧ (∀ action new id b,
       action ∈ ["start-all"; "stop-all"; "reload-all"; "prune"] →
       appended_by action c st new →
       Main.browsers st !! id = Some b →
       get (Main.cfg b) "t" = VStr EmptyString →
       id ∉ starts new).
Proof.
  destruct (bulk_start (Main.browser_ids st) st (browser_ids_NoDup st))
    as (st' & new & Hrun & Heff & Hst).
  { intros id. apply elem_of_browser_ids. }
  assert (∀ id, id ∈ starts new ↔
            ∃ b, Main.browsers st !! id = Some b
                 ∧ Main.running b = false ∧ Main.valid b = true) as Hiff.
  { intros id. rewrite Hst, list_elem_of_filter, elem_of_browser_ids.
    unfold eligible_at, eligible. split.
    - intros [Hel [b Hb]]. rewrite Hb in Hel. exists b.
      apply andb_true_iff in Hel as [Hr Hv]. by apply negb_true_iff in Hr.
    - intros (b & Hb & Hr & Hv). rewrite Hb, Hr, Hv. split; [done|by eexists]. }
  split; [|split].
  - exists st', new. split; [exact Hrun|]. split; [done|]. split; [|done].
    rewrite Hst. apply NoDup_filter, browser_ids_NoDup.
  - apply valid_title.
  - intros action new' id b Ha Happ Hb Ht Hin.
    apply elem_of_cons in Ha as [->|Ha].
    + unfold appended_by in Happ.
      change (Main.controlBrowser "start-all" EmptyString c st)
        with (Main.bulk eligible Main.control_start (Main.browser_ids st) st)
        in Happ.
      rewrite Hrun in Happ. cbn [snd] in Happ. rewrite Heff in Happ.
      apply app_inv_head in Happ. subst new'.
      apply Hiff in Hin as (b' & Hb' & _ & Hv). rewrite Hb in Hb'.
      injection Hb' as <-. by apply valid_title in Hv as [Hne _].
    + destruct (bulk_no_start action c st Ha) as (new0 & Happ0 & Hs0).
      unfold appended_by in *. rewrite Happ in Happ0.
      apply app_inv_head in Happ0. subst new0. rewrite Hs0 in Hin.
      by apply elem_of_nil in Hin.
Qed.

Section BulkExamples.
Import Model.

Lemma start_all_attempts_witness :
  (get (Main.cfg {| Main.cfg := cam; Main.worker_running := false |}) "t"
     ≠ VStr EmptyString
   ∧ ToBoolean
       (get (Main.cfg {| Main.cfg := cam; Main.worker_running := false |}) "N")
     = true)
  ∧ "B" ∉ starts
      [Main.IpcSend "browser-start" "A"; Main.WorkerCall "start" "A";
       Main.IpcSend "browser-started" "A";
       Main.Syslog "info" "instance"
         (Main.instance_message "started" (VStr "Cam1") "A")].
Proof.
  split.
  - apply (proj1 (proj2 (start_all_attempts ∅ two))). reflexivity.
  - apply (proj2 (proj2 (start_all_attempts ∅ two)) "start-all" _ "B"
             {| Main.cfg := untitled; Main.worker_running := false |}).
    + left.
    + reflexivity.
    + reflexivity.
    + reflexivity.
Defined.

End BulkExamples.

(** ** Persistence of the configuration *)

Section SaveFacts.
Context `{Main.Runtime}.
Import Main.

Implicit Types (id : string) (c : gmap string value) (st : App) (b : Browser).

(** [Object.keys(browsers).map((bid) => ({ id: bid, ...browsers[bid].cfg }))] *)
Definition config_set (registry : gmap string Browser)
  : list (gmap string value) :=
  (λ entry : string * Browser, cfg entry.2 ∪ {["id" := VStr entry.1]})
    <$> map_to_list registry.

(** The store and the version counter are as before. *)
Definition unsaved st st' : Prop :=
  configVersion st' = configVersion st
  ∧ store_browsers st' = store_browsers st.

(** One save happened, of the configurations of the registry at the end. *)
Definition saved st st' : Prop :=
  configVersion st' = S (configVersion st)
  ∧ store_browsers st' = Some (JSON_stringify (config_set (browsers st'))).

Definition keeps {A} (m : M A) : Prop :=
  ∀ st, configVersion (m st).2 = configVersion st
        ∧ store_browsers (m st).2 = store_browsers st.

Definition keeps_registry {A} (m : M A) : Prop :=
  ∀ st, configVersion (m st).2 = configVersion st
        ∧ store_browsers (m st).2 = store_browsers st
        ∧ browsers (m st).2 = browsers st.

Definition saves {A} (good : A → Prop) (m : M A) : Prop :=
  ∀ st a st', m st = (Ok a, st') → good a → saved st st'.

Lemma keeps_ret {A} (a : A) : keeps (mret a).
Proof. by intros st. Qed.

Lemma keeps_throw {A} e : keeps (throw (A := A) e).
Proof. by intros st. Qed.

Lemma keeps_read {A} (f : App → A) : keeps (read f).
Proof. by intros st. Qed.

Lemma keeps_emit e : keeps (emit e).
Proof. by intros st. Qed.

Lemma keeps_put id b : keeps (put_browser id b).
Proof. by intros st. Qed.

Lemma keeps_remove id : keeps (remove_browser id).
Proof. by intros st. Qed.

Lemma keeps_bind {A B} (m : M A) (f : A → M B) :
  keeps m → (∀ a, keeps (f a)) → keeps (m ≫= f).
Proof.
  intros Hm Hf st. rewrite bind_run. destruct (Hm st) as [Hv Hs].
  destruct (m st) as [[a|e] st1]; cbn [snd] in *; [|done].
  destruct (Hf a st1) as [Hv' Hs']. by rewrite Hv', Hs'.
Qed.

Ltac keeps_steps :=
  repeat first
    [ apply keeps_ret | apply keeps_throw | apply keeps_read | apply keeps_emit
    | apply keeps_put | apply keeps_remove
    | apply keeps_bind; [|intros ?] ].

Lemma keeps_start id : keeps (control_start id).
Proof.
  unfold control_start, lookup_browser. apply keeps_bind; [apply keeps_read|].
  intros [b|]; [|apply keeps_throw].
  destruct (running b); [apply keeps_throw|].
  destruct (negb (valid b)); [apply keeps_throw|].
  do 2 (apply keeps_bind; [apply keeps_emit|intros _]).
  destruct (Browser_start id (cfg b)); keeps_steps.
Qed.

Lemma keeps_stop id : keeps (control_stop id).
Proof.
  unfold control_stop, lookup_browser. apply keeps_bind; [apply keeps_read|].
  intros [b|]; [|apply keeps_throw].
  destruct (negb (running b)); [apply keeps_throw|]. keeps_steps.
Qed.

Lemma keeps_reload id : keeps (control_reload id).
Proof.
  unfold control_reload, lookup_browser. apply keeps_bind; [apply keeps_read|].
  intros [b|]; [|apply keeps_throw].
  destruct (negb (running b)); [apply keeps_throw|]. keeps_steps.
Qed.

Lemma keeps_clear id : keeps (control_clear id).
Proof.
  unfold control_clear, lookup_browser. apply keeps_bind; [apply keeps_read|].
  intros [b|]; [|apply keeps_throw].
  destruct (running b); [apply keeps_throw|]. keeps_steps.
Qed.

Lemma keeps_add id c : keeps (control_add id c).
Proof. unfold control_add. keeps_steps. Qed.

Lemma keeps_mod id c : keeps (control_mod id c).
Proof.
  unfold control_mod, lookup_browser. apply keeps_bind; [apply keeps_read|].
  intros [b|]; keeps_steps.
Qed.

Lemma keeps_del id : keeps (control_del id).
Proof.
  unfold control_del, lookup_browser. apply keeps_bind; [apply keeps_read|].
  intros ob. apply keeps_bind; [|intros _; keeps_steps].
  destruct ob as [b|]; [|apply keeps_ret].
  destruct (running b); [apply keeps_stop|apply keeps_ret].
Qed.

Lemma keeps_bulk (test : Browser → bool) (op : string → M unit) ids :
  (∀ id, keeps (op id)) → keeps (bulk test op ids).
Proof.
  intros Hop. induction ids as [|id ids IH]; [apply keeps_ret|].
  intros st. cbn [bulk]. destruct (browsers st !! id) as [b|]; [|done].
  destruct (test b); [|apply IH].
  destruct (Hop id st) as [Hv Hs].
  destruct (op id st) as [[[]|e] st1]; cbn [snd] in *;
    destruct (IH st1) as [Hv' Hs']; by rewrite Hv', Hs'.
Qed.

Lemma keeps_prune : keeps control_prune.
Proof.
  unfold control_prune. apply keeps_bind; [apply keeps_read|].
  intros ids. induction ids as [|id ids IH]; [apply keeps_ret|].
  cbn [foldr]. apply keeps_bind; [|by intros _].
  unfold prune_one, lookup_browser. apply keeps_bind; [apply keeps_read|].
  intros [b|]; [|apply keeps_throw].
  apply keeps_bind; [|intros _; apply keeps_remove].
  destruct (running b); keeps_steps.
Qed.

(** [controlBrowser] never touches the store or the version counter. *)
Lemma keeps_controlBrowser (action : string) id c :
  keeps (controlBrowser action id c).
Proof.
  unfold controlBrowser.
  repeat match goal with
         | |- keeps (if ?t then _ else _) => destruct t
         end;
    first [ apply keeps_prune | apply keeps_add | apply keeps_mod
          | apply keeps_del | apply keeps_start | apply keeps_reload
          | apply keeps_stop | apply keeps_clear | apply keeps_ret
          | apply keeps_bind; [apply keeps_read|]; intros ids;
            apply keeps_bulk; intros id';
            first [apply keeps_start | apply keeps_reload | apply keeps_stop] ].
Qed.

Lemma saveConfigs_spec (bs : list (gmap string value)) st :
  ∃ st', saveConfigs bs st = (Ok tt, st')
    ∧ configVersion st' = S (configVersion st)
    ∧ store_browsers st' = Some (JSON_stringify bs)
    ∧ browsers st' = browsers st
    ∧ effects st' = (effects st ++ [StoreSet "browsers"])%list.
Proof. eexists. split; [reflexivity|]. done. Qed.

Lemma saveBrowsersToStore_spec st :
  ∃ st', saveBrowsersToStore st = (Ok tt, st')
    ∧ configVersion st' = S (configVersion st)
    ∧ store_browsers st' = Some (JSON_stringify (config_set (browsers st)))
    ∧ browsers st' = browsers st.
Proof.
  unfold saveBrowsersToStore. rewrite bind_run. unfold read at 1.
  rewrite bind_run.
  destruct (saveConfigs_spec (config_set (browsers st)) st)
    as (st1 & Hsave & Hv & Hs & Hb & _).
  unfold config_set in Hsave. rewrite Hsave. rewrite bind_run. unfold read at 1.
  destruct (control_destroyed st1); eexists; (split; [reflexivity|]); cbn;
    by rewrite Hv, Hs, Hb.
Qed.

Lemma saves_saveBrowsersToStore : saves (λ _, True) saveBrowsersToStore.
Proof.
  intros st [] st' Hrun _.
  destruct (saveBrowsersToStore_spec st) as (st1 & Hrun1 & Hv & Hs & Hb).
  rewrite Hrun in Hrun1. injection Hrun1 as <-. split; [done|]. by rewrite Hb.
Qed.

Lemma saves_bind_keeps {A B} (good : B → Prop) (m : M A) (f : A → M B) :
  keeps m → (∀ a, saves good (f a)) → saves good (m ≫= f).
Proof.
  intros Hm Hf st b st' Hrun Hgood. rewrite bind_run in Hrun.
  destruct (Hm st) as [Hv Hs].
  destruct (m st) as [[a|e] st1]; cbn [snd] in *; [|done].
  destruct (Hf a st1 b st' Hrun Hgood) as [Hv' Hs'].
  split; [by rewrite Hv', Hv|done].
Qed.

Lemma saves_bind_then {A B} (good : B → Prop) (m : M A) (f : A → M B) :
  saves (λ _, True) m → (∀ a, keeps_registry (f a)) → saves good (m ≫= f).
Proof.
  intros Hm Hf st b st' Hrun Hgood. rewrite bind_run in Hrun.
  destruct (m st) as [[a|e] st1] eqn:Hmst; [|done].
  destruct (Hm st a st1 Hmst I) as [Hv Hs].
  destruct (Hf a st1) as (Hv' & Hs' & Hb'). rewrite Hrun in *. cbn [snd] in *.
  split; [by rewrite Hv', Hv|by rewrite Hs', Hs, Hb'].
Qed.

Lemma keeps_registry_ret {A} (a : A) : keeps_registry (mret a).
Proof. by intros st. Qed.

Lemma keeps_registry_emit_then {A} e (m : M A) :
  keeps_registry m → keeps_registry (emit e ;; m).
Proof.
  intros Hm st. rewrite bind_run. cbn. destruct (Hm (emit e st).2) as (?&?&?).
  done.
Qed.

Definition success (r : response) : Prop := status r = 200 ∨ status r = 201.

Lemma saves_wrap (fn : M response) : saves success fn → saves success (wrap fn).
Proof.
  intros Hfn st r st' Hrun Hgood. unfold wrap, try_catch in Hrun.
  destruct (fn st) as [[r'|e] st1] eqn:Hfnst.
  - injection Hrun as <- <-. by apply (Hfn st r' st1).
  - injection Hrun as <- <-. destruct Hgood as [Hg|Hg]; discriminate Hg.
Qed.

Lemma saves_post (req_body : gmap string value) :
  saves success (webui_post_instance req_body).
Proof.
  unfold webui_post_instance. apply saves_wrap.
  apply saves_bind_keeps; [apply keeps_read|]. intros n.
  apply saves_bind_keeps; [by intros st|]. intros _.
  apply saves_bind_keeps; [apply keeps_controlBrowser|]. intros _.
  apply saves_bind_then; [apply saves_saveBrowsersToStore|].
  intros _. apply keeps_registry_ret.
Qed.

Lemma saves_patch id (req_body : gmap string value) :
  saves success (webui_patch_instance id req_body).
Proof.
  unfold webui_patch_instance. apply saves_wrap.
  apply saves_bind_keeps; [apply keeps_read|]. intros [b|].
  2:{ intros st r st' [= <- <-] [Hg|Hg]; discriminate Hg. }
  apply saves_bind_keeps.
  { destruct (running b); [apply keeps_controlBrowser|apply keeps_ret]. }
  intros _. apply saves_bind_keeps; [apply keeps_controlBrowser|]. intros _.
  apply saves_bind_keeps.
  { destruct (running b); [apply keeps_controlBrowser|apply keeps_ret]. }
  intros _. apply saves_bind_then; [apply saves_saveBrowsersToStore|].
  intros _. destruct (running b).
  - apply keeps_registry_emit_then, keeps_registry_ret.
  - intros st. done.
Qed.

Lemma saves_delete id : saves success (webui_delete_instance id).
Proof.
  unfold webui_delete_instance. apply saves_wrap.
  apply saves_bind_keeps; [apply keeps_read|]. intros [b|].
  2:{ intros st r st' [= <- <-] [Hg|Hg]; discriminate Hg. }
  apply saves_bind_keeps; [apply keeps_controlBrowser|]. intros _.
  apply saves_bind_then; [apply saves_saveBrowsersToStore|].
  intros _. apply keeps_registry_ret.
Qed.

(** The Web UI handlers answer every request: [wrap] catches what the
    body throws. *)
Lemma wrap_returns (fn : M response) st : ∃ r st', wrap fn st = (Ok r, st').
Proof.
  unfold wrap, try_catch. destruct (fn st) as [[r|e] st1]; by do 2 eexists.
Qed.

Lemma post_returns (req_body : gmap string value) st :
  ∃ id st',
    webui_post_instance req_body st = (Ok (Response 201 (BodyOkId id)), st').
Proof.
  unfold webui_post_instance, wrap, try_catch. rewrite bind_run.
  unfold read at 1. rewrite bind_run. unfold update at 1. rewrite bind_run.
  set (st1 := set_uuids _ st). set (id := new_uuid _).
  set (c := (Config.sanitizeConfig _).1).
  change (controlBrowser "add" id c) with (control_add id c).
  unfold control_add, put_browser, emit. rewrite !bind_run.
  unfold update. rewrite bind_run.
  match goal with
  | |- context [saveBrowsersToStore ?s] =>
    destruct (saveBrowsersToStore_spec s) as (st2 & -> & _)
  end.
  by do 2 eexists.
Qed.

Lemma del_returns id st : ∃ st', control_del id st = (Ok tt, st').
Proof.
  destruct (browsers st !! id) as [b|] eqn:Hid.
  - destruct (running b) eqn:Hrun.
    + destruct (del_running id st b Hid Hrun) as (st1 & st2 & _ & _ & ? & _).
      by exists st2.
    + destruct (del_stopped id st b Hid Hrun) as (st' & ? & _). by exists st'.
  - destruct (del_unknown id st Hid) as (st' & ? & _). by exists st'.
Qed.

Lemma delete_returns id st :
  is_Some (browsers st !! id) →
  ∃ st', webui_delete_instance id st = (Ok (Response 200 BodyOk), st').
Proof.
  intros [b Hid]. unfold webui_delete_instance, wrap, try_catch.
  rewrite bind_run. unfold lookup_browser at 1, read at 1. rewrite Hid.
  rewrite bind_run. change (controlBrowser "del" id ∅) with (control_del id).
  destruct (del_returns id st) as (st1 & ->). rewrite bind_run.
  destruct (saveBrowsersToStore_spec st1) as (st2 & -> & _).
  by eexists.
Qed.

Lemma patch_returns id (req_body : gmap string value) st b :
  browsers st !! id = Some b → running b = false →
  ∃ st', webui_patch_instance id req_body st
         = (Ok (Response 200 (BodyOkRestarted false)), st').
Proof.
  intros Hid Hrun. unfold webui_patch_instance, wrap, try_catch.
  rewrite bind_run. unfold lookup_browser at 1, read at 1. rewrite Hid, Hrun.
  rewrite bind_run. cbn [mret M_ret]. rewrite bind_run.
  set (c := (Config.sanitizeConfig _).1).
  change (controlBrowser "mod" id c) with (control_mod id c).
  unfold control_mod. rewrite bind_run. unfold lookup_browser at 1, read at 1.
  rewrite Hid. unfold put_browser, emit. rewrite !bind_run.
  unfold update. repeat (rewrite ret_run || rewrite bind_run).
  match goal with
  | |- context [saveBrowsersToStore ?s] =>
    destruct (saveBrowsersToStore_spec s) as (st2 & -> & _)
  end.
  by eexists.
Qed.

End SaveFacts.

(** C7, as amended.  Every save increments the version counter by one
    and writes the store.  A request of the Web UI that adds an instance
    always succeeds, and one that modifies or deletes an instance and
    succeeds, as it does for a stopped or an existing instance, leaves
    the counter one higher and, in the store, the whole configuration set
    of the registry.  [controlBrowser] by itself, which is all the local
    channel ["control"] runs, changes neither the store nor the counter. *)
Theorem config_saved_by_webui `{Main.Runtime} (id action : string)
  (req_body c : gmap string value) (bs : list (gmap string value))
  (st : Main.App) :
  (∃ st', Main.saveConfigs bs st = (Main.Ok tt, st')
     ∧ Main.configVersion st' = S (Main.configVersion st)
     ∧ Main.store_browsers st' = Some (Main.JSON_stringify bs))
  ∧ (∃ id' st',
       Main.webui_post_instance req_body st
         = (Main.Ok (Main.Response 201 (Main.BodyOkId id')), st')
       ∧ saved st st')
  ∧ (∀ r st', Main.webui_patch_instance id req_body st = (Main.Ok r, st') →
       Main.status r = 200 → saved st st')
  ∧ (∀ b, Main.browsers st !! id = Some b → Main.running b = false →
       ∃ st', Main.webui_patch_instance id req_body st
              = (Main.Ok (Main.Response 200 (Main.BodyOkRestarted false)), st'))
  ∧ (∀ r st', Main.webui_delete_instance id st = (Main.Ok r, st') →
       Main.status r = 200 → saved st st')
  ∧ (is_Some (Main.browsers st !! id) →
       ∃ st', Main.webui_delete_instance id st
              = (Main.Ok (Main.Response 200 Main.BodyOk), st'))
  ∧ unsaved st (Main.ipc_control action id c st).2.
Proof.
  split.
  { destruct (saveConfigs_spec bs st) as (st' & ? & ? & ? & _). eauto. }
  split.
  { destruct (post_returns req_body st) as (id' & st' & Hrun).
    exists id', st'. split; [done|].
    apply (saves_post req_body st _ st' Hrun). by right. }
  split.
  { intros r st' Hrun Hr. apply (saves_patch id req_body st r st' Hrun). by left. }
  split; [apply patch_returns|]. split.
  { intros r st' Hrun Hr. apply (saves_delete id st r st' Hrun). by left. }
  split; [apply delete_returns|].
  apply keeps_controlBrowser.
Qed.

Section SaveExamples.
Import Main Model.

Lemma config_saved_by_webui_witness :
  saved added (Main.webui_patch_instance "A" ∅ added).2
  ∧ (∃ st', Main.webui_patch_instance "A" ∅ added
            = (Main.Ok (Main.Response 200 (Main.BodyOkRestarted false)), st'))
  ∧ saved started (Main.webui_delete_instance "A" started).2
  ∧ (∃ st', Main.webui_delete_instance "A" started
            = (Main.Ok (Main.Response 200 Main.BodyOk), st')).
Proof.
  pose proof (config_saved_by_webui "A" "add" ∅ ∅ [] added)
    as (_ & _ & Hpatch & Hpatch' & _).
  pose proof (config_saved_by_webui "A" "add" ∅ ∅ [] started)
    as (_ & _ & _ & _ & Hdel & Hdel' & _).
  split; [|split; [|split]].
  - apply (Hpatch (Main.Response 200 (Main.BodyOkRestarted false)));
      [apply run_Ok; vm_compute; reflexivity|reflexivity].
  - apply (Hpatch' {| Main.cfg := cam; Main.worker_running := false |});
      reflexivity.
  - apply (Hdel (Main.Response 200 Main.BodyOk));
      [apply run_Ok; vm_compute; reflexivity|reflexivity].
  - apply Hdel'. exists {| Main.cfg := cam; Main.worker_running := true |}.
    reflexivity.
Defined.

(** C7 as stated fails on the local channel: an [add] made through the
    handler of ["control"] succeeds and leaves the version counter and the
    store as they were. *)
Lemma local_add_without_save_counterexample :
  (Main.ipc_control "add" "A" cam init).1 = Main.Ok tt
  ∧ Main.browsers (Main.ipc_control "add" "A" cam init).2 !! "A"
    = Some (Main.Browser_new cam)
  ∧ Main.configVersion (Main.ipc_control "add" "A" cam init).2
    = Main.configVersion init
  ∧ Main.store_browsers (Main.ipc_control "add" "A" cam init).2 = None
  ∧ Main.StoreSet "browsers" ∉ Main.effects (Main.ipc_control "add" "A" cam init).2.
Proof.
  split; [vm_compute; reflexivity|]. split; [reflexivity|].
  split; [vm_compute; reflexivity|]. split; [reflexivity|].
  apply (bool_decide_unpack _). vm_compute. reflexivity.
Qed.

End SaveExamples.

(** ** Import *)

Section ImportFacts.
Context `{Main.Runtime}.
Import Main.

Lemma readFile_run (file text : string) st :
  files st !! file = Some text → readFile file st = (Ok text, st).
Proof.
  intros Hf. unfold readFile. rewrite bind_run. unfold read. by rewrite Hf.
Qed.

Lemma readFile_missing (file : string) st :
  files st !! file = None →
  readFile file st = (Throw (Error "ENOENT: no such file or directory"), st).
Proof.
  intros Hf. unfold readFile. rewrite bind_run. unfold read. by rewrite Hf.
Qed.

End ImportFacts.

(** C5.  When the YAML parser throws on the content of the file,
    [importConfig] returns [false] and the whole state is the one before
    the call: the store, the version counter, the registry and the files
    are untouched and nothing was sent or written. *)
Theorem import_unparsable_untouched `{Main.Runtime} (file yaml : string)
  (st : Main.App) :
  Main.files st !! file = Some yaml →
  Main.jsYAML_load yaml = None →
  Main.importConfig file st = (Main.Ok (Some false), st).
Proof.
  intros Hfile Hload. unfold Main.importConfig.
  rewrite bind_run, (readFile_run file yaml st Hfile). by rewrite Hload.
Qed.

Section ImportExamples.
Import Main Model.

Lemma import_unparsable_untouched_witness :
  Main.importConfig "/cfg/bad.yaml"
    (set_files {["/cfg/bad.yaml" := "- BrowserTitle: [Cam1"]} started)
  = (Main.Ok (Some false),
     set_files {["/cfg/bad.yaml" := "- BrowserTitle: [Cam1"]} started).
Proof.
  apply (import_unparsable_untouched "/cfg/bad.yaml" "- BrowserTitle: [Cam1").
  - reflexivity.
  - vm_compute. reflexivity.
Defined.

End ImportExamples.

(** ** Export and import *)

Section RoundTripFacts.
Context `{Main.Runtime}.
Import Config Main.

Implicit Types (v : value) (t : jstype) (b d : gmap string value) (k : string).
Implicit Types (f g : field) (fs : list field).

(** Two values of a field are the same modulo the conversion to its
    declared external type: [Boolean], [Number] or [String] gives the
    same for both, the two zeros of the Number type taken as one. *)
Definition same_value t v1 v2 : Prop :=
  match t with
  | TBoolean => ToBoolean v1 = ToBoolean v2
  | TNumber => one_zero (ToNumber v1) = one_zero (ToNumber v2)
  | TString => ToString v1 = ToString v2
  end.

#[export] Instance same_value_dec t v1 v2 : Decision (same_value t v1 v2).
Proof. destruct t; cbn [same_value]; apply _. Defined.

(** The scalar of the type [t] that [v] converts to. *)
Definition scalar_of t v : value :=
  match t with
  | TBoolean => VBool (ToBoolean v)
  | TNumber => VNum (ToNumber v)
  | TString => VStr (ToString v)
  end.

(** The coercion chain of the program gives that scalar. *)
Lemma coerce_scalar_of t v : coerce t v = scalar_of t v.
Proof. by destruct t, v. Qed.

Lemma coerce_defined t v : coerce t v ≠ VUndefined.
Proof. rewrite coerce_scalar_of. by destruct t. Qed.

Lemma one_zero_idemp (n : num) : one_zero (one_zero n) = one_zero n.
Proof.
  unfold one_zero. destruct (decide (n = negzero)) as [->|Hn].
  - by rewrite decide_False by apply zero_not_negzero.
  - by rewrite decide_False.
Qed.

Lemma number_via_string (n : num) :
  one_zero (StringToNumber (NumberToString n)) = one_zero n.
Proof.
  destruct (decide (n = negzero)) as [->|Hn].
  - rewrite ToString_negzero, ToNumber_ToString by apply zero_not_negzero.
    unfold one_zero. rewrite decide_False by apply zero_not_negzero.
    by rewrite decide_True.
  - by rewrite ToNumber_ToString.
Qed.

(** The pairs of internal and external type the schema uses. *)
Definition schema_types : list (jstype * jstype) :=
  [(TString, TString); (TString, TNumber); (TBoolean, TBoolean);
   (TNumber, TNumber)].

Lemma fields_schema_types :
  Forall (λ f, (itype f, etype f) ∈ schema_types) fields.
Proof.
  unfold fields, schema_types.
  repeat (constructor; [cbn; set_solver|]). constructor.
Qed.

(** The one field that is kept as a Number. *)
Lemma number_field f : f ∈ fields → itype f = TNumber → iname f = "r".
Proof.
  assert (Forall (λ f, itype f = TNumber → iname f = "r") fields) as Hall.
  { unfold fields.
    repeat (constructor; [cbn [itype iname]; by intros ?|]). constructor. }
  rewrite Forall_forall in Hall. apply Hall.
Qed.

(** What export writes for a value, import reads back and the store
    keeps, is the same value modulo the external type, provided that a
    value kept as a Number is finite. *)
Lemma roundtrip_value (finite : num → bool) (it et : jstype) v :
  (it, et) ∈ schema_types →
  (it = TNumber → finite (ToNumber v) = true) →
  ∃ w, JSON_value finite (coerce it (coerce et v)) = Some w
       ∧ same_value et w v.
Proof.
  unfold schema_types. intros Hin Hfin. rewrite !coerce_scalar_of.
  repeat (apply elem_of_cons in Hin as [[= -> ->]|Hin]);
    [| | | |by apply elem_of_nil in Hin];
    cbn [scalar_of ToString ToNumber ToBoolean JSON_value].
  - eexists. split; [reflexivity|]. reflexivity.
  - eexists. split; [reflexivity|]. cbn [same_value ToNumber].
    apply number_via_string.
  - eexists. split; [reflexivity|]. reflexivity.
  - rewrite Hfin by done. eexists. split; [reflexivity|].
    cbn [same_value ToNumber]. apply one_zero_idemp.
Qed.

(** *** The names of the schema *)

Definition enames : list string := ename <$> fields.

Lemma enames_NoDup : NoDup enames.
Proof. apply (bool_decide_unpack _). vm_compute. reflexivity. Qed.

Lemma enames_not_inames : Forall (λ k, k ∉ inames) enames.
Proof. apply (bool_decide_unpack _). vm_compute. reflexivity. Qed.

Lemma id_not_ename : "id" ∉ enames.
Proof. apply (bool_decide_unpack _). vm_compute. reflexivity. Qed.

Lemma legacy_not_inames : Forall (λ k, k ∉ inames) legacyFields.
Proof. apply (bool_decide_unpack _). vm_compute. reflexivity. Qed.

Lemma ename_not_iname f g : f ∈ fields → g ∈ fields → ename f ≠ iname g.
Proof.
  intros Hf Hg Heq. pose proof enames_not_inames as Hall.
  rewrite Forall_forall in Hall. apply (Hall (ename f)).
  - by apply list_elem_of_fmap_2.
  - rewrite Heq. by apply list_elem_of_fmap_2.
Qed.

(** *** The loops of [importConfig] *)

Lemma import_field_other d g k :
  k ≠ iname g → k ≠ ename g → import_field d g !! k = d !! k.
Proof.
  intros Hi He. unfold import_field. case_decide; [done|].
  by rewrite lookup_insert_ne, lookup_delete_ne.
Qed.

Lemma import_loop_other fs d k :
  k ∉ iname <$> fs → k ∉ ename <$> fs →
  foldl import_field d fs !! k = d !! k.
Proof.
  revert d. induction fs as [|g fs IH]; intros d Hi He; cbn [foldl]; [done|].
  rewrite fmap_cons, not_elem_of_cons in Hi, He.
  destruct Hi as [Hi Hi'], He as [He He'].
  rewrite IH by done. by apply import_field_other.
Qed.

Lemma import_loop_field fs d f e :
  NoDup (iname <$> fs) → NoDup (ename <$> fs) →
  (∀ g1 g2, g1 ∈ fs → g2 ∈ fs → ename g1 ≠ iname g2) →
  f ∈ fs → d !! ename f = Some e → e ≠ VUndefined →
  foldl import_field d fs !! iname f = Some (coerce (itype f) e).
Proof.
  revert d. induction fs as [|g fs IH]; intros d Hni Hne Hdisj Hf Hd He.
  { by apply elem_of_nil in Hf. }
  rewrite fmap_cons in Hni, Hne.
  apply NoDup_cons in Hni as [Hgi Hni]. apply NoDup_cons in Hne as [Hge Hne].
  cbn [foldl]. apply elem_of_cons in Hf as [->|Hf].
  - rewrite import_loop_other.
    + unfold import_field, get. rewrite Hd. cbn [default].
      rewrite decide_False by done. apply lookup_insert_eq.
    + done.
    + intros Hin. apply list_elem_of_fmap in Hin as [g' [Heq Hg']].
      apply (Hdisj g' g); [by right|left|done].
  - apply IH; try done.
    + intros g1 g2 H1 H2. apply Hdisj; by right.
    + rewrite import_field_other; [done| |].
      * apply Hdisj; [by right|left].
      * intros Heq. apply Hge. rewrite <- Heq. by apply list_elem_of_fmap_2.
Qed.

Lemma delete_loop_other (ks : list string) d k :
  k ∉ ks → foldl (λ b lf, delete lf b) d ks !! k = d !! k.
Proof.
  revert d. induction ks as [|a ks IH]; intros d Hk; cbn [foldl]; [done|].
  rewrite not_elem_of_cons in Hk. destruct Hk as [Hne Hk].
  rewrite IH by done. by rewrite lookup_delete_ne.
Qed.

(** A record whose fields are all defined keeps their values through the
    sanitizer, unless its input type is the retired one. *)
Lemma sanitize_keeps b f :
  get b "it" ≠ VStr "video" → f ∈ fields → get b (iname f) ≠ VUndefined →
  (sanitizeConfig b).1 !! iname f = b !! iname f.
Proof.
  intros Hit Hf Hdef. rewrite sanitize_field by done.
  unfold filled, migrated. rewrite decide_False by done.
  by apply fill_loop_keeps.
Qed.

(** One imported record: every field holds what the file holds under
    its external name, coerced to the internal type. *)
Lemma import_browser_field d f e :
  (∀ g, g ∈ fields → get d (ename g) ≠ VUndefined) →
  coerce TString (get d "InputType") ≠ VStr "video" →
  f ∈ fields → d !! ename f = Some e →
  import_browser d !! iname f = Some (coerce (itype f) e).
Proof.
  intros Hall Hit Hf Hd. unfold import_browser.
  set (b1 := foldl import_field d fields).
  set (b2 := foldl (λ b lf, delete lf b) b1 legacyFields).
  assert (∀ g e', g ∈ fields → d !! ename g = Some e' →
            b2 !! iname g = Some (coerce (itype g) e')) as Hb2.
  { intros g e' Hg Hde. unfold b2. rewrite delete_loop_other.
    - unfold b1. apply import_loop_field; try done.
      + apply inames_NoDup.
      + apply enames_NoDup.
      + apply ename_not_iname.
      + specialize (Hall g Hg). unfold get in Hall. rewrite Hde in Hall. done.
    - intros Hin. pose proof legacy_not_inames as Hleg.
      rewrite Forall_forall in Hleg. apply (Hleg _ Hin).
      by apply list_elem_of_fmap_2. }
  assert (∀ g, g ∈ fields → ∃ e', d !! ename g = Some e') as Hsome.
  { intros g Hg. specialize (Hall g Hg). unfold get in Hall.
    destruct (d !! ename g); [by eexists|done]. }
  rewrite sanitize_keeps; [by apply Hb2|..|done|].
  - destruct (Hsome _ it_field) as [e' He'].
    pose proof (Hb2 _ e' it_field He') as Hx. cbn [iname itype ename] in Hx, He'.
    unfold get in *. rewrite Hx. rewrite He' in Hit. cbn [default] in *.
    done.
  - destruct (Hsome f Hf) as [e' He'].
    unfold get. rewrite (Hb2 f e' Hf He'). apply coerce_defined.
Qed.

(** *** The exported file and what is read back from it *)

(** What a YAML reader that reads back the scalars of a block gives for
    the block of a record: under the external name of each field, the
    value of the field converted to the external type. *)
Definition yaml_doc b : gmap string value :=
  list_to_map ((λ f, (ename f, scalar_of (etype f) (get b (iname f)))) <$> fields).

(** The configurations in the store: [JSON.parse(store.get("browsers"))]. *)
Definition stored_configs (st : App) : list (gmap string value) :=
  match store_browsers st with
  | Some j => JSON_parse j
  | None => []
  end.

(** A configuration with every field of the schema and an input type
    that does not read as the retired one. *)
Definition complete b : Prop :=
  (∀ f, f ∈ fields → get b (iname f) ≠ VUndefined)
  ∧ ToString (get b "it") ≠ "video".

#[export] Instance complete_dec b : Decision (complete b).
Proof.
  refine (cast_if (decide (Forall (λ f, get b (iname f) ≠ VUndefined) fields
                           ∧ ToString (get b "it") ≠ "video")));
    unfold complete; rewrite <- Forall_forall; tauto.
Defined.

Lemma yaml_doc_lookup b f :
  f ∈ fields → yaml_doc b !! ename f = Some (coerce (etype f) (get b (iname f))).
Proof.
  intros Hf. unfold yaml_doc. rewrite coerce_scalar_of.
  apply elem_of_list_to_map_1.
  - rewrite <- list_fmap_compose. apply enames_NoDup.
  - by apply (list_elem_of_fmap_2
                (λ f, (ename f, scalar_of (etype f) (get b (iname f))))).
Qed.

Lemma yaml_lines_ext b b' (line : nat) fs :
  (∀ f, f ∈ fs → get b (iname f) = get b' (iname f)) →
  yaml_lines b line fs = yaml_lines b' line fs.
Proof.
  revert line. induction fs as [|f fs IH]; intros line Hext; [done|].
  cbn [yaml_lines]. unfold yaml_line. rewrite (Hext f) by left.
  rewrite IH; [done|]. intros g Hg. apply Hext. by right.
Qed.

Lemma complete_it b : complete b → get b "it" ≠ VStr "video".
Proof. intros [_ Hit] Heq. apply Hit. by rewrite Heq. Qed.

Lemma exported_get b f :
  complete b → f ∈ fields →
  get (delete "id" (sanitizeConfig b).1) (iname f) = get b (iname f).
Proof.
  intros Hc Hf. unfold get. rewrite lookup_delete_ne.
  - rewrite sanitize_keeps; [done|by apply complete_it|done|by apply Hc].
  - intros Heq. apply id_not_iname. rewrite Heq. by apply list_elem_of_fmap_2.
Qed.

Lemma exported_blocks (bs : list (gmap string value)) :
  Forall complete bs →
  yaml_blocks (delete "id" <$> ((λ b, (sanitizeConfig b).1) <$> bs))
  = yaml_blocks bs.
Proof.
  intros Hall. unfold yaml_blocks. f_equal.
  rewrite <- list_fmap_compose, <- list_fmap_compose.
  apply Forall_fmap_ext_1. eapply Forall_impl; [exact Hall|].
  intros b Hb. cbn. unfold yaml_block. f_equal.
  apply yaml_lines_ext. intros f Hf. by apply exported_get.
Qed.

Lemma loadConfigs_run st :
  ∃ st', loadConfigs st
         = (Ok ((λ b, (sanitizeConfig b).1) <$> stored_configs st), st')
    ∧ files st' = files st ∧ uuids st' = uuids st.
Proof.
  unfold loadConfigs, stored_configs. rewrite bind_run. unfold read at 1.
  destruct (store_browsers st) as [j|]; cbv beta iota.
  - rewrite bind_run. case_bool_decide.
    + destruct (saveConfigs_spec ((λ b, (sanitizeConfig b).1) <$> JSON_parse j) st)
        as (st' & Hs & _). rewrite Hs. eexists. split; [reflexivity|].
      apply (f_equal snd) in Hs. cbn in Hs. by subst st'.
    + eexists. split; [reflexivity|done].
  - rewrite bind_run. eexists. split; [reflexivity|done].
Qed.

Lemma exportConfig_run (file : string) st :
  Forall complete (stored_configs st) →
  ∃ st', exportConfig file st = (Ok tt, st')
    ∧ files st' !! file
      = Some (export_header ++ yaml_blocks (stored_configs st))
    ∧ uuids st' = uuids st.
Proof.
  intros Hall. unfold exportConfig. rewrite bind_run.
  destruct (loadConfigs_run st) as (st1 & -> & Hf & Hu).
  unfold writeFile. rewrite bind_run. unfold read at 1. rewrite bind_run.
  eexists. split; [reflexivity|]. cbn. rewrite lookup_insert_eq.
  by rewrite exported_blocks.
Qed.

Lemma import_browsers_spec (n : nat) (docs : list (gmap string value)) :
  Forall2 (λ d b2, b2 = import_browser d
                   ∨ ∃ u, b2 = import_browser (<["id" := VStr u]> d))
    docs (import_browsers n docs).1.
Proof.
  revert n. induction docs as [|d docs IH]; intros n; cbn [import_browsers].
  { constructor. }
  case_decide.
  - specialize (IH (S n)). destruct (import_browsers (S n) docs) as [rest n'].
    constructor; [right; by eexists|done].
  - specialize (IH n). destruct (import_browsers n docs) as [rest n'].
    constructor; [by left|done].
Qed.

Lemma importConfig_run (file text : string) st r :
  files st !! file = Some text → jsYAML_load text = Some r →
  ∃ st', importConfig file st = (Ok None, st')
    ∧ store_browsers st'
      = Some (JSON_stringify (import_browsers (uuids st) (default [] r)).1)
    ∧ configVersion st' = S (configVersion st).
Proof.
  intros Hfile Hload. unfold importConfig.
  rewrite bind_run, (readFile_run file text st Hfile), Hload.
  rewrite bind_run. unfold read at 1.
  destruct (import_browsers (uuids st) (default [] r)) as [bs n].
  rewrite bind_run. unfold update at 1. rewrite bind_run.
  destruct (saveConfigs_spec bs (set_uuids n st)) as (st' & -> & Hv & Hs & _).
  eexists. split; [reflexivity|]. by rewrite Hv, Hs.
Qed.

Lemma Forall2_with_Forall {A B} (P : A → Prop) (R Q : A → B → Prop)
  (l : list A) (k : list B) :
  Forall P l → Forall2 R l k → (∀ x y, P x → R x y → Q x y) → Forall2 Q l k.
Proof.
  intros HP HR Himp. induction HR; inversion HP; subst; constructor; eauto.
Qed.

(** A record read back from the file, with or without a new id, imports
    to the values that were exported. *)
Lemma import_doc_field b0 d f :
  complete b0 →
  (d = yaml_doc b0 ∨ ∃ u, d = <["id" := VStr u]> (yaml_doc b0)) →
  f ∈ fields →
  import_browser d !! iname f
  = Some (coerce (itype f) (coerce (etype f) (get b0 (iname f)))).
Proof.
  intros [Hdef Hit] Hd Hf.
  assert (∀ g, g ∈ fields →
            d !! ename g = Some (coerce (etype g) (get b0 (iname g)))) as Hlook.
  { intros g Hg. destruct Hd as [->|[u ->]].
    - by apply yaml_doc_lookup.
    - rewrite lookup_insert_ne; [by apply yaml_doc_lookup|].
      intros Heq. apply id_not_ename. rewrite Heq. by apply list_elem_of_fmap_2. }
  apply import_browser_field.
  - intros g Hg. unfold get. rewrite (Hlook g Hg). apply coerce_defined.
  - pose proof (Hlook _ it_field) as Hx. cbn [ename etype iname] in Hx.
    unfold get at 1. rewrite Hx. cbn [default]. unfold id.
    rewrite !coerce_scalar_of. cbn [scalar_of ToString]. congruence.
  - done.
  - by apply Hlook.
Qed.

(** The same record as the store gives it back. *)
Lemma stored_doc_field (finite : num → bool) b0 d f :
  complete b0 → finite (ToNumber (get b0 "r")) = true →
  (d = yaml_doc b0 ∨ ∃ u, d = <["id" := VStr u]> (yaml_doc b0)) →
  f ∈ fields →
  same_value (etype f)
    (get (JSON_object finite (import_browser d)) (iname f))
    (get b0 (iname f)).
Proof.
  intros Hc Hfin Hd Hf.
  destruct (roundtrip_value finite (itype f) (etype f) (get b0 (iname f)))
    as (w & Hw & Hsame).
  { pose proof fields_schema_types as Hty. rewrite Forall_forall in Hty.
    by apply Hty. }
  { intros Hnum. by rewrite (number_field f Hf Hnum). }
  unfold get at 1, JSON_object. rewrite lookup_omap.
  rewrite (import_doc_field b0 d f Hc Hd Hf). cbn [mbind option_bind].
  by rewrite Hw.
Qed.

End RoundTripFacts.


Section RoundTripExamples.
Import Main Model.


(** The store after the export and the import of the example above. *)
Definition returned : App :=
  after (Main.importConfig "/cfg/export.yaml")
    (after (Main.exportConfig "/cfg/export.yaml") stored).

(** The values the example ends with: the zoom factor ["1.0"] has become
    ["1"], which is the same Number. *)
Lemma roundtrip_values :
  (λ b, (get b "t", get b "w", get b "z", get b "N", get b "r"))
    <$> stored_configs stored
  = [(VStr "Cam1", VStr "1280", VStr "1.0", VBool true, VNum (ZInt 48000))]
  ∧ (λ b, (get b "t", get b "w", get b "z", get b "N", get b "r"))
      <$> stored_configs returned
    = [(VStr "Cam1", VStr "1280", VStr "1", VBool true, VNum (ZInt 48000))].
Proof. apply (bool_decide_unpack _). vm_compute. exact I. Qed.

(** A stored sample rate that is no numeral, and the states after the
    export and after the import that follows. *)
Definition mistuned : App :=
  after (Main.saveConfigs [<["r" := VStr "abc"]> cam]) init.

Definition mistuned_exported : App :=
  after (Main.exportConfig "/cfg/export.yaml") mistuned.

Definition mistuned_returned : App :=
  after (Main.importConfig "/cfg/export.yaml") mistuned_exported.


End RoundTripExamples.

(** ** Shutdown *)

Section ShutdownFacts.
Context `{Main.Runtime}.
Import Config Main.

Implicit Types (id file : string) (st : App) (b : Browser).

(** What [loadConfigs] sends out: the write of the store, when the
    store was empty or a record was changed by the sanitizer. *)
Definition load_events st : list event :=
  let '(bs, changed) :=
    match store_browsers st with
    | Some j => (JSON_parse j, 0)
    | None => ([], 1)
    end in
  if bool_decide (0 < changed + sum_list ((λ c, (sanitizeConfig c).2) <$> bs))
  then [StoreSet "browsers"] else [].

Lemma loadConfigs_frame st :
  ∃ bs st', loadConfigs st = (Ok bs, st')
    ∧ effects st' = (effects st ++ load_events st)%list
    ∧ browsers st' = browsers st
    ∧ configFile st' = configFile st
    ∧ control_destroyed st' = control_destroyed st.
Proof.
  unfold loadConfigs, load_events. rewrite bind_run. unfold read at 1.
  destruct (store_browsers st) as [j|]; cbv beta iota.
  - rewrite bind_run. case_bool_decide.
    + destruct (saveConfigs_spec ((λ c, (sanitizeConfig c).1) <$> JSON_parse j) st)
        as (st' & Hs & _ & _ & Hb & He).
      rewrite Hs. do 2 eexists. split; [reflexivity|].
      apply (f_equal snd) in Hs. cbn in Hs. subst st'. done.
    + do 2 eexists. split; [reflexivity|]. by rewrite app_nil_r.
  - rewrite bind_run. do 2 eexists. split; [reflexivity|]. done.
Qed.

(** What [performAutosave] sends out. *)
Definition autosave_events st : list event :=
  if String.eqb (autosaveFile st) EmptyString then []
  else (load_events st
        ++ [FileWrite (autosaveFile st)]
        ++ (if control_destroyed st then []
            else [IpcSend "autosave-done" (autosaveFile st)]))%list.

Lemma setting_or_run (key : string) (dflt : value) st :
  ∃ v, setting_or key dflt st = (Ok v, st).
Proof. by eexists. Qed.

Lemma performAutosave_frame st :
  ∃ st', performAutosave st = (Ok tt, st')
    ∧ effects st' = (effects st ++ autosave_events st)%list
    ∧ browsers st' = browsers st
    ∧ configFile st' = configFile st.
Proof.
  unfold performAutosave, autosave_events. rewrite bind_run. unfold read at 1.
  destruct (String.eqb (autosaveFile st) EmptyString).
  { eexists. split; [reflexivity|]. by rewrite app_nil_r. }
  unfold try_catch, autosaveConfig. rewrite !bind_run.
  destruct (loadConfigs_frame st) as (bs & st1 & -> & He & Hb & Hc & Hd).
  repeat (rewrite bind_run;
          match goal with
          | |- context [setting_or ?k ?d st1] =>
            destruct (setting_or_run k d st1) as [? ->]
          end).
  unfold writeFile. mrun. cbn [control_destroyed with_effect set_files].
  rewrite Hd. destruct (control_destroyed st); mrun;
    (eexists; split; [reflexivity|]); cbn; rewrite He, <- !app_assoc; done.
Qed.

Lemma exportConfig_frame file st :
  ∃ st' ld, exportConfig file st = (Ok tt, st')
    ∧ effects st' = (effects st ++ ld ++ [FileWrite file])%list
    ∧ ld = load_events st
    ∧ browsers st' = browsers st.
Proof.
  unfold exportConfig. rewrite bind_run.
  destruct (loadConfigs_frame st) as (bs & st1 & -> & He & Hb & Hc & Hd).
  unfold writeFile. mrun.
  eexists. exists (load_events st). split; [reflexivity|]. cbn.
  rewrite He, <- !app_assoc. done.
Qed.

(** *** Stopping every running instance *)

Definition stop_events id b : list event :=
  [IpcSend "browser-stop" id; WorkerCall "stop" id;
   IpcSend "browser-stopped" id;
   Syslog "info" "instance" (instance_message "stopped" (get (cfg b) "t") id)].

(** What ["stop-all"] sends out over the ids [ids]. *)
Definition stop_all_events st (ids : list string) : list event :=
  concat ((λ id, match browsers st !! id with
                 | Some b => if running b then stop_events id b else []
                 | None => []
                 end) <$> ids).

Lemma stop_running_frame id st b :
  browsers st !! id = Some b → running b = true →
  ∃ st', control_stop id st = (Ok tt, st')
    ∧ browsers st' = <[id := set_running false b]> (browsers st)
    ∧ effects st' = (effects st ++ stop_events id b)%list
    ∧ configFile st' = configFile st.
Proof.
  intros Hid Hrun. unfold control_stop. mrun. rewrite Hid, Hrun.
  cbv beta iota. cbn [negb]. mrun.
  eexists. split; [reflexivity|]. cbn. rewrite <- !app_assoc. done.
Qed.

Lemma set_running_stopped b : running b = false → set_running false b = b.
Proof. destruct b as [c r]. cbn. by intros ->. Qed.

Lemma stop_all_events_ext st st' ids :
  (∀ id, id ∈ ids → browsers st' !! id = browsers st !! id) →
  stop_all_events st' ids = stop_all_events st ids.
Proof.
  intros Hext. unfold stop_all_events. f_equal.
  apply Forall_fmap_ext_1, Forall_forall. intros id Hid. by rewrite Hext.
Qed.

Lemma bulk_stop ids st :
  NoDup ids → (∀ id, id ∈ ids → is_Some (browsers st !! id)) →
  ∃ st', bulk running control_stop ids st = (Ok tt, st')
    ∧ effects st' = (effects st ++ stop_all_events st ids)%list
    ∧ configFile st' = configFile st
    ∧ (∀ id, browsers st' !! id =
             if decide (id ∈ ids) then set_running false <$> browsers st !! id
             else browsers st !! id).
Proof.
  revert st. induction ids as [|id ids IH]; intros st Hnd Hall.
  { exists st. cbn. rewrite app_nil_r. repeat split; done. }
  apply NoDup_cons in Hnd as [Hid Hnd].
  destruct (Hall id) as [b Hb]; [left|].
  cbn [bulk]. rewrite Hb.
  assert (stop_all_events st (id :: ids)
          = ((if running b then stop_events id b else [])
             ++ stop_all_events st ids)%list) as Hev.
  { unfold stop_all_events. cbn [fmap list_fmap concat]. by rewrite Hb. }
  destruct (running b) eqn:Hrun.
  - destruct (stop_running_frame id st b Hb Hrun) as (st1 & -> & Hb1 & He1 & Hc1).
    destruct (IH st1 Hnd) as (st2 & -> & He2 & Hc2 & Hb2).
    { intros id' Hin. rewrite Hb1, lookup_insert_ne by set_solver.
      apply Hall. by right. }
    exists st2. split; [done|]. split; [|split; [congruence|]].
    + rewrite He2, He1, Hev, <- app_assoc. f_equal. f_equal.
      apply stop_all_events_ext. intros id' Hin.
      rewrite Hb1, lookup_insert_ne; [done|]. intros ->. done.
    + intros id'. rewrite Hb2, Hb1. destruct (decide (id' = id)) as [->|Hne].
      * rewrite decide_False by done. rewrite decide_True by left.
        by rewrite lookup_insert_eq, Hb.
      * rewrite lookup_insert_ne by done.
        apply decide_ext. rewrite elem_of_cons. intuition congruence.
  - destruct (IH st Hnd) as (st2 & -> & He2 & Hc2 & Hb2).
    { intros id' Hin. apply Hall. by right. }
    exists st2. split; [done|]. split; [by rewrite He2, Hev|]. split; [done|].
    intros id'. rewrite Hb2. destruct (decide (id' = id)) as [->|Hne].
    + rewrite decide_False by done. rewrite decide_True by left.
      rewrite Hb. cbn. by rewrite set_running_stopped.
    + apply decide_ext. rewrite elem_of_cons. intuition congruence.
Qed.

(** ["stop-all"] on the whole registry. *)
Lemma stop_all_frame (c : gmap string value) st :
  ∃ st', controlBrowser "stop-all" EmptyString c st = (Ok tt, st')
    ∧ effects st' = (effects st ++ stop_all_events st (browser_ids st))%list
    ∧ configFile st' = configFile st
    ∧ browsers st' = set_running false <$> browsers st.
Proof.
  destruct (bulk_stop (browser_ids st) st (browser_ids_NoDup st))
    as (st' & Hrun & He & Hc & Hb).
  { intros id. apply elem_of_browser_ids. }
  exists st'. split; [exact Hrun|]. split; [done|]. split; [done|].
  apply map_eq. intros id. rewrite Hb, lookup_fmap.
  case_decide as Hin; [done|].
  destruct (browsers st !! id) eqn:Hid; [|done].
  exfalso. apply Hin, elem_of_browser_ids. by eexists.
Qed.

(** *** The handler of the close event *)

Definition timer_events st : list event :=
  ((if timer st then [TimerCleared "usage"] else [])
   ++ (if autosaveTimer st then [TimerCleared "autosave"] else []))%list.

Definition export_events st (ld : list event) : list event :=
  match configFile st with
  | Some file => ([IpcSend "save" EmptyString] ++ ld ++ [FileWrite file])%list
  | None => []
  end.

Lemma load_events_cases st :
  load_events st = [] ∨ load_events st = [StoreSet "browsers"].
Proof.
  unfold load_events. destruct (store_browsers st); case_bool_decide; auto.
Qed.

Lemma browser_ids_ext st st' :
  browsers st' = browsers st → browser_ids st' = browser_ids st.
Proof. unfold browser_ids. by intros ->. Qed.

(** The handler after the two timers are cleared. *)
Definition close_rest : M unit :=
  performAutosave ;;
  controlBrowser "stop-all" EmptyString ∅ ;;
  (s ← read api; if ToBoolean (hapi s) then api_stop else mret tt) ;;
  (s ← read webui; if ToBoolean (hapi s) then webui_stop else mret tt) ;;
  (cf ← read configFile;
   match cf with
   | Some file => emit (IpcSend "save" EmptyString) ;; exportConfig file
   | None => mret tt
   end) ;;
  emit BoundsSaved ;;
  emit ControlDestroyed ;;
  update (set_control_destroyed true).

Lemma close_rest_run st :
  ∃ st' ld,
    close_rest st = (Ok tt, st')
    ∧ effects st' =
        (effects st ++ autosave_events st
         ++ stop_all_events st (browser_ids st)
         ++ export_events st ld ++ [BoundsSaved; ControlDestroyed])%list
    ∧ (ld = [] ∨ ld = [StoreSet "browsers"])
    ∧ browsers st' = set_running false <$> browsers st
    ∧ control_destroyed st' = true.
Proof.
  unfold close_rest. rewrite bind_run.
  destruct (performAutosave_frame st) as (st2 & -> & He2 & Hb2 & Hc2).
  rewrite bind_run.
  destruct (stop_all_frame ∅ st2) as (st3 & -> & He3 & Hc3 & Hb3).
  rewrite bind_run, bind_run, read_run. cbv beta iota.
  change (ToBoolean (hapi (api st3))) with false. cbv beta iota.
  rewrite ret_run, bind_run, bind_run, read_run. cbv beta iota.
  change (ToBoolean (hapi (webui st3))) with false. cbv beta iota.
  rewrite ret_run, bind_run, bind_run, read_run. cbv beta iota.
  assert (stop_all_events st2 (browser_ids st2)
          = stop_all_events st (browser_ids st)) as Hse.
  { rewrite (browser_ids_ext st2 st) by congruence.
    apply stop_all_events_ext. intros id _. congruence. }
  assert (configFile st3 = configFile st) as Hc by congruence.
  unfold export_events. rewrite Hc. destruct (configFile st) as [file|].
  - rewrite bind_run, emit_run.
    destruct (exportConfig_frame file (with_effect (IpcSend "save" EmptyString) st3))
      as (st4 & ld & -> & He4 & Hld & Hb4).
    mrun. exists (set_control_destroyed true
                    (with_effect ControlDestroyed (with_effect BoundsSaved st4))).
    exists ld. split; [reflexivity|]. cbn.
    rewrite He4. cbn. rewrite He3, He2, Hse, <- !app_assoc. cbn.
    split; [done|]. split; [subst ld; apply load_events_cases|].
    split; [|done]. rewrite Hb4. cbn. congruence.
  - mrun. exists (set_control_destroyed true
                    (with_effect ControlDestroyed (with_effect BoundsSaved st3))).
    exists []. split; [reflexivity|]. cbn.
    rewrite He3, He2, Hse, <- !app_assoc. cbn.
    split; [done|]. split; [by left|]. split; [|done]. congruence.
Qed.

Lemma on_close_unfold :
  on_close =
  ((read timer ≫= λ t : bool,
    if t then emit (TimerCleared "usage") ;; update (set_timer false)
    else mret tt) ;;
   (read autosaveTimer ≫= λ t : bool,
    if t then emit (TimerCleared "autosave") ;; update (set_autosaveTimer false)
    else mret tt) ;;
   close_rest).
Proof. reflexivity. Qed.

Lemma on_close_run st :
  ∃ st' ld,
    on_close st = (Ok tt, st')
    ∧ effects st' =
        (effects st ++ timer_events st ++ autosave_events st
         ++ stop_all_events st (browser_ids st)
         ++ export_events st ld ++ [BoundsSaved; ControlDestroyed])%list
    ∧ (ld = [] ∨ ld = [StoreSet "browsers"])
    ∧ browsers st' = set_running false <$> browsers st
    ∧ control_destroyed st' = true.
Proof.
  rewrite on_close_unfold. unfold timer_events.
  rewrite bind_run, bind_run, read_run. cbv beta iota.
  destruct (timer st) eqn:Ht; mrun; cbn [autosaveTimer set_timer with_effect];
    destruct (autosaveTimer st) eqn:Hat; mrun;
    match goal with
    | |- context [close_rest ?s] =>
      destruct (close_rest_run s) as (st' & ld & -> & He & Hld & Hb & Hd)
    end;
    exists st', ld; (split; [reflexivity|]);
    cbn in He; rewrite He, <- ?app_assoc; cbn; done.
Qed.

Lemma elem_of_stop_all_events st ids (e : event) :
  e ∈ stop_all_events st ids ↔
  ∃ id b, id ∈ ids ∧ browsers st !! id = Some b ∧ running b = true
          ∧ e ∈ stop_events id b.
Proof.
  unfold stop_all_events. induction ids as [|id ids IH]; cbn [fmap list_fmap concat].
  { split; [by intros ?%elem_of_nil|]. by intros (? & ? & ?%elem_of_nil & _). }
  rewrite elem_of_app, IH. split.
  - intros [Hin|(id' & b & Hid' & Hb & Hr & He)].
    + destruct (browsers st !! id) as [b|] eqn:Hb; [|by apply elem_of_nil in Hin].
      destruct (running b) eqn:Hr; [|by apply elem_of_nil in Hin].
      exists id, b. split; [left|done].
    + exists id', b. split; [by right|done].
  - intros (id' & b & Hid' & Hb & Hr & He).
    apply elem_of_cons in Hid' as [->|Hid'].
    + left. by rewrite Hb, Hr.
    + right. by exists id', b.
Qed.

Lemma stops_in_stop_all st id :
  WorkerCall "stop" id ∈ stop_all_events st (browser_ids st) ↔
  ∃ b, browsers st !! id = Some b ∧ running b = true.
Proof.
  rewrite elem_of_stop_all_events. split.
  - intros (id' & b & _ & Hb & Hr & He). unfold stop_events in He.
    repeat (apply elem_of_cons in He as [He|He]; try discriminate He).
    + injection He as ->. by exists b.
    + by apply elem_of_nil in He.
  - intros (b & Hb & Hr). exists id, b. split.
    { apply elem_of_browser_ids. by eexists. }
    split; [done|]. split; [done|]. unfold stop_events. right. left.
Qed.

Lemma no_write_in_stop_all st ids file :
  FileWrite file ∉ stop_all_events st ids.
Proof.
  rewrite elem_of_stop_all_events. intros (id & b & _ & _ & _ & He).
  unfold stop_events in He.
  repeat (apply elem_of_cons in He as [He|He]; try discriminate He).
  by apply elem_of_nil in He.
Qed.

Lemma write_in_autosave st :
  autosaveFile st ≠ EmptyString →
  FileWrite (autosaveFile st) ∈ autosave_events st
  ∧ ∀ id, WorkerCall "stop" id ∉ autosave_events st.
Proof.
  intros Hf. unfold autosave_events.
  destruct (String.eqb_spec (autosaveFile st) EmptyString) as [|_]; [done|].
  split.
  - apply elem_of_app. right. left.
  - intros id. destruct (load_events_cases st) as [-> | ->];
      destruct (control_destroyed st); intros Hin; cbn in Hin;
      repeat (apply elem_of_cons in Hin as [Hin|Hin]; try discriminate Hin);
      by apply elem_of_nil in Hin.
Qed.

End ShutdownFacts.


Section ShutdownExamples.
Import Main Model.



End ShutdownExamples.

(** ** The media paths *)

Section MediaFacts.
Import Media.

Implicit Types (p s a b : string) (segs : list string).

Definition slash : ascii := "/"%char.

Fixpoint no_slash s : bool :=
  match s with
  | EmptyString => true
  | String c s' => negb (Ascii.eqb c slash) && no_slash s'
  end.

(** A name of a directory entry: no slash, and none of the empty string,
    ["."] and [".."]. *)
Definition plain s : Prop :=
  no_slash s = true ∧ s ≠ EmptyString ∧ s ≠ "." ∧ s ≠ "..".

(** The absolute path with the pieces [segs]. *)
Definition abs segs : string := "/" ++ unsplit segs.

Lemma segments_nonempty p : segments p ≠ [].
Proof.
  destruct p as [|c p]; cbn [segments]; [done|].
  destruct (Ascii.eqb c "/"); [done|]. by destruct (segments p).
Qed.

Lemma segments_no_slash p s : s ∈ segments p → no_slash s = true.
Proof.
  revert s. induction p as [|c p IH]; intros s; cbn [segments].
  - by intros ->%list_elem_of_singleton.
  - destruct (Ascii.eqb c "/") eqn:Hc.
    + intros [->|Hin]%elem_of_cons; [done|by apply IH].
    + pose proof (segments_nonempty p) as Hne.
      destruct (segments p) as [|s0 ss]; [done|].
      intros [->|Hin]%elem_of_cons.
      * cbn [no_slash]. unfold slash. rewrite Hc. cbn. apply IH. left.
      * apply IH. by right.
Qed.

Lemma last_elem_or_default {A} (l : list A) (d : A) :
  List.last l d = d ∨ List.last l d ∈ l.
Proof.
  induction l as [|x l IH]; [by left|].
  destruct l as [|y l]; [right; left|].
  change (List.last (x :: y :: l) d) with (List.last (y :: l) d).
  destruct IH as [->|Hin]; [by left|right; by right].
Qed.

Lemma basename_no_slash p : no_slash (basename p) = true.
Proof.
  unfold basename.
  destruct (last_elem_or_default (List.filter nonempty (segments p)) EmptyString)
    as [->|Hin]; [done|].
  apply list_elem_of_In, List.filter_In in Hin as [Hin _].
  apply list_elem_of_In in Hin. by eapply segments_no_slash.
Qed.

Lemma segments_plain s : no_slash s = true → segments s = [s].
Proof.
  induction s as [|c s IH]; [done|]. cbn [no_slash segments].
  intros [Hc Hs]%andb_true_iff. apply negb_true_iff in Hc.
  unfold slash in Hc. rewrite Hc, (IH Hs). done.
Qed.

Lemma segments_app a b :
  segments (a ++ "/" ++ b) = (segments a ++ segments b)%list.
Proof.
  induction a as [|c a IH]; [done|].
  change (String c a ++ "/" ++ b) with (String c (a ++ "/" ++ b)).
  cbn [segments]. rewrite IH. destruct (Ascii.eqb c "/"); [done|].
  pose proof (segments_nonempty a) as Hne.
  by destruct (segments a).
Qed.

Lemma segments_unsplit segs :
  Forall (λ s, no_slash s = true) segs → segs ≠ [] →
  segments (unsplit segs) = segs.
Proof.
  induction segs as [|s segs IH]; [done|]. intros Hall _.
  apply Forall_cons in Hall as [Hs Hall].
  destruct segs as [|s' segs]; [by apply segments_plain|].
  change (unsplit (s :: s' :: segs)) with (s ++ "/" ++ unsplit (s' :: segs)).
  rewrite segments_app, segments_plain, IH; done.
Qed.

Lemma segments_abs segs :
  Forall (λ s, no_slash s = true) segs → segs ≠ [] →
  segments (abs segs) = EmptyString :: segs.
Proof.
  intros Hall Hne. unfold abs.
  change ("/" ++ unsplit segs) with (EmptyString ++ "/" ++ unsplit segs).
  by rewrite segments_app, segments_unsplit.
Qed.

Lemma append_nil_r s : s ++ EmptyString = s.
Proof.
  induction s as [|c s IH]; [done|].
  change (String c s ++ EmptyString) with (String c (s ++ EmptyString)).
  by rewrite IH.
Qed.

Lemma append_assoc a b s : (a ++ b) ++ s = a ++ b ++ s.
Proof.
  induction a as [|c a IH]; [done|].
  change ((String c a ++ b) ++ s) with (String c ((a ++ b) ++ s)).
  change (String c a ++ b ++ s) with (String c (a ++ b ++ s)).
  by rewrite IH.
Qed.

Lemma plain_tests s :
  plain s →
  String.eqb s EmptyString = false ∧ String.eqb s "." = false
  ∧ String.eqb s ".." = false.
Proof.
  intros (_ & H1 & H2 & H3). by rewrite <- !String.eqb_neq in *.
Qed.

Lemma normalize_segments_plain (allow : bool) res segs rest :
  Forall plain segs →
  normalize_segments allow res (segs ++ rest)
  = normalize_segments allow (rev segs ++ res) rest.
Proof.
  revert res. induction segs as [|s segs IH]; intros res Hall; [done|].
  apply Forall_cons in Hall as [Hs Hall].
  destruct (plain_tests s Hs) as (H1 & H2 & H3).
  rewrite <- app_comm_cons. cbn [normalize_segments]. rewrite H1, H2, H3.
  cbn [orb]. rewrite IH by done. cbn [rev]. by rewrite <- app_assoc.
Qed.

Lemma unsplit_plain_nonempty segs :
  Forall plain segs → segs ≠ [] → unsplit segs ≠ EmptyString.
Proof.
  destruct segs as [|s segs]; [done|]. intros Hall _.
  apply Forall_cons in Hall as [(_ & Hs & _) _].
  destruct s as [|c s]; [done|]. by destruct segs.
Qed.

Lemma trailingSeparator_app a b :
  b ≠ EmptyString → trailingSeparator (a ++ b) = trailingSeparator b.
Proof.
  intros Hb. induction a as [|c a IH]; [done|].
  change (String c a ++ b) with (String c (a ++ b)). cbn [trailingSeparator].
  destruct (a ++ b) eqn:Hab; [|done].
  destruct a; [by cbn in Hab|discriminate Hab].
Qed.

Lemma trailingSeparator_plain s :
  no_slash s = true → trailingSeparator s = false.
Proof.
  induction s as [|c s IH]; [done|]. cbn [no_slash trailingSeparator].
  intros [Hc Hs]%andb_true_iff. apply negb_true_iff in Hc.
  destruct s; [done|]. by apply IH.
Qed.

Lemma trailingSeparator_unsplit segs :
  Forall plain segs → trailingSeparator (unsplit segs) = false.
Proof.
  induction segs as [|s segs IH]; [done|]. intros Hall.
  apply Forall_cons in Hall as [Hs Hall].
  destruct segs as [|s' segs]; [apply trailingSeparator_plain, Hs|].
  change (unsplit (s :: s' :: segs)) with (s ++ "/" ++ unsplit (s' :: segs)).
  rewrite trailingSeparator_app.
  - change ("/" ++ unsplit (s' :: segs)) with (String slash (unsplit (s' :: segs))).
    pose proof (unsplit_plain_nonempty (s' :: segs) Hall) as Hne.
    cbn [trailingSeparator].
    destruct (unsplit (s' :: segs)) eqn:Hu; [by destruct Hne|]. by apply IH.
  - done.
Qed.

Lemma plain_no_slash segs :
  Forall plain segs → Forall (λ s, no_slash s = true) segs.
Proof. intros Hall. eapply Forall_impl; [exact Hall|]. by intros s [? _]. Qed.

(** The normal form of the media directory with one more piece. *)
Lemma normalize_in_dir segs s :
  Forall plain segs → segs ≠ [] → no_slash s = true → s ≠ EmptyString →
  normalize (abs segs ++ "/" ++ s) =
  if String.eqb s "." then abs segs
  else if String.eqb s ".." then abs (removelast segs)
  else abs (segs ++ [s]).
Proof.
  intros Hall Hne Hs Hs0. unfold normalize.
  assert (isAbsolute (abs segs ++ "/" ++ s) = true) as -> by reflexivity.
  assert (String.eqb (abs segs ++ "/" ++ s) EmptyString = false) as ->
    by reflexivity.
  cbn [negb].
  rewrite segments_app, segments_abs, (segments_plain s)
    by (done || by apply plain_no_slash).
  cbn [app normalize_segments String.eqb orb].
  rewrite normalize_segments_plain by done. rewrite app_nil_r.
  assert (trailingSeparator (abs segs ++ "/" ++ s) = false) as ->.
  { rewrite <- (trailingSeparator_plain s Hs).
    rewrite <- !append_assoc. by apply trailingSeparator_app. }
  cbn [normalize_segments]. apply String.eqb_neq in Hs0. rewrite Hs0. cbn [orb].
  destruct (String.eqb s ".") eqn:Hdot.
  { rewrite rev_involutive.
    pose proof (unsplit_plain_nonempty segs Hall Hne) as Hu.
    apply String.eqb_neq in Hu. rewrite Hu. unfold abs.
    by rewrite append_nil_r. }
  destruct (String.eqb s "..") eqn:Hdd.
  { destruct (rev segs) as [|r res'] eqn:Hrev.
    { apply (f_equal (@rev string)) in Hrev. rewrite rev_involutive in Hrev.
      done. }
    assert (segs = (rev res' ++ [r])%list) as Hsegs.
    { rewrite <- (rev_involutive segs), Hrev. done. }
    assert (plain r) as Hr.
    { rewrite Forall_forall in Hall. apply Hall. rewrite Hsegs. set_solver. }
    destruct (plain_tests r Hr) as (_ & _ & ->). cbn [normalize_segments].
    assert (removelast segs = rev res') as ->.
    { rewrite Hsegs. apply removelast_last. }
    unfold abs. destruct (String.eqb (unsplit (rev res')) EmptyString) eqn:He.
    - apply String.eqb_eq in He. by rewrite He.
    - by rewrite append_nil_r. }
  cbn [normalize_segments rev]. rewrite rev_involutive.
  assert (unsplit (segs ++ [s]) ≠ EmptyString) as Hu.
  { apply unsplit_plain_nonempty.
    - apply Forall_app. split; [done|]. constructor; [|done].
      apply String.eqb_neq in Hs0, Hdot, Hdd. done.
    - by destruct segs. }
  apply String.eqb_neq in Hu. rewrite Hu. unfold abs.
  by rewrite append_nil_r.
Qed.

Lemma normalize_segments_all (allow : bool) res segs :
  Forall plain segs → normalize_segments allow res segs = (rev segs ++ res)%list.
Proof.
  intros Hall. rewrite <- (app_nil_r segs) at 1.
  by rewrite normalize_segments_plain.
Qed.

Lemma normalize_abs segs :
  Forall plain segs → segs ≠ [] → normalize (abs segs) = abs segs.
Proof.
  intros Hall Hne. unfold normalize.
  assert (isAbsolute (abs segs) = true) as -> by reflexivity.
  assert (String.eqb (abs segs) EmptyString = false) as -> by reflexivity.
  cbn [negb]. rewrite segments_abs by (done || by apply plain_no_slash).
  cbn [normalize_segments String.eqb orb].
  rewrite !normalize_segments_all by done.
  rewrite app_nil_r, rev_involutive.
  pose proof (unsplit_plain_nonempty segs Hall Hne) as Hu.
  assert (trailingSeparator (abs segs) = false) as ->.
  { unfold abs. rewrite trailingSeparator_app by done.
    by apply trailingSeparator_unsplit. }
  apply String.eqb_neq in Hu. rewrite Hu. unfold abs. by rewrite append_nil_r.
Qed.

(** Where a request can point to: the media directory, the directory
    above it, or an entry of the media directory. *)
Lemma filePath_cases segs (filename : string) :
  Forall plain segs → segs ≠ [] →
  filePath (abs segs) filename = abs segs
  ∨ filePath (abs segs) filename = abs (removelast segs)
  ∨ ∃ name, plain name ∧ filePath (abs segs) filename = abs (segs ++ [name]).
Proof.
  intros Hall Hne. unfold filePath, join.
  pose proof (basename_no_slash filename) as Hb.
  assert (String.eqb (abs segs) EmptyString = false) as -> by reflexivity.
  destruct (String.eqb_spec (basename filename) EmptyString) as [He|He].
  { left. by apply normalize_abs. }
  rewrite normalize_in_dir by done.
  destruct (String.eqb_spec (basename filename) ".") as [|Hdot]; [by left|].
  destruct (String.eqb_spec (basename filename) "..") as [|Hdd];
    [right; by left|].
  right. right. by exists (basename filename).
Qed.

End MediaFacts.

(** C10.  Let the media directory be an absolute path of plain names
    that is a directory, as is the directory above it.  For every
    [filename] parameter, the path that is read or unlinked is the join
    of the media directory with the basename of the parameter, and the
    basename has no slash; what [GET /media/:filename] sends is the
    content of a file that is an entry of the media directory, and what
    [DELETE /api/media/:filename] removes, if anything, is such a file. *)
Theorem media_paths_confined (segs : list string) (filename : string)
  (fs : gmap string Media.node) :
  Forall plain segs → segs ≠ [] →
  fs !! abs segs = Some Media.Dir →
  fs !! abs (removelast segs) = Some Media.Dir →
  Media.filePath (abs segs) filename
    = Media.join (abs segs) (Media.basename filename)
  ∧ no_slash (Media.basename filename) = true
  ∧ (∀ data, Media.media_get (abs segs) fs filename = Media.Sent data →
       ∃ name, plain name
         ∧ fs !! abs (segs ++ [name]) = Some (Media.File data))
  ∧ (∀ fs' answer,
       Media.media_delete (abs segs) fs filename = (fs', answer) →
       fs' = fs
       ∨ ∃ name data, plain name
           ∧ fs !! abs (segs ++ [name]) = Some (Media.File data)
           ∧ fs' = delete (abs (segs ++ [name])) fs).
Proof.
  intros Hall Hne Hdir Hup. split; [done|]. split; [apply basename_no_slash|].
  destruct (filePath_cases segs filename Hall Hne)
    as [Hp|[Hp|(name & Hname & Hp)]].
  - split.
    + intros data. unfold Media.media_get. by rewrite Hp, Hdir.
    + intros fs' answer. unfold Media.media_delete. rewrite Hp, Hdir.
      intros [= <- _]. by left.
  - split.
    + intros data. unfold Media.media_get. by rewrite Hp, Hup.
    + intros fs' answer. unfold Media.media_delete. rewrite Hp, Hup.
      intros [= <- _]. by left.
  - split.
    + intros data. unfold Media.media_get. rewrite Hp.
      destruct (fs !! abs (segs ++ [name])) as [[d|]|] eqn:Hf; try done.
      intros [= ->]. by exists name.
    + intros fs' answer. unfold Media.media_delete. rewrite Hp.
      destruct (fs !! abs (segs ++ [name])) as [[d|]|] eqn:Hf;
        intros [= <- _]; [|by left..].
      right. by exists name, d.
Qed.

Lemma media_paths_confined_witness :
  ∃ name, plain name
    ∧ ({["/home/user/Media" := Media.Dir; "/home/user" := Media.Dir;
         "/etc/passwd" := Media.File "root";
         "/home/user/Media/passwd" := Media.File "logo"]}
        : gmap string Media.node)
      !! abs (["home"; "user"; "Media"] ++ [name]) = Some (Media.File "logo").
Proof.
  apply (media_paths_confined ["home"; "user"; "Media"] "../../../etc/passwd"
           {["/home/user/Media" := Media.Dir; "/home/user" := Media.Dir;
             "/etc/passwd" := Media.File "root";
             "/home/user/Media/passwd" := Media.File "logo"]}).
  - repeat constructor; done.
  - done.
  - reflexivity.
  - reflexivity.
  - reflexivity.
Defined.

(** * Further properties of the code *)

(** ** The other branches of [controlBrowser] *)

Section RegistryFacts.
Context `{Main.Runtime}.
Import Main.

Implicit Types (id : string) (c : gmap string value) (st : App) (b : Browser).

Lemma controlBrowser_mod id c : controlBrowser "mod" id c = control_mod id c.
Proof. reflexivity. Qed.

Lemma controlBrowser_reload id c :
  controlBrowser "reload" id c = control_reload id.
Proof. reflexivity. Qed.

Lemma controlBrowser_clear id c : controlBrowser "clear" id c = control_clear id.
Proof. reflexivity. Qed.

Lemma controlBrowser_prune id c : controlBrowser "prune" id c = control_prune.
Proof. reflexivity. Qed.

Lemma controlBrowser_add id c : controlBrowser "add" id c = control_add id c.
Proof. reflexivity. Qed.

(** The names the chain of comparisons of [controlBrowser] knows. *)
Definition actions : list string :=
  ["prune"; "add"; "mod"; "del"; "start-all"; "reload-all"; "stop-all";
   "start"; "reload"; "stop"; "clear"].

Lemma controlBrowser_other (action : string) id c :
  action ∉ actions → controlBrowser action id c = mret tt.
Proof.
  intros Hno. unfold controlBrowser.
  repeat match goal with
         | |- context [String.eqb action ?a] =>
           destruct (String.eqb_spec action a) as [Heq|_];
             [exfalso; apply Hno; rewrite Heq; unfold actions; set_solver|]
         end.
  done.
Qed.

(** What the worker is told to stop by ["prune"], over the ids [ids]. *)
Definition prune_events st (ids : list string) : list event :=
  concat ((λ id, match browsers st !! id with
                 | Some b => if running b then [WorkerCall "stop" id] else []
                 | None => []
                 end) <$> ids).

Lemma prune_events_ext st st' ids :
  (∀ id, id ∈ ids → browsers st' !! id = browsers st !! id) →
  prune_events st' ids = prune_events st ids.
Proof.
  intros Hext. unfold prune_events. f_equal.
  apply Forall_fmap_ext_1, Forall_forall. intros id Hid. by rewrite Hext.
Qed.

Lemma prune_one_run id st b :
  browsers st !! id = Some b →
  ∃ st', prune_one id st = (Ok tt, st')
    ∧ browsers st' = delete id (browsers st)
    ∧ effects st' = (effects st
        ++ if running b then [WorkerCall "stop" id] else [])%list
    ∧ configVersion st' = configVersion st
    ∧ store_browsers st' = store_browsers st.
Proof.
  intros Hid. unfold prune_one. mrun. rewrite Hid. cbv beta iota.
  destruct (running b); mrun.
  - eexists. split; [reflexivity|]. cbn. by rewrite delete_insert_eq.
  - eexists. split; [reflexivity|]. cbn. by rewrite app_nil_r.
Qed.

Lemma prune_loop ids st :
  NoDup ids → (∀ id, id ∈ ids → is_Some (browsers st !! id)) →
  ∃ st', foldr (λ id rest, prune_one id ;; rest) (mret tt) ids st = (Ok tt, st')
    ∧ (∀ id, browsers st' !! id =
             if decide (id ∈ ids) then None else browsers st !! id)
    ∧ effects st' = (effects st ++ prune_events st ids)%list
    ∧ configVersion st' = configVersion st
    ∧ store_browsers st' = store_browsers st.
Proof.
  revert st. induction ids as [|id ids IH]; intros st Hnd Hall.
  { exists st. cbn. rewrite app_nil_r. repeat split; done. }
  apply NoDup_cons in Hnd as [Hid Hnd].
  destruct (Hall id) as [b Hb]; [left|].
  cbn [foldr]. rewrite bind_run.
  destruct (prune_one_run id st b Hb) as (st1 & -> & Hb1 & He1 & Hv1 & Hs1).
  destruct (IH st1 Hnd) as (st2 & -> & Hb2 & He2 & Hv2 & Hs2).
  { intros id' Hin. rewrite Hb1, lookup_delete_ne by set_solver.
    apply Hall. by right. }
  exists st2. split; [done|]. split; [|split; [|split; congruence]].
  - intros id'. rewrite Hb2, Hb1. destruct (decide (id' = id)) as [->|Hne].
    + rewrite decide_False by done. rewrite decide_True by left.
      apply lookup_delete_eq.
    + rewrite lookup_delete_ne by done.
      apply decide_ext. rewrite elem_of_cons. intuition congruence.
  - rewrite He2, He1, <- app_assoc. f_equal.
    unfold prune_events at 2. cbn [fmap list_fmap concat]. rewrite Hb. f_equal.
    apply prune_events_ext. intros id' Hin.
    rewrite Hb1, lookup_delete_ne; [done|]. intros ->. done.
Qed.

Lemma elem_of_prune_events st ids (e : event) :
  e ∈ prune_events st ids ↔
  ∃ id b, id ∈ ids ∧ browsers st !! id = Some b ∧ running b = true
          ∧ e = WorkerCall "stop" id.
Proof.
  unfold prune_events. induction ids as [|id ids IH]; cbn [fmap list_fmap concat].
  { split; [by intros ?%elem_of_nil|]. by intros (? & ? & ?%elem_of_nil & _). }
  rewrite elem_of_app, IH. split.
  - intros [Hin|(id' & b & Hid' & Hb & Hr & He)].
    + destruct (browsers st !! id) as [b|] eqn:Hb; [|by apply elem_of_nil in Hin].
      destruct (running b) eqn:Hr; [|by apply elem_of_nil in Hin].
      apply list_elem_of_singleton in Hin.
      exists id, b. split; [left|done].
    + exists id', b. split; [by right|done].
  - intros (id' & b & Hid' & Hb & Hr & He).
    apply elem_of_cons in Hid' as [->|Hid'].
    + left. rewrite Hb, Hr, He. left.
    + right. by exists id', b.
Qed.

End RegistryFacts.

(** X1.  The guards of the branches ["mod"], ["reload"] and ["clear"].
    On an id that is not in the registry (and is not a name that every
    object inherits), ["mod"] throws a [TypeError], the one of the call
    of a method of [undefined], and not the error of an invalid id that
    ["reload"] and ["clear"] throw there; ["reload"] on an instance that
    is not running and ["clear"] on a running instance throw their own
    errors.  In each case the state is the one before the call. *)
Theorem mod_reload_clear_guards `{Main.Runtime} (id : string)
  (c : gmap string value) (st : Main.App) :
  (id ∉ Routes.Object_prototype → Main.browsers st !! id = None →
   (∃ m, Main.controlBrowser "mod" id c st = (Main.Throw (Main.TypeError m), st))
   ∧ Main.controlBrowser "reload" id c st
     = (Main.Throw Main.UnknownInstance, st)
   ∧ Main.controlBrowser "clear" id c st
     = (Main.Throw Main.UnknownInstance, st))
  ∧ (∀ b, Main.browsers st !! id = Some b → Main.running b = false →
     Main.controlBrowser "reload" id c st = (Main.Throw Main.NotRunning, st))
  ∧ (∀ b, Main.browsers st !! id = Some b → Main.running b = true →
     Main.controlBrowser "clear" id c st = (Main.Throw Main.StillRunning, st)).
Proof.
  rewrite controlBrowser_mod, controlBrowser_reload, controlBrowser_clear.
  split; [|split].
  - intros _ Hid. split; [|split].
    + eexists. unfold Main.control_mod. mrun. by rewrite Hid.
    + unfold Main.control_reload. mrun. by rewrite Hid.
    + unfold Main.control_clear. mrun. by rewrite Hid.
  - intros b Hid Hrun. unfold Main.control_reload. mrun. by rewrite Hid, Hrun.
  - intros b Hid Hrun. unfold Main.control_clear. mrun. by rewrite Hid, Hrun.
Qed.

Lemma mod_reload_clear_guards_witness :
  ((∃ m, Main.controlBrowser "mod" "ghost" Model.cam Model.init
         = (Main.Throw (Main.TypeError m), Model.init))
   ∧ Main.controlBrowser "reload" "ghost" Model.cam Model.init
     = (Main.Throw Main.UnknownInstance, Model.init)
   ∧ Main.controlBrowser "clear" "ghost" Model.cam Model.init
     = (Main.Throw Main.UnknownInstance, Model.init))
  ∧ Main.controlBrowser "reload" "A" ∅ Model.added
    = (Main.Throw Main.NotRunning, Model.added)
  ∧ Main.controlBrowser "clear" "A" ∅ Model.started
    = (Main.Throw Main.StillRunning, Model.started).
Proof.
  split; [|split].
  - apply (mod_reload_clear_guards "ghost" Model.cam Model.init).
    + by apply (bool_decide_unpack _).
    + reflexivity.
  - apply (proj1 (proj2 (mod_reload_clear_guards "A" ∅ Model.added))
             {| Main.cfg := Model.cam; Main.worker_running := false |});
      reflexivity.
  - apply (proj2 (proj2 (mod_reload_clear_guards "A" ∅ Model.started))
             {| Main.cfg := Model.cam; Main.worker_running := true |});
      reflexivity.
Defined.

(** X2.  An action that is none of the eleven names [controlBrowser]
    compares with falls through the whole chain: the call returns
    without an error and the state is the one before the call. *)
Theorem unknown_action_is_ignored `{Main.Runtime} (action id : string)
  (c : gmap string value) (st : Main.App) :
  action ∉ ["prune"; "add"; "mod"; "del"; "start-all"; "reload-all";
            "stop-all"; "start"; "reload"; "stop"; "clear"] →
  Main.controlBrowser action id c st = (Main.Ok tt, st).
Proof. intros Hno. by rewrite controlBrowser_other. Qed.

Lemma unknown_action_is_ignored_witness :
  Main.controlBrowser "restart" "A" ∅ Model.started = (Main.Ok tt, Model.started).
Proof.
  apply (unknown_action_is_ignored "restart" "A" ∅ Model.started).
  apply (bool_decide_unpack _). vm_compute. exact I.
Defined.

(** X3.  ["prune"] returns without an error and leaves the registry
    empty.  All it sends out is one call of [stop()] for each instance
    that was running: no notice goes to the control window or to syslog,
    and the store and the version counter are as before. *)
Theorem prune_empties_registry `{Main.Runtime} (id : string)
  (c : gmap string value) (st : Main.App) :
  ∃ st' new,
    Main.controlBrowser "prune" id c st = (Main.Ok tt, st')
    ∧ Main.browsers st' = ∅
    ∧ Main.effects st' = (Main.effects st ++ new)%list
    ∧ (∀ e, e ∈ new ↔
         ∃ id' b, Main.browsers st !! id' = Some b ∧ Main.running b = true
                  ∧ e = Main.WorkerCall "stop" id')
    ∧ Main.configVersion st' = Main.configVersion st
    ∧ Main.store_browsers st' = Main.store_browsers st.
Proof.
  rewrite controlBrowser_prune. unfold Main.control_prune. rewrite bind_run.
  mrun.
  destruct (prune_loop (Main.browser_ids st) st (browser_ids_NoDup st))
    as (st' & Hrun & Hb & He & Hv & Hs).
  { intros id'. apply elem_of_browser_ids. }
  exists st', (prune_events st (Main.browser_ids st)).
  split; [exact Hrun|]. split.
  { apply map_eq. intros id'. rewrite Hb, lookup_empty.
    case_decide as Hin; [done|].
    destruct (Main.browsers st !! id') eqn:Hid; [|done].
    exfalso. apply Hin, elem_of_browser_ids. by eexists. }
  split; [done|]. split; [|done].
  intros e. rewrite elem_of_prune_events. split.
  - intros (id' & b & _ & Hid & Hr & ->). by exists id', b.
  - intros (id' & b & Hid & Hr & ->). exists id', b. split; [|done].
    apply elem_of_browser_ids. by eexists.
Qed.

(** X4.  ["start"] on an instance that is not running and valid returns
    without an error whether the worker starts or not.  When the worker
    reports a failure, the control window gets ["browser-failed"], syslog
    gets an error line and the worker is told to stop; when it reports
    success, the control window gets ["browser-started"] and syslog an
    info line.  The configuration of the instance, the store and the
    version counter are as before. *)
Theorem start_reports_worker_failure `{Main.Runtime} (id : string)
  (c : gmap string value) (st : Main.App) (b : Main.Browser) :
  Main.browsers st !! id = Some b → Main.running b = false →
  Main.valid b = true →
  ∃ st',
    Main.controlBrowser "start" id c st = (Main.Ok tt, st')
    ∧ Main.effects st' =
        (Main.effects st
         ++ [Main.IpcSend "browser-start" id; Main.WorkerCall "start" id]
         ++ (if Main.Browser_start id (Main.cfg b)
             then [Main.IpcSend "browser-started" id;
                   Main.Syslog "info" "instance"
                     (Main.instance_message "started"
                        (get (Main.cfg b) "t") id)]
             else [Main.IpcSend "browser-failed" id;
                   Main.Syslog "error" "instance"
                     (Main.instance_message "start failed"
                        (get (Main.cfg b) "t") id);
                   Main.WorkerCall "stop" id]))%list
    ∧ Main.cfg <$> Main.browsers st' = Main.cfg <$> Main.browsers st
    ∧ Main.configVersion st' = Main.configVersion st
    ∧ Main.store_browsers st' = Main.store_browsers st.
Proof.
  intros Hid Hrun Hval. rewrite controlBrowser_start.
  unfold Main.control_start. mrun. rewrite Hid, Hrun, Hval.
  cbv beta iota. cbn [negb]. mrun.
  assert (∀ r, Main.cfg <$> <[id := Main.set_running r b]> (Main.browsers st)
               = Main.cfg <$> Main.browsers st) as Hcfg.
  { intros r. rewrite fmap_insert. apply map_eq. intros id'.
    destruct (decide (id' = id)) as [->|Hne].
    - by rewrite lookup_insert_eq, lookup_fmap, Hid.
    - by rewrite lookup_insert_ne. }
  destruct (Main.Browser_start id (Main.cfg b)) eqn:Hw; mrun.
  - eexists. split; [reflexivity|]. cbn. rewrite <- !app_assoc.
    split; [done|]. split; [apply Hcfg|done].
  - eexists. split; [reflexivity|]. cbn. rewrite <- !app_assoc.
    split; [done|]. split; [apply Hcfg|done].
Qed.

Section RegistryExamples.
Import Main Model.

Lemma start_reports_worker_failure_witness :
  ∃ st',
    Main.controlBrowser "start" "A" ∅ added = (Main.Ok tt, st')
    ∧ Main.effects st' =
        (Main.effects added
         ++ [Main.IpcSend "browser-start" "A"; Main.WorkerCall "start" "A"]
         ++ (if Main.Browser_start "A" cam
             then [Main.IpcSend "browser-started" "A";
                   Main.Syslog "info" "instance"
                     (Main.instance_message "started" (get cam "t") "A")]
             else [Main.IpcSend "browser-failed" "A";
                   Main.Syslog "error" "instance"
                     (Main.instance_message "start failed" (get cam "t") "A");
                   Main.WorkerCall "stop" "A"]))%list
    ∧ Main.cfg <$> Main.browsers st' = Main.cfg <$> Main.browsers added
    ∧ Main.configVersion st' = Main.configVersion added
    ∧ Main.store_browsers st' = Main.store_browsers added.
Proof.
  apply (start_reports_worker_failure "A" ∅ added
           {| Main.cfg := cam; Main.worker_running := false |}).
  - reflexivity.
  - reflexivity.
  - vm_compute. reflexivity.
Defined.

End RegistryExamples.

(** ** The sanitizer, field by field *)

Section SanitizeValues.
Context `{JSNumber}.
Import Config.

Implicit Types (b c : gmap string value) (k : string) (n : nat) (f : field).

Lemma filled_field c f :
  f ∈ fields →
  (filled c).1 !! iname f =
  if decide (get (migrated c).1 (iname f) = VUndefined) then Some (def f)
  else (migrated c).1 !! iname f.
Proof.
  intros Hf. unfold filled. destruct (migrated c) as [b n]. cbn [fst].
  case_decide as Hu.
  - by apply fill_loop_missing; [apply defs_defined|apply inames_NoDup| |].
  - by apply fill_loop_keeps.
Qed.

Lemma sanitize_value c f :
  f ∈ fields →
  get (sanitizeConfig c).1 (iname f) =
  if decide (get c (iname f) = VUndefined) then def f
  else if decide (iname f = "it" ∧ get c "it" = VStr "video") then VStr "url"
  else get c (iname f).
Proof.
  intros Hf. unfold get at 1. rewrite sanitize_field, filled_field by done.
  destruct (decide (get c (iname f) = VUndefined)) as [Hu|Hd].
  { rewrite decide_True; [done|]. by apply migrated_missing. }
  unfold migrated. destruct (decide (get c "it" = VStr "video")) as [Hv|Hv];
    cbn [fst].
  - destruct (decide (iname f = "it")) as [Hit|Hit].
    + rewrite (decide_True (P := _ ∧ _)) by done. rewrite Hit. unfold get.
      rewrite lookup_insert_eq. cbn [default]. by rewrite decide_False.
    + rewrite (decide_False (P := _ ∧ _)) by tauto. unfold get in *.
      rewrite lookup_insert_ne by done. by rewrite decide_False.
  - rewrite (decide_False (P := _ ∧ _)) by tauto. by rewrite decide_False.
Qed.

(** The counters of the two loops only grow, and a loop that counts
    nothing changes nothing. *)
Lemma fill_loop_count (fs : list field) b n :
  (n ≤ (foldl fill_default (b, n) fs).2)%nat
  ∧ ((foldl fill_default (b, n) fs).2 = n → (foldl fill_default (b, n) fs).1 = b).
Proof.
  revert b n. induction fs as [|f fs IH]; intros b n; cbn [foldl]; [done|].
  unfold fill_default at 2 4 6. case_decide.
  - destruct (IH (<[iname f := def f]> b) (S n)) as [Hle _]. split; lia.
  - apply IH.
Qed.

Lemma prune_loop_count (ks : list string) b n :
  (n ≤ (foldl prune_attr (b, n) ks).2)%nat
  ∧ ((foldl prune_attr (b, n) ks).2 = n → (foldl prune_attr (b, n) ks).1 = b).
Proof.
  revert b n. induction ks as [|a ks IH]; intros b n; cbn [foldl]; [done|].
  unfold prune_attr at 2 4 6. destruct (String.eqb a "id"); [apply IH|].
  destruct (find_field a); [apply IH|].
  destruct (IH (delete a b) (S n)) as [Hle _]. split; lia.
Qed.

Lemma sanitize_count_zero c : (sanitizeConfig c).2 = 0 → (sanitizeConfig c).1 = c.
Proof.
  rewrite sanitizeConfig_unfold. unfold filled, migrated.
  destruct (decide (get c "it" = VStr "video")) as [Hv|Hv].
  - intros Hz. exfalso.
    pose proof (fill_loop_count fields (<["it" := VStr "url"]> c) 1) as [Hle _].
    destruct (foldl fill_default (<["it" := VStr "url"]> c, 1) fields)
      as [b n] eqn:E. cbn [fst snd] in *.
    pose proof (prune_loop_count (keys b) b n) as [Hle' _]. lia.
  - intros Hz.
    pose proof (fill_loop_count fields c 0) as [Hle Hsame].
    destruct (foldl fill_default (c, 0) fields) as [b n] eqn:E.
    cbn [fst snd] in *.
    pose proof (prune_loop_count (keys b) b n) as [Hle' Hsame'].
    assert (n = 0) as -> by lia.
    rewrite Hsame' by done. by apply Hsame.
Qed.

Lemma sanitize_unchanged c : (sanitizeConfig c).1 = c → sanitizeConfig c = (c, 0).
Proof.
  intros Heq. apply sanitize_fixpoint.
  - rewrite <- Heq. apply sanitize_it.
  - intros f Hf. rewrite <- Heq. by apply sanitize_defined.
  - intros k Hk. apply (sanitize_keys_kept c). by rewrite Heq.
Qed.

(** The sanitized record depends on the schema fields and on [id] only. *)
Lemma sanitize_ext c1 c2 :
  (∀ k, kept k → c1 !! k = c2 !! k) →
  (sanitizeConfig c1).1 = (sanitizeConfig c2).1.
Proof.
  intros Hext. apply map_eq. intros k.
  destruct (decide (k = "id")) as [->|Hid].
  { rewrite !sanitize_id. apply Hext. by left. }
  destruct (decide (k ∈ inames)) as [Hin|Hin].
  - apply list_elem_of_fmap in Hin as [f [-> Hf]].
    assert (∀ g, g ∈ fields → get c1 (iname g) = get c2 (iname g)) as Hget.
    { intros g Hg. unfold get. rewrite Hext; [done|].
      right. by apply list_elem_of_fmap_2. }
    pose proof (sanitize_value c1 f Hf) as H1.
    pose proof (sanitize_value c2 f Hf) as H2.
    pose proof (Hget _ it_field) as Hit. cbn [iname] in Hit.
    rewrite (Hget f Hf), Hit, <- H2 in H1.
    pose proof (sanitize_defined c1 f Hf) as D1.
    pose proof (sanitize_defined c2 f Hf) as D2.
    unfold get in *.
    destruct ((sanitizeConfig c1).1 !! iname f),
      ((sanitizeConfig c2).1 !! iname f); cbn in *; congruence.
  - rewrite !sanitize_extra; [done|..]; unfold kept; tauto.
Qed.

End SanitizeValues.

(** X5.  The sanitizer keeps every schema field that holds a value as
    it is, without looking at its type; only a field that holds
    [undefined] gets its default, and the retired input type ["video"]
    becomes ["url"]. *)
Theorem sanitize_keeps_defined_fields `{JSNumber} (c : gmap string value)
  (f : Config.field) :
  f ∈ Config.fields →
  get (Config.sanitizeConfig c).1 (Config.iname f) =
  if decide (get c (Config.iname f) = VUndefined) then Config.def f
  else if decide (Config.iname f = "it" ∧ get c "it" = VStr "video")
       then VStr "url"
       else get c (Config.iname f).
Proof. apply sanitize_value. Qed.

(** X6.  The number of changes [sanitizeConfig] returns is zero exactly
    when it returns the record as it was. *)
Theorem sanitize_count_zero_iff_unchanged `{JSNumber} (c : gmap string value) :
  (Config.sanitizeConfig c).2 = 0 ↔ (Config.sanitizeConfig c).1 = c.
Proof.
  split; [apply sanitize_count_zero|].
  intros Heq. by rewrite (sanitize_unchanged c Heq).
Qed.

Section SanitizeExamples.
Import Model.

Lemma sanitize_keeps_defined_fields_witness :
  get (Config.sanitizeConfig (<["w" := VNum (num_of_Z 640)]> ∅)).1 "w"
  = VNum (num_of_Z 640).
Proof.
  change "w" with
    (Config.iname (Config.Field "w" TString (VStr "1280") TNumber "BrowserWidth"))
    at 2.
  rewrite (sanitize_keeps_defined_fields (<["w" := VNum (num_of_Z 640)]> ∅)
             (Config.Field "w" TString (VStr "1280") TNumber "BrowserWidth")).
  - reflexivity.
  - unfold Config.fields. do 2 right. left.
Defined.

End SanitizeExamples.

(** ** Loading the stored configurations *)

Section LoadFacts.
Context `{Main.Runtime}.
Import Config Main.

Implicit Types (b d : gmap string value) (st : App) (k : string).

(** The configurations [loadConfigs] returns. *)
Definition sanitized (bs : list (gmap string value)) : list (gmap string value) :=
  (λ b, (sanitizeConfig b).1) <$> bs.

Lemma sum_counts_zero (bs : list (gmap string value)) :
  sum_list ((λ b, (sanitizeConfig b).2) <$> bs) = 0
  ↔ Forall (λ b, (sanitizeConfig b).1 = b) bs.
Proof.
  induction bs as [|b bs IH]; cbn [fmap list_fmap sum_list].
  { split; [constructor|done]. }
  rewrite Forall_cons, <- IH. unfold id. split.
  - intros Hz. split; [apply sanitize_count_zero|]; lia.
  - intros [Hb Hz]. rewrite (sanitize_unchanged b Hb). cbn [snd]. lia.
Qed.

Lemma sanitized_unchanged (bs : list (gmap string value)) :
  Forall (λ b, (sanitizeConfig b).1 = b) bs → sanitized bs = bs.
Proof.
  intros Hall. unfold sanitized. rewrite <- (list_fmap_id bs) at 2.
  apply Forall_fmap_ext_1. eapply Forall_impl; [exact Hall|]. done.
Qed.

Lemma sanitized_sanitized (bs : list (gmap string value)) :
  Forall (λ b, (sanitizeConfig b).1 = b) (sanitized bs).
Proof.
  unfold sanitized. apply Forall_fmap, Forall_forall. intros b _. cbn.
  by rewrite sanitize_sanitize.
Qed.

Lemma loadConfigs_empty st :
  store_browsers st = None →
  loadConfigs st =
  (Ok [], set_configVersion (S (configVersion st))
            (with_effect (StoreSet "browsers")
               (set_store (Some (JSON_stringify [])) st))).
Proof. intros Hs. unfold loadConfigs. mrun. by rewrite Hs. Qed.

Lemma loadConfigs_clean st j :
  store_browsers st = Some j →
  Forall (λ b, (sanitizeConfig b).1 = b) (JSON_parse j) →
  loadConfigs st = (Ok (JSON_parse j), st).
Proof.
  intros Hs Hall. unfold loadConfigs. mrun. rewrite Hs. cbv beta iota.
  rewrite (proj2 (sum_counts_zero _) Hall). mrun.
  rewrite bool_decide_eq_false_2 by (cbn; lia). mrun.
  fold (sanitized (JSON_parse j)). by rewrite sanitized_unchanged.
Qed.

Lemma loadConfigs_dirty st j :
  store_browsers st = Some j →
  ¬ Forall (λ b, (sanitizeConfig b).1 = b) (JSON_parse j) →
  loadConfigs st =
  (Ok (sanitized (JSON_parse j)),
   set_configVersion (S (configVersion st))
     (with_effect (StoreSet "browsers")
        (set_store (Some (JSON_stringify (sanitized (JSON_parse j)))) st))).
Proof.
  intros Hs Hsome. unfold loadConfigs. mrun. rewrite Hs. cbv beta iota.
  rewrite <- sum_counts_zero in Hsome. mrun.
  rewrite bool_decide_eq_true_2 by (cbn; lia). by mrun.
Qed.

#[local] Instance unchanged_dec b : Decision ((sanitizeConfig b).1 = b).
Proof. apply _. Defined.

Lemma loadConfigs_again st bs st1 :
  JSON_parse (JSON_stringify bs) = bs →
  loadConfigs st = (Ok bs, st1) → loadConfigs st1 = (Ok bs, st1).
Proof.
  intros Hjson Hrun. destruct (store_browsers st) as [j|] eqn:Hs.
  - destruct (decide (Forall (λ b, (sanitizeConfig b).1 = b) (JSON_parse j)))
      as [Hall|Hsome].
    + rewrite (loadConfigs_clean st j Hs Hall) in Hrun.
      injection Hrun as <- <-. by apply loadConfigs_clean.
    + rewrite (loadConfigs_dirty st j Hs Hsome) in Hrun.
      injection Hrun as <- <-.
      erewrite loadConfigs_clean; [|reflexivity|].
      * by rewrite Hjson.
      * rewrite Hjson. apply sanitized_sanitized.
  - rewrite (loadConfigs_empty st Hs) in Hrun. injection Hrun as <- <-.
    erewrite loadConfigs_clean; [|reflexivity|].
    + by rewrite Hjson.
    + rewrite Hjson. constructor.
Qed.

End LoadFacts.

(** X7.  What [loadConfigs] does to the store.  With no stored set it
    returns the empty list and writes it to the store; with a stored set
    whose records the sanitizer leaves as they are, it returns that set
    and the state is the one before the call; with a stored set of which
    the sanitizer changes a record, it returns the sanitized records and
    writes them back.  Each write increments the version counter. *)
Theorem loadConfigs_repairs_store `{Main.Runtime} (st : Main.App) :
  (Main.store_browsers st = None →
   ∃ st', Main.loadConfigs st = (Main.Ok [], st')
     ∧ Main.store_browsers st' = Some (Main.JSON_stringify [])
     ∧ Main.configVersion st' = S (Main.configVersion st))
  ∧ (∀ j, Main.store_browsers st = Some j →
     Forall (λ b, (Config.sanitizeConfig b).1 = b) (Main.JSON_parse j) →
     Main.loadConfigs st = (Main.Ok (Main.JSON_parse j), st))
  ∧ (∀ j, Main.store_browsers st = Some j →
     Exists (λ b, (Config.sanitizeConfig b).1 ≠ b) (Main.JSON_parse j) →
     ∃ st', Main.loadConfigs st = (Main.Ok (sanitized (Main.JSON_parse j)), st')
       ∧ Main.store_browsers st'
         = Some (Main.JSON_stringify (sanitized (Main.JSON_parse j)))
       ∧ Main.configVersion st' = S (Main.configVersion st)).
Proof.
  split; [|split].
  - intros Hs. rewrite (loadConfigs_empty st Hs). by eexists.
  - apply loadConfigs_clean.
  - intros j Hs Hex. rewrite (loadConfigs_dirty st j Hs).
    + by eexists.
    + intros Hall. apply Exists_exists in Hex as (b & Hin & Hb).
      rewrite Forall_forall in Hall. by apply Hb, Hall.
Qed.

(** X8.  Loading twice: when the JSON text written for the returned
    records parses back to them, a second [loadConfigs] returns the same
    records and neither writes the store nor moves the version
    counter. *)
Theorem loadConfigs_twice `{Main.Runtime} (st st1 : Main.App)
  (bs : list (gmap string value)) :
  Main.JSON_parse (Main.JSON_stringify bs) = bs →
  Main.loadConfigs st = (Main.Ok bs, st1) →
  Main.loadConfigs st1 = (Main.Ok bs, st1).
Proof. apply loadConfigs_again. Qed.

Section LoadExamples.
Import Main Model.

Lemma loadConfigs_repairs_store_witness :
  (∃ st', Main.loadConfigs init = (Main.Ok [], st')
     ∧ Main.store_browsers st' = Some (Main.JSON_stringify [])
     ∧ Main.configVersion st' = S (Main.configVersion init))
  ∧ Main.loadConfigs stored
    = (Main.Ok (Main.JSON_parse
                  (Main.JSON_stringify (config_set (Main.browsers added)))),
       stored)
  ∧ (∃ st', Main.loadConfigs
              (set_store (Some (Main.JSON_stringify [∅])) init)
            = (Main.Ok (sanitized (Main.JSON_parse (Main.JSON_stringify [∅]))),
               st')
       ∧ Main.store_browsers st'
         = Some (Main.JSON_stringify
                   (sanitized (Main.JSON_parse (Main.JSON_stringify [∅]))))
       ∧ Main.configVersion st' = S (Main.configVersion init)).
Proof.
  split; [|split].
  - apply (loadConfigs_repairs_store init). reflexivity.
  - apply (proj1 (proj2 (loadConfigs_repairs_store stored))
             (Main.JSON_stringify (config_set (Main.browsers added)))).
    + reflexivity.
    + apply (bool_decide_unpack _). vm_compute. exact I.
  - apply (proj2 (proj2 (loadConfigs_repairs_store
                           (set_store (Some (Main.JSON_stringify [∅])) init)))
             (Main.JSON_stringify [∅])).
    + reflexivity.
    + apply (bool_decide_unpack _). vm_compute. exact I.
Defined.

Lemma loadConfigs_twice_witness :
  Main.loadConfigs (Main.loadConfigs init).2 = (Main.Ok [], (Main.loadConfigs init).2).
Proof.
  apply (loadConfigs_twice init (Main.loadConfigs init).2 []);
    reflexivity.
Defined.

End LoadExamples.

(** ** Import, record by record *)

Section ImportMore.
Context `{Main.Runtime}.
Import Config Main.

Implicit Types (b d : gmap string value) (st : App) (k : string) (n : nat).
Implicit Types (docs : list (gmap string value)).

Lemma id_not_legacy : "id" ∉ legacyFields.
Proof. apply (bool_decide_unpack _). by vm_compute. Qed.

Lemma legacy_not_enames : Forall (λ k, k ∉ enames) legacyFields.
Proof. apply (bool_decide_unpack _). by vm_compute. Qed.

(** The id of a record goes through the three loops untouched. *)
Lemma import_browser_id d : import_browser d !! "id" = d !! "id".
Proof.
  unfold import_browser. rewrite sanitize_id.
  rewrite delete_loop_other by apply id_not_legacy.
  apply import_loop_other; [apply id_not_iname|apply id_not_ename].
Qed.

Lemma import_browser_dom d :
  is_Some (d !! "id") →
  dom (import_browser d) = list_to_set (iname <$> fields) ∪ {["id"]}.
Proof.
  intros Hid. unfold import_browser. rewrite sanitize_dom.
  fold (inames). f_equal. apply set_eq. intros k.
  rewrite elem_of_intersection, elem_of_singleton, elem_of_dom. split.
  - by intros [_ ->].
  - intros ->. split; [|done].
    rewrite delete_loop_other by apply id_not_legacy.
    rewrite import_loop_other; [done|apply id_not_iname|apply id_not_ename].
Qed.

(** A key that is no name of the schema and not [id] does not show in
    the imported record. *)
Lemma import_field_insert d (g : field) k (v : value) :
  k ≠ iname g → k ≠ ename g →
  import_field (<[k := v]> d) g = <[k := v]> (import_field d g).
Proof.
  intros Hi He. unfold import_field, get.
  rewrite lookup_insert_ne by done. case_decide; [done|].
  rewrite delete_insert_ne by done. by rewrite insert_insert_ne.
Qed.

Lemma import_loop_insert (fs : list field) d k (v : value) :
  k ∉ iname <$> fs → k ∉ ename <$> fs →
  foldl import_field (<[k := v]> d) fs = <[k := v]> (foldl import_field d fs).
Proof.
  revert d. induction fs as [|g fs IH]; intros d Hi He; cbn [foldl]; [done|].
  rewrite fmap_cons, not_elem_of_cons in Hi, He.
  destruct Hi as [Hi Hi'], He as [He He'].
  rewrite import_field_insert by done. by apply IH.
Qed.

Lemma kept_not_legacy k : kept k → k ∉ legacyFields.
Proof.
  intros [->|Hin]; [apply id_not_legacy|]. intros Hleg.
  pose proof legacy_not_inames as Hall. rewrite Forall_forall in Hall.
  by apply (Hall k Hleg).
Qed.

Lemma import_browser_insert d k (v : value) :
  k ≠ "id" → k ∉ inames → k ∉ enames →
  import_browser (<[k := v]> d) = import_browser d.
Proof.
  intros Hid Hi He. unfold import_browser. apply sanitize_ext.
  intros k' Hk'. rewrite !delete_loop_other by by apply kept_not_legacy.
  rewrite import_loop_insert by done. apply lookup_insert_ne.
  intros <-. destruct Hk'; done.
Qed.

(** The number of records among [docs] that come without an id. *)
Definition without_id docs : nat :=
  length (filter (λ d, get d "id" = VUndefined) docs).

Lemma import_browsers_length n docs :
  length (import_browsers n docs).1 = length docs.
Proof.
  revert n. induction docs as [|d docs IH]; intros n; cbn [import_browsers];
    [done|].
  case_decide.
  - specialize (IH (S n)). destruct (import_browsers (S n) docs) as [rest n'].
    cbn [fst length] in *. by rewrite IH.
  - specialize (IH n). destruct (import_browsers n docs) as [rest n'].
    cbn [fst length] in *. by rewrite IH.
Qed.

Lemma import_browsers_count n docs :
  (import_browsers n docs).2 = n + without_id docs.
Proof.
  revert n. induction docs as [|d docs IH]; intros n; cbn [import_browsers].
  { unfold without_id. cbn [filter list_filter length snd]. lia. }
  unfold without_id. rewrite filter_cons. case_decide.
  - specialize (IH (S n)). destruct (import_browsers (S n) docs) as [rest n'].
    cbn [snd length] in *. unfold without_id in IH. lia.
  - specialize (IH n). destruct (import_browsers n docs) as [rest n'].
    cbn [snd] in *. done.
Qed.

Lemma without_id_cons d docs :
  without_id (d :: docs) =
  (if decide (get d "id" = VUndefined) then 1 else 0) + without_id docs.
Proof. unfold without_id. rewrite filter_cons. by case_decide. Qed.

Lemma import_browsers_cons n d docs :
  (import_browsers n (d :: docs)).1 =
  (if decide (get d "id" = VUndefined)
   then import_browser (<["id" := VStr (new_uuid n)]> d)
        :: (import_browsers (S n) docs).1
   else import_browser d :: (import_browsers n docs).1).
Proof.
  cbn [import_browsers]. case_decide.
  - by destruct (import_browsers (S n) docs).
  - by destruct (import_browsers n docs).
Qed.

Lemma import_browsers_ids n docs (i : nat) d b :
  docs !! i = Some d → (import_browsers n docs).1 !! i = Some b →
  b !! "id" =
  if decide (get d "id" = VUndefined)
  then Some (VStr (new_uuid (n + without_id (take i docs))))
  else d !! "id".
Proof.
  revert n i. induction docs as [|d0 docs IH]; intros n i Hd Hb; [done|].
  rewrite import_browsers_cons in Hb. rewrite lookup_cons in Hd.
  destruct i as [|i].
  - injection Hd as ->. change (take 0 (d :: docs)) with (@nil (gmap string value)).
    change (without_id []) with 0. rewrite Nat.add_0_r.
    case_decide as Hu; rewrite lookup_cons in Hb; apply (inj Some) in Hb;
      subst b.
    + by rewrite import_browser_id, lookup_insert_eq.
    + apply import_browser_id.
  - change (take (S i) (d0 :: docs)) with (d0 :: take i docs).
    rewrite without_id_cons.
    destruct (decide (get d0 "id" = VUndefined)) as [Hu|Hu];
      rewrite lookup_cons in Hb.
    + rewrite (IH (S n) i Hd Hb). case_decide; [|done].
      do 3 f_equal. lia.
    + by rewrite (IH n i Hd Hb).
Qed.

Lemma import_browsers_dom n docs :
  Forall (λ b, dom b = list_to_set (iname <$> fields) ∪ {["id"]})
    (import_browsers n docs).1.
Proof.
  revert n. induction docs as [|d docs IH]; intros n.
  { constructor. }
  rewrite import_browsers_cons. case_decide as Hu.
  - constructor; [|apply IH]. apply import_browser_dom.
    rewrite lookup_insert_eq. by eexists.
  - constructor; [|apply IH]. apply import_browser_dom.
    unfold get in Hu. destruct (d !! "id"); [by eexists|done].
Qed.

(** [importConfig] on a file the YAML parser accepts. *)
Lemma importConfig_success (file text : string) st r :
  files st !! file = Some text → jsYAML_load text = Some r →
  importConfig file st =
  (Ok None,
   set_configVersion (S (configVersion st))
     (with_effect (StoreSet "browsers")
        (set_store
           (Some (JSON_stringify (import_browsers (uuids st) (default [] r)).1))
           (set_uuids (import_browsers (uuids st) (default [] r)).2 st)))).
Proof.
  intros Hfile Hload. unfold importConfig.
  rewrite bind_run, (readFile_run file text st Hfile), Hload. mrun.
  destruct (import_browsers (uuids st) (default [] r)) as [bs n].
  unfold saveConfigs. by mrun.
Qed.

End ImportMore.


(** X10.  The ids of the imported records.  A record that comes with an
    [id] keeps it; a record without one gets a generated id, the
    generator being asked once for each such record, in the order of the
    document. *)
Theorem import_assigns_ids `{Main.Runtime} (file text : string)
  (st : Main.App) (docs : list (gmap string value)) :
  Main.files st !! file = Some text →
  Main.jsYAML_load text = Some (Some docs) →
  ∃ st' imported,
    Main.importConfig file st = (Main.Ok None, st')
    ∧ Main.store_browsers st' = Some (Main.JSON_stringify imported)
    ∧ Main.uuids st' = Main.uuids st + without_id docs
    ∧ ∀ (i : nat) d b, docs !! i = Some d → imported !! i = Some b →
        b !! "id" =
        if decide (get d "id" = VUndefined)
        then Some (VStr (Main.new_uuid
                           (Main.uuids st + without_id (take i docs))))
        else d !! "id".
Proof.
  intros Hfile Hload.
  rewrite (importConfig_success file text st _ Hfile Hload).
  eexists. exists (Main.import_browsers (Main.uuids st) docs).1.
  split; [reflexivity|]. split; [done|].
  split; [apply import_browsers_count|]. apply import_browsers_ids.
Qed.

(** X11.  Keys of a record that are neither [id] nor a name of the
    schema, internal or external, leave no trace in the imported record;
    the legacy names of the removed first output are such keys. *)
Theorem import_drops_unknown_keys `{Main.Runtime} (d : gmap string value)
  (k : string) (v : value) :
  k ∈ Main.legacyFields
  ∨ ((k ≠ "id") ∧ (k ∉ Config.iname <$> Config.fields)
     ∧ (k ∉ Config.ename <$> Config.fields)) →
  Main.import_browser (<[k := v]> d) = Main.import_browser d.
Proof.
  intros [Hleg|(Hid & Hi & He)]; [|by apply import_browser_insert].
  apply import_browser_insert.
  - intros ->. by apply id_not_legacy.
  - pose proof legacy_not_inames as Hall. rewrite Forall_forall in Hall.
    by apply Hall.
  - pose proof legacy_not_enames as Hall. rewrite Forall_forall in Hall.
    by apply Hall.
Qed.

Section ImportMoreExamples.
Import Main Model.

(** A file with one record that names its id and one that does not, and
    what the YAML reader makes of it. *)
Definition two_records : string :=
  "---" ++ nl
  ++ "-   id:                            " ++ quote ++ "A7" ++ quote ++ nl
  ++ "    BrowserTitle:                  " ++ quote ++ "Cam1" ++ quote ++ nl
  ++ "-   BrowserTitle:                  " ++ quote ++ "Cam2" ++ quote ++ nl
  ++ "    Output1Enabled:                true" ++ nl.

Definition two_docs : list (gmap string value) :=
  [ {["id" := VStr "A7"; "BrowserTitle" := VStr "Cam1"]};
    {["BrowserTitle" := VStr "Cam2"; "Output1Enabled" := VBool true]} ].

Definition importing : Main.App :=
  set_files {["/cfg/in.yaml" := two_records]} started.


Lemma import_assigns_ids_witness :
  ∃ st' imported,
    Main.importConfig "/cfg/in.yaml" importing = (Main.Ok None, st')
    ∧ Main.store_browsers st' = Some (Main.JSON_stringify imported)
    ∧ Main.uuids st' = Main.uuids importing + without_id two_docs
    ∧ ∀ (i : nat) d b, two_docs !! i = Some d → imported !! i = Some b →
        b !! "id" =
        if decide (get d "id" = VUndefined)
        then Some (VStr (Main.new_uuid
                           (Main.uuids importing + without_id (take i two_docs))))
        else d !! "id".
Proof.
  apply (import_assigns_ids "/cfg/in.yaml" two_records importing two_docs).
  - reflexivity.
  - apply (bool_decide_unpack _). vm_compute. exact I.
Defined.

Lemma import_drops_unknown_keys_witness :
  Main.import_browser
    (<["Output1Enabled" := VBool true]> {["BrowserTitle" := VStr "Cam2"]})
  = Main.import_browser {["BrowserTitle" := VStr "Cam2"]}.
Proof.
  apply (import_drops_unknown_keys {["BrowserTitle" := VStr "Cam2"]}
           "Output1Enabled" (VBool true)).
  left. unfold Main.legacyFields. left.
Defined.

End ImportMoreExamples.

(** ** Autosave and export *)

Section AutosaveFacts.
Context `{Main.Runtime}.
Import Config Main.

Implicit Types (st : App) (file : string).

(** The records of the YAML text that export and autosave write. *)
Definition yaml_body st : string :=
  yaml_blocks (delete "id" <$> sanitized (stored_configs st)).

Lemma loadConfigs_full st :
  ∃ st', loadConfigs st = (Ok (sanitized (stored_configs st)), st')
    ∧ files st' = files st ∧ browsers st' = browsers st
    ∧ settings st' = settings st
    ∧ control_destroyed st' = control_destroyed st.
Proof.
  unfold stored_configs. destruct (store_browsers st) as [j|] eqn:Hs.
  - destruct (decide (Forall (λ b, (sanitizeConfig b).1 = b) (JSON_parse j)))
      as [Hall|Hsome].
    + rewrite (loadConfigs_clean st j Hs Hall), sanitized_unchanged by done.
      by eexists.
    + rewrite (loadConfigs_dirty st j Hs Hsome). by eexists.
  - rewrite (loadConfigs_empty st Hs). by eexists.
Qed.

Lemma exportConfig_text file st :
  ∃ st', exportConfig file st = (Ok tt, st')
    ∧ files st' !! file = Some (export_header ++ yaml_body st).
Proof.
  unfold exportConfig. rewrite bind_run.
  destruct (loadConfigs_full st) as (st1 & -> & Hf & _).
  unfold writeFile. mrun. eexists. split; [reflexivity|].
  cbn [files with_effect set_files]. by rewrite lookup_insert_eq.
Qed.

Lemma performAutosave_text st :
  autosaveFile st ≠ EmptyString →
  ∃ st' head, performAutosave st = (Ok tt, st')
    ∧ files st' !! autosaveFile st = Some (head ++ yaml_body st)
    ∧ (∀ file, file ≠ autosaveFile st → files st' !! file = files st !! file)
    ∧ browsers st' = browsers st.
Proof.
  intros Hfile. unfold performAutosave. rewrite bind_run. unfold read at 1.
  destruct (String.eqb_spec (autosaveFile st) EmptyString) as [|_]; [done|].
  unfold try_catch, autosaveConfig. rewrite !bind_run.
  destruct (loadConfigs_full st) as (st1 & -> & Hf & Hb & _ & _).
  repeat (rewrite bind_run;
          match goal with
          | |- context [setting_or ?k ?d st1] =>
            destruct (setting_or_run k d st1) as [? ->]
          end).
  unfold writeFile. mrun. cbn [control_destroyed with_effect set_files].
  destruct (control_destroyed st1); mrun;
    (eexists; eexists; split; [reflexivity|]);
    cbn [files browsers with_effect set_files];
    (split; [rewrite lookup_insert_eq; reflexivity|]);
    (split; [|exact Hb]); intros file Hne; by rewrite lookup_insert_ne, Hf.
Qed.

End AutosaveFacts.


Section AutosaveExamples.
Import Main Model.


End AutosaveExamples.

(** ** The control routes *)

Section RoutesFacts.
Context `{Main.Runtime}.
Import Main Routes.

Implicit Types (id : string) (c : gmap string value) (st : App) (b : Browser).

Lemma find_by_title_None (browser : string) st :
  (∀ id b, browsers st !! id = Some b → get (cfg b) "t" ≠ VStr browser) →
  find_by_title browser st = None.
Proof.
  intros Hno. unfold find_by_title.
  destruct (List.find _ _) as [id|] eqn:Hfind; [|done].
  apply List.find_some in Hfind as [_ Htest].
  destruct (browsers st !! id) as [b|] eqn:Hb; [|done].
  apply bool_decide_eq_true in Htest. by destruct (Hno id b Hb).
Qed.

Lemma find_by_title_Some (browser : string) st id :
  find_by_title browser st = Some id →
  ∃ b, browsers st !! id = Some b ∧ get (cfg b) "t" = VStr browser.
Proof.
  unfold find_by_title. intros Hfind.
  apply List.find_some in Hfind as [_ Htest].
  destruct (browsers st !! id) as [b|] eqn:Hb; [|done].
  apply bool_decide_eq_true in Htest. by exists b.
Qed.

Lemma find_by_title_is_Some (browser : string) st id b :
  browsers st !! id = Some b → get (cfg b) "t" = VStr browser →
  is_Some (find_by_title browser st).
Proof.
  intros Hb Ht. unfold find_by_title.
  destruct (List.find _ _) as [id'|] eqn:Hfind; [by eexists|].
  exfalso. eapply List.find_none in Hfind.
  2: { apply list_elem_of_In, elem_of_browser_ids. by eexists. }
  cbv beta in Hfind. rewrite Hb in Hfind.
  by apply bool_decide_eq_false in Hfind.
Qed.

(** *** The instance configurations are out of reach of the routes *)

(** The configurations of the registry, the store and the version
    counter are as before. *)
Definition same_configuration st st' : Prop :=
  cfg <$> browsers st' = cfg <$> browsers st
  ∧ configVersion st' = configVersion st
  ∧ store_browsers st' = store_browsers st.

Definition preserves {A} (m : M A) : Prop := ∀ st, same_configuration st (m st).2.

Lemma same_configuration_refl st : same_configuration st st.
Proof. done. Qed.

Lemma same_configuration_trans st1 st2 st3 :
  same_configuration st1 st2 → same_configuration st2 st3 →
  same_configuration st1 st3.
Proof. intros (? & ? & ?) (? & ? & ?). repeat split; congruence. Qed.

Lemma preserves_ret {A} (a : A) : preserves (mret a).
Proof. by intros st. Qed.

Lemma preserves_throw {A} e : preserves (throw (A := A) e).
Proof. by intros st. Qed.

Lemma preserves_read {A} (f : App → A) : preserves (read f).
Proof. by intros st. Qed.

Lemma preserves_emit e : preserves (emit e).
Proof. by intros st. Qed.

Lemma preserves_bind {A B} (m : M A) (f : A → M B) :
  preserves m → (∀ a, preserves (f a)) → preserves (m ≫= f).
Proof.
  intros Hm Hf st. rewrite bind_run. specialize (Hm st).
  destruct (m st) as [[a|e] st1]; cbn [snd] in *; [|done].
  eapply same_configuration_trans; [exact Hm|apply Hf].
Qed.

Lemma preserves_try {A} (m : M A) (h : error → M A) :
  preserves m → (∀ e, preserves (h e)) → preserves (try_catch m h).
Proof.
  intros Hm Hh st. unfold try_catch. specialize (Hm st).
  destruct (m st) as [[a|e] st1]; cbn [snd] in *; [done|].
  eapply same_configuration_trans; [exact Hm|apply Hh].
Qed.

Lemma cfg_set_running id b (r : bool) (registry : gmap string Browser) :
  registry !! id = Some b →
  cfg <$> <[id := set_running r b]> registry = cfg <$> registry.
Proof.
  intros Hb. rewrite fmap_insert. apply map_eq. intros id'.
  destruct (decide (id' = id)) as [->|Hne].
  - by rewrite lookup_insert_eq, lookup_fmap, Hb.
  - by rewrite lookup_insert_ne.
Qed.

Lemma preserves_start id : preserves (control_start id).
Proof.
  intros st. unfold control_start. mrun.
  destruct (browsers st !! id) as [b|] eqn:Hb; [|done].
  destruct (running b); [done|]. destruct (negb (valid b)); [done|]. mrun.
  destruct (Browser_start id (cfg b)); mrun; cbn [snd];
    (split; [|done]); by apply cfg_set_running.
Qed.

Lemma preserves_stop id : preserves (control_stop id).
Proof.
  intros st. unfold control_stop. mrun.
  destruct (browsers st !! id) as [b|] eqn:Hb; [|done].
  destruct (negb (running b)); [done|]. mrun. cbn [snd].
  split; [|done]. by apply cfg_set_running.
Qed.

Lemma preserves_reload id : preserves (control_reload id).
Proof.
  intros st. unfold control_reload. mrun.
  destruct (browsers st !! id) as [b|] eqn:Hb; [|done].
  destruct (negb (running b)); [done|]. by mrun.
Qed.

Lemma preserves_clear id : preserves (control_clear id).
Proof.
  intros st. unfold control_clear. mrun.
  destruct (browsers st !! id) as [b|] eqn:Hb; [|done].
  destruct (running b); [done|]. by mrun.
Qed.

Lemma preserves_bulk (test : Browser → bool) (op : string → M unit) ids :
  (∀ id, preserves (op id)) → preserves (bulk test op ids).
Proof.
  intros Hop. induction ids as [|id ids IH]; [apply preserves_ret|].
  intros st. cbn [bulk]. destruct (browsers st !! id) as [b|]; [|done].
  destruct (test b); [|apply IH].
  specialize (Hop id st).
  destruct (op id st) as [[[]|e] st1]; cbn [snd] in *;
    (eapply same_configuration_trans; [exact Hop|apply IH]).
Qed.

Lemma preserves_bulk_action (action : string) :
  action ∈ ["start-all"; "reload-all"; "stop-all"] →
  preserves (controlBrowser action EmptyString ∅).
Proof.
  intros Ha.
  repeat (apply elem_of_cons in Ha as [->|Ha]); [| | |by apply elem_of_nil in Ha];
    (apply preserves_bind; [apply preserves_read|]); intros ids;
    apply preserves_bulk; intros id.
  - apply preserves_start.
  - apply preserves_reload.
  - apply preserves_stop.
Qed.

Lemma preserves_command (command : string) id :
  command ∈ validCommands → preserves (controlBrowser command id ∅).
Proof.
  intros Hc. unfold validCommands in Hc.
  repeat (apply elem_of_cons in Hc as [->|Hc]); [| | | |by apply elem_of_nil in Hc].
  - apply preserves_start.
  - apply preserves_stop.
  - apply preserves_reload.
  - apply preserves_clear.
Qed.

Lemma preserves_raced (timely : bool) (m : M unit) :
  preserves m → preserves (raced timely m).
Proof.
  intros Hm st. unfold raced. specialize (Hm st).
  destruct (m st) as [[[]|e] st1]; [|done]. by destruct timely.
Qed.

Lemma preserves_api_command (browser command : string) :
  preserves (api_command browser command).
Proof.
  unfold api_command. apply preserves_try; [|intros e; apply preserves_ret].
  destruct (String.eqb browser "all").
  - repeat match goal with
           | |- preserves (if ?t then _ else _) => destruct t
           end;
      try apply preserves_ret;
      (apply preserves_bind; [|intros; apply preserves_ret]);
      apply preserves_bulk_action; set_solver.
  - apply preserves_bind; [apply preserves_read|]. intros [id|];
      [|apply preserves_ret].
    repeat match goal with
           | |- preserves (if ?t then _ else _) => destruct t
           end;
      try apply preserves_ret;
      (apply preserves_bind; [|intros; apply preserves_ret]);
      apply preserves_command; unfold validCommands; set_solver.
Qed.

Lemma preserves_webui_command (timely : bool) id (command : string) :
  preserves (webui_command timely id command).
Proof.
  unfold webui_command, wrap.
  apply preserves_try; [|intros e; apply preserves_ret].
  case_bool_decide as Hc; cbn [negb]; [|apply preserves_ret].
  apply preserves_bind; [apply preserves_read|]. intros [b|];
    [|apply preserves_ret].
  apply preserves_bind; [|intros; apply preserves_ret].
  by apply preserves_raced, preserves_command.
Qed.

Lemma preserves_webui_all (command : string) :
  preserves (webui_all command).
Proof.
  unfold webui_all, wrap.
  apply preserves_try; [|intros e; apply preserves_ret].
  repeat match goal with
         | |- preserves (if ?t then _ else _) => destruct t
         end;
    try apply preserves_ret;
    (apply preserves_bind; [|intros; apply preserves_ret]);
    apply preserves_bulk_action; set_solver.
Qed.

End RoutesFacts.

(** X13.  The control routes do not reach the configuration.  Whatever
    the parameters, and whether it answers with success or with an
    error, a request to [/:browser/:command] of the REST API, or to
    [/api/instances/:id/:command] or [/api/all/:command] of the Web UI,
    leaves every instance of the registry with the configuration it
    had, adds and removes none, and leaves the store and the version
    counter as they were. *)
Theorem control_routes_keep_configuration `{Main.Runtime}
  (browser id command : string) (timely : bool) (st : Main.App) :
  same_configuration st (Routes.api_command browser command st).2
  ∧ same_configuration st (Routes.webui_command timely id command st).2
  ∧ same_configuration st (Routes.webui_all command st).2.
Proof.
  split; [apply preserves_api_command|].
  split; [apply preserves_webui_command|apply preserves_webui_all].
Qed.

(** Membership in a list that is written out. *)
Ltac in_list :=
  repeat first [apply list_elem_of_here | apply list_elem_of_further].

Ltac not_in_list H :=
  repeat (apply elem_of_cons in H as [H|H]; [done|]); by apply elem_of_nil in H.

Section RoutesAnswers.
Context `{Main.Runtime}.
Import Main Routes.

Implicit Types (id : string) (c : gmap string value) (st : App) (b : Browser).

Lemma reload_running id st b :
  browsers st !! id = Some b → running b = true →
  ∃ st', control_reload id st = (Ok tt, st') ∧ browsers st' = browsers st.
Proof.
  intros Hb Hrun. unfold control_reload. mrun. rewrite Hb, Hrun.
  cbv beta iota. cbn [negb]. mrun. by eexists.
Qed.

Lemma bulk_reload ids st :
  (∀ id, id ∈ ids → is_Some (browsers st !! id)) →
  ∃ st', bulk running control_reload ids st = (Ok tt, st')
    ∧ browsers st' = browsers st.
Proof.
  revert st. induction ids as [|id ids IH]; intros st Hall; [by eexists|].
  destruct (Hall id) as [b Hb]; [left|]. cbn [bulk]. rewrite Hb.
  destruct (running b) eqn:Hrun.
  - destruct (reload_running id st b Hb Hrun) as (st1 & -> & Hb1).
    destruct (IH st1) as (st2 & -> & Hb2).
    { intros id' Hin. rewrite Hb1. apply Hall. by right. }
    exists st2. split; [done|congruence].
  - apply IH. intros id' Hin. apply Hall. by right.
Qed.

(** The three bulk actions return without an error. *)
Lemma bulk_action_returns (action : string) st :
  action ∈ ["start-all"; "reload-all"; "stop-all"] →
  ∃ st', controlBrowser action EmptyString ∅ st = (Ok tt, st').
Proof.
  intros Ha.
  repeat (apply elem_of_cons in Ha as [->|Ha]); [| | |by apply elem_of_nil in Ha].
  - destruct (bulk_start (browser_ids st) st (browser_ids_NoDup st))
      as (st' & new & Hrun & _).
    { intros id. apply elem_of_browser_ids. }
    exists st'. exact Hrun.
  - destruct (bulk_reload (browser_ids st) st) as (st' & Hrun & _).
    { intros id. apply elem_of_browser_ids. }
    exists st'. exact Hrun.
  - destruct (stop_all_frame ∅ st) as (st' & Hrun & _). by exists st'.
Qed.

Lemma api_all_run (action : string) st :
  action ∈ ["start-all"; "reload-all"; "stop-all"] →
  ∃ st', try_catch (controlBrowser action EmptyString ∅ ;; mret OK)
           (λ err, mret (Reply 417 (Failure (message_of err)))) st
         = (Ok OK, st').
Proof.
  intros Ha. destruct (bulk_action_returns action st Ha) as (st' & Hrun).
  exists st'. unfold try_catch. by rewrite bind_run, Hrun.
Qed.

Lemma api_one_run (command : string) id st :
  try_catch (controlBrowser command id ∅ ;; mret OK)
    (λ err, mret (Reply 417 (Failure (message_of err)))) st
  = match controlBrowser command id ∅ st with
    | (Ok _, st') => (Ok OK, st')
    | (Throw e, st') => (Ok (Reply 417 (Failure (message_of e))), st')
    end.
Proof.
  unfold try_catch. rewrite bind_run.
  by destruct (controlBrowser command id ∅ st) as [[[]|e] st'].
Qed.

Lemma api_command_all (command : string) st :
  (command ∉ ["start"; "reload"; "stop"] →
   api_command "all" command st
   = (Ok (Reply 400 (Failure "invalid command")), st))
  ∧ (command ∈ ["start"; "reload"; "stop"] →
     ∃ st', api_command "all" command st = (Ok OK, st')).
Proof.
  unfold api_command.
  change (String.eqb "all" "all") with true. cbv iota.
  destruct (String.eqb_spec command "start") as [->|H1].
  { split; [intros []; in_list|]. intros _. apply api_all_run. in_list. }
  destruct (String.eqb_spec command "reload") as [->|H2].
  { split; [intros []; in_list|]. intros _. apply api_all_run. in_list. }
  destruct (String.eqb_spec command "stop") as [->|H3].
  { split; [intros []; in_list|]. intros _. apply api_all_run. in_list. }
  split; [done|]. intros Hin. not_in_list Hin.
Qed.

Lemma api_command_unknown (browser command : string) st :
  browser ≠ "all" →
  (∀ id b, browsers st !! id = Some b → get (cfg b) "t" ≠ VStr browser) →
  api_command browser command st
  = (Ok (Reply 404 (Failure "invalid browser title/name")), st).
Proof.
  intros Hall Hno. unfold api_command.
  destruct (String.eqb_spec browser "all") as [|_]; [done|].
  unfold try_catch. mrun. by rewrite find_by_title_None.
Qed.

Lemma api_command_found (browser command : string) st id :
  browser ≠ "all" → find_by_title browser st = Some id →
  (command ∉ ["start"; "reload"; "stop"; "clear"] →
   api_command browser command st
   = (Ok (Reply 400 (Failure "invalid command")), st))
  ∧ (command ∈ ["start"; "reload"; "stop"; "clear"] →
     api_command browser command st
     = match controlBrowser command id ∅ st with
       | (Ok _, st') => (Ok OK, st')
       | (Throw e, st') => (Ok (Reply 417 (Failure (message_of e))), st')
       end).
Proof.
  intros Hall Hfind. rewrite <- api_one_run. unfold api_command.
  destruct (String.eqb_spec browser "all") as [|_]; [done|].
  unfold try_catch at 1 2. rewrite !bind_run, read_run, Hfind. cbv beta iota.
  destruct (String.eqb_spec command "start") as [->|H1].
  { split; [intros []; in_list|]. intros _. unfold try_catch. by rewrite bind_run. }
  destruct (String.eqb_spec command "reload") as [->|H2].
  { split; [intros []; in_list|]. intros _. unfold try_catch. by rewrite bind_run. }
  destruct (String.eqb_spec command "stop") as [->|H3].
  { split; [intros []; in_list|]. intros _. unfold try_catch. by rewrite bind_run. }
  destruct (String.eqb_spec command "clear") as [->|H4].
  { split; [intros []; in_list|]. intros _. unfold try_catch. by rewrite bind_run. }
  split; [done|]. intros Hin. not_in_list Hin.
Qed.

Lemma webui_command_run (timely : bool) id (command : string) st :
  (command ∉ validCommands →
   webui_command timely id command st
   = (Ok (Response 400 (BodyError "invalid command")), st))
  ∧ (command ∈ validCommands → browsers st !! id = None →
     webui_command timely id command st
     = (Ok (Response 404 (BodyError "instance not found")), st))
  ∧ (command ∈ validCommands → is_Some (browsers st !! id) →
     webui_command timely id command st
     = match controlBrowser command id ∅ st with
       | (Ok _, st') =>
         (Ok (if timely then Response 200 BodyOk
              else Response 500 (BodyError (message_of timed_out))), st')
       | (Throw e, st') => (Ok (Response 500 (BodyError (message_of e))), st')
       end).
Proof.
  unfold webui_command, wrap, try_catch. split; [|split].
  - intros Hc. rewrite bool_decide_eq_false_2 by done. reflexivity.
  - intros Hc Hid. rewrite bool_decide_eq_true_2 by done. cbn [negb].
    mrun. by rewrite Hid.
  - intros Hc [b Hb]. rewrite bool_decide_eq_true_2 by done. cbn [negb].
    mrun. rewrite Hb. cbv beta iota. rewrite bind_run. unfold raced.
    destruct (controlBrowser command id ∅ st) as [[[]|e] st']; [|done].
    by destruct timely.
Qed.

Lemma webui_all_run (command : string) st :
  (command ∈ ["start"; "stop"; "reload"] →
   ∃ st', webui_all command st = (Ok (Response 200 BodyOk), st'))
  ∧ (command ∈ Object_prototype →
     webui_all command st = (Ok (Response 200 BodyOk), st))
  ∧ (command ∉ ["start"; "stop"; "reload"] → command ∉ Object_prototype →
     webui_all command st
     = (Ok (Response 400 (BodyError "invalid command")), st)).
Proof.
  assert (∀ action : string,
            action ∈ ["start-all"; "reload-all"; "stop-all"] →
            ∃ st', wrap (controlBrowser action EmptyString ∅ ;;
                         mret (Response 200 BodyOk)) st
                   = (Ok (Response 200 BodyOk), st')) as Hbulk.
  { intros action Ha.
    destruct (bulk_action_returns action st Ha) as (st' & Hrun).
    exists st'. unfold wrap, try_catch. by rewrite bind_run, Hrun. }
  assert (Forall (λ k, k ∉ Object_prototype) ["start"; "stop"; "reload"])
    as Hproto.
  { apply (bool_decide_unpack _). by vm_compute. }
  apply Forall_cons in Hproto as [P1 Hproto].
  apply Forall_cons in Hproto as [P2 Hproto].
  apply Forall_cons in Hproto as [P3 _].
  unfold webui_all.
  destruct (String.eqb_spec command "start") as [->|H1].
  { split; [intros _; apply Hbulk; in_list|].
    split; [done|]. intros []; in_list. }
  destruct (String.eqb_spec command "stop") as [->|H2].
  { split; [intros _; apply Hbulk; in_list|].
    split; [done|]. intros []; in_list. }
  destruct (String.eqb_spec command "reload") as [->|H3].
  { split; [intros _; apply Hbulk; in_list|].
    split; [done|]. intros []; in_list. }
  split; [intros Hin; not_in_list Hin|]. split.
  - intros Hin. by rewrite bool_decide_eq_true_2.
  - intros _ Hno. by rewrite bool_decide_eq_false_2.
Qed.

End RoutesAnswers.

(** X14.  The answers of [/:browser/:command] of the REST API.  A
    [browser] other than ["all"] that is the title of no instance is
    answered 404 before the command is looked at.  For ["all"] the
    commands [start], [reload] and [stop] are answered 200 and every
    other command, [clear] included, 400.  For the title of an instance
    a command other than [start], [reload], [stop] and [clear] is
    answered 400; otherwise the action runs on an instance with that
    title, and an error it throws is answered 417 with the message of
    the error.  The answers 404 and 400 leave the state as it was. *)
Theorem api_command_answers `{Main.Runtime} (browser command : string)
  (st : Main.App) :
  (browser ≠ "all" →
   (∀ id b, Main.browsers st !! id = Some b →
            get (Main.cfg b) "t" ≠ VStr browser) →
   Routes.api_command browser command st
   = (Main.Ok (Routes.Reply 404 (Routes.Failure "invalid browser title/name")),
      st))
  ∧ (command ∉ ["start"; "reload"; "stop"] →
     Routes.api_command "all" command st
     = (Main.Ok (Routes.Reply 400 (Routes.Failure "invalid command")), st))
  ∧ (command ∈ ["start"; "reload"; "stop"] →
     ∃ st', Routes.api_command "all" command st
            = (Main.Ok (Routes.Reply 200 (Routes.Text "OK")), st'))
  ∧ (browser ≠ "all" →
     ∀ id b, Main.browsers st !! id = Some b →
       get (Main.cfg b) "t" = VStr browser →
       ∃ id' b', Main.browsers st !! id' = Some b'
         ∧ get (Main.cfg b') "t" = VStr browser
         ∧ (command ∉ ["start"; "reload"; "stop"; "clear"] →
            Routes.api_command browser command st
            = (Main.Ok (Routes.Reply 400 (Routes.Failure "invalid command")),
               st))
         ∧ (command ∈ ["start"; "reload"; "stop"; "clear"] →
            Routes.api_command browser command st
            = match Main.controlBrowser command id' ∅ st with
              | (Main.Ok _, st') =>
                (Main.Ok (Routes.Reply 200 (Routes.Text "OK")), st')
              | (Main.Throw e, st') =>
                (Main.Ok (Routes.Reply 417
                            (Routes.Failure (Main.message_of e))), st')
              end)).
Proof.
  split; [apply api_command_unknown|].
  split; [apply api_command_all|]. split; [apply api_command_all|].
  intros Hall id b Hb Ht.
  destruct (find_by_title_is_Some browser st id b Hb Ht) as [id' Hfind].
  destruct (find_by_title_Some browser st id' Hfind) as (b' & Hb' & Ht').
  exists id', b'. split; [done|]. split; [done|].
  by apply api_command_found.
Qed.

(** X15.  The answers of [/api/instances/:id/:command] of the Web UI.
    A command other than [start], [stop], [reload] and [clear] is
    answered 400 before the id is looked at; a known command on an id
    that is not in the registry (and is not a name that every object
    inherits) is answered 404; both leave the state as it was.  Otherwise the action runs: an error it throws is
    answered 500 with the message of the error, as is an operation that
    is not through within the twelve seconds of the timer. *)
Theorem webui_command_answers `{Main.Runtime} (timely : bool)
  (id command : string) (st : Main.App) :
  (command ∉ ["start"; "stop"; "reload"; "clear"] →
   Routes.webui_command timely id command st
   = (Main.Ok (Main.Response 400 (Main.BodyError "invalid command")), st))
  ∧ (command ∈ ["start"; "stop"; "reload"; "clear"] →
     id ∉ Routes.Object_prototype →
     Main.browsers st !! id = None →
     Routes.webui_command timely id command st
     = (Main.Ok (Main.Response 404 (Main.BodyError "instance not found")), st))
  ∧ (command ∈ ["start"; "stop"; "reload"; "clear"] →
     is_Some (Main.browsers st !! id) →
     Routes.webui_command timely id command st
     = match Main.controlBrowser command id ∅ st with
       | (Main.Ok _, st') =>
         (Main.Ok
            (if timely then Main.Response 200 Main.BodyOk
             else Main.Response 500
                    (Main.BodyError "operation timed out after 12 seconds")),
          st')
       | (Main.Throw e, st') =>
         (Main.Ok (Main.Response 500 (Main.BodyError (Main.message_of e))), st')
       end).
Proof.
  destruct (webui_command_run timely id command st) as (H400 & H404 & Hrun).
  split; [exact H400|]. split; [|exact Hrun].
  intros Hc _ Hid. by apply H404.
Qed.

(** X16.  The answers of [/api/all/:command] of the Web UI.  The
    commands [start], [stop] and [reload] are always answered 200.  A
    command that is a property name every object inherits, such as
    [constructor] or [toString], passes the test of the handler and is
    answered 200 too, with nothing done.  Every other command is
    answered 400, with the state as it was. *)
Theorem webui_all_answers `{Main.Runtime} (command : string) (st : Main.App) :
  (command ∈ ["start"; "stop"; "reload"] →
   ∃ st', Routes.webui_all command st
          = (Main.Ok (Main.Response 200 Main.BodyOk), st'))
  ∧ (command ∈ Routes.Object_prototype →
     Routes.webui_all command st = (Main.Ok (Main.Response 200 Main.BodyOk), st))
  ∧ (command ∉ ["start"; "stop"; "reload"] →
     command ∉ Routes.Object_prototype →
     Routes.webui_all command st
     = (Main.Ok (Main.Response 400 (Main.BodyError "invalid command")), st)).
Proof. apply webui_all_run. Qed.

Section RoutesExamples.
Import Main Model Routes.

Lemma api_command_answers_witness :
  Routes.api_command "Cam9" "start" started
  = (Main.Ok (Routes.Reply 404 (Routes.Failure "invalid browser title/name")),
     started)
  ∧ Routes.api_command "all" "clear" started
    = (Main.Ok (Routes.Reply 400 (Routes.Failure "invalid command")), started)
  ∧ (∃ st', Routes.api_command "all" "stop" started
            = (Main.Ok (Routes.Reply 200 (Routes.Text "OK")), st'))
  ∧ (∃ id' b', Main.browsers started !! id' = Some b'
       ∧ get (Main.cfg b') "t" = VStr "Cam1"
       ∧ (("start" : string) ∉ ["start"; "reload"; "stop"; "clear"] →
          Routes.api_command "Cam1" "start" started
          = (Main.Ok (Routes.Reply 400 (Routes.Failure "invalid command")),
             started))
       ∧ (("start" : string) ∈ ["start"; "reload"; "stop"; "clear"] →
          Routes.api_command "Cam1" "start" started
          = match Main.controlBrowser "start" id' ∅ started with
            | (Main.Ok _, st') =>
              (Main.Ok (Routes.Reply 200 (Routes.Text "OK")), st')
            | (Main.Throw e, st') =>
              (Main.Ok (Routes.Reply 417
                          (Routes.Failure (Main.message_of e))), st')
            end)).
Proof.
  split; [|split; [|split]].
  - apply (api_command_answers "Cam9" "start" started); [done|].
    assert (map_Forall (λ _ b, get (Main.cfg b) "t" ≠ VStr "Cam9")
              (Main.browsers started)) as Hall.
    { apply (bool_decide_unpack _). vm_compute. exact I. }
    exact Hall.
  - apply (proj1 (proj2 (api_command_answers "all" "clear" started))).
    intros Hin. not_in_list Hin.
  - apply (proj1 (proj2 (proj2 (api_command_answers "all" "stop" started)))).
    in_list.
  - apply (proj2 (proj2 (proj2 (api_command_answers "Cam1" "start" started)))
             ltac:(done) "A" {| Main.cfg := cam; Main.worker_running := true |}).
    + reflexivity.
    + vm_compute. reflexivity.
Defined.

Lemma webui_command_answers_witness :
  Routes.webui_command true "ghost" "restart" started
  = (Main.Ok (Main.Response 400 (Main.BodyError "invalid command")), started)
  ∧ Routes.webui_command true "ghost" "start" started
    = (Main.Ok (Main.Response 404 (Main.BodyError "instance not found")),
       started)
  ∧ Routes.webui_command true "A" "start" started
    = match Main.controlBrowser "start" "A" ∅ started with
      | (Main.Ok _, st') =>
        (Main.Ok
           (if true then Main.Response 200 Main.BodyOk
            else Main.Response 500
                   (Main.BodyError "operation timed out after 12 seconds")),
         st')
      | (Main.Throw e, st') =>
        (Main.Ok (Main.Response 500 (Main.BodyError (Main.message_of e))), st')
      end.
Proof.
  split; [|split].
  - apply (webui_command_answers true "ghost" "restart" started).
    intros Hin. not_in_list Hin.
  - apply (proj1 (proj2 (webui_command_answers true "ghost" "start" started)));
      [in_list| |reflexivity].
    by apply (bool_decide_unpack _).
  - apply (proj2 (proj2 (webui_command_answers true "A" "start" started)));
      [in_list|]. by eexists.
Defined.

Lemma webui_all_answers_witness :
  (∃ st', Routes.webui_all "reload" started
          = (Main.Ok (Main.Response 200 Main.BodyOk), st'))
  ∧ Routes.webui_all "toString" started
    = (Main.Ok (Main.Response 200 Main.BodyOk), started)
  ∧ Routes.webui_all "restart" started
    = (Main.Ok (Main.Response 400 (Main.BodyError "invalid command")), started).
Proof.
  split; [|split].
  - apply (webui_all_answers "reload" started). in_list.
  - apply (proj1 (proj2 (webui_all_answers "toString" started))).
    unfold Object_prototype. in_list.
  - apply (proj2 (proj2 (webui_all_answers "restart" started))).
    + intros Hin. not_in_list Hin.
    + apply (bool_decide_unpack _). by vm_compute.
Defined.

End RoutesExamples.

(** ** Editing an instance through the Web UI *)

Section PatchFacts.
Context `{Main.Runtime}.
Import Config Main.

Implicit Types (id : string) (c body : gmap string value) (st : App) (b : Browser).

(** The configuration [PATCH] hands to ["mod"]: [{ ...cfg, ...body }],
    sanitized. *)
Definition patched body b : gmap string value :=
  (sanitizeConfig (body ∪ cfg b)).1.

Lemma mod_run id c st b :
  browsers st !! id = Some b →
  ∃ st', control_mod id c st = (Ok tt, st')
    ∧ browsers st' = <[id := reconfigure c b]> (browsers st)
    ∧ configVersion st' = configVersion st
    ∧ store_browsers st' = store_browsers st
    ∧ control_destroyed st' = control_destroyed st.
Proof.
  intros Hb. unfold control_mod. mrun. rewrite Hb. cbv beta iota. mrun.
  by eexists.
Qed.

Lemma patch_stopped_run id body st b :
  browsers st !! id = Some b → running b = false →
  ∃ st', webui_patch_instance id body st
         = (Ok (Response 200 (BodyOkRestarted false)), st')
    ∧ browsers st' = <[id := reconfigure (patched body b) b]> (browsers st).
Proof.
  intros Hb Hrun. unfold webui_patch_instance, wrap, try_catch.
  rewrite bind_run, lookup_run, Hb. cbv beta iota. rewrite Hrun.
  rewrite bind_run, ret_run. cbv beta iota. rewrite bind_run.
  change (controlBrowser "mod" id ?c) with (control_mod id c).
  destruct (mod_run id (patched body b) st b Hb) as (st1 & Hmod & Hb1 & _).
  unfold patched in Hmod. rewrite Hmod. cbv beta iota.
  rewrite bind_run, ret_run. cbv beta iota. rewrite bind_run.
  destruct (saveBrowsersToStore_spec st1) as (st2 & -> & _ & _ & Hb2).
  cbv beta iota. mrun. eexists. split; [reflexivity|]. by rewrite Hb2, Hb1.
Qed.

Lemma patch_running_invalid_run id body st b :
  browsers st !! id = Some b → running b = true →
  valid (Browser_new (patched body b)) = false →
  ∃ st', webui_patch_instance id body st
         = (Ok (Response 500 (BodyError "browser configuration not valid")), st')
    ∧ browsers st' = <[id := Browser_new (patched body b)]> (browsers st)
    ∧ configVersion st' = configVersion st
    ∧ store_browsers st' = store_browsers st.
Proof.
  intros Hb Hrun Hval. unfold webui_patch_instance, wrap, try_catch.
  rewrite bind_run, lookup_run, Hb. cbv beta iota. rewrite Hrun.
  rewrite bind_run. rewrite controlBrowser_stop.
  destruct (stop_running id st b Hb Hrun) as (st1 & -> & Hb1 & _ & Hv1 & Hs1).
  cbv beta iota. rewrite bind_run.
  change (controlBrowser "mod" id ?c) with (control_mod id c).
  assert (browsers st1 !! id = Some (set_running false b)) as Hid1.
  { by rewrite Hb1, lookup_insert_eq. }
  destruct (mod_run id (patched body b) st1 _ Hid1)
    as (st2 & Hmod & Hb2 & Hv2 & Hs2 & _).
  unfold patched in Hmod. rewrite Hmod. cbv beta iota.
  rewrite bind_run, controlBrowser_start.
  rewrite (start_invalid id st2 (Browser_new (patched body b))).
  - eexists. split; [reflexivity|]. rewrite Hb2, Hb1, insert_insert_eq.
    split; [done|]. split; congruence.
  - by rewrite Hb2, lookup_insert_eq.
  - done.
  - done.
Qed.

Lemma get_union body c k :
  get (body ∪ c) k = match body !! k with Some v => v | None => get c k end.
Proof.
  unfold get. destruct (body !! k) as [v|] eqn:Hk.
  - by rewrite (lookup_union_Some_l _ _ _ _ Hk).
  - by rewrite lookup_union_r.
Qed.

Lemma patched_kept body b (f : field) :
  f ∈ fields → body !! iname f = None →
  get (cfg b) (iname f) ≠ VUndefined →
  (iname f = "it" → get (cfg b) "it" ≠ VStr "video") →
  get (patched body b) (iname f) = get (cfg b) (iname f).
Proof.
  intros Hf Hnone Hdef Hit. unfold patched. rewrite sanitize_value by done.
  rewrite !get_union, Hnone. rewrite decide_False by done.
  case_decide as Hv; [|done]. destruct Hv as [Heq Hv].
  rewrite Heq in Hnone. rewrite Hnone in Hv. by destruct (Hit Heq).
Qed.

Lemma patched_set body b (f : field) (v : value) :
  f ∈ fields → body !! iname f = Some v → v ≠ VUndefined →
  v ≠ VStr "video" →
  get (patched body b) (iname f) = v.
Proof.
  intros Hf Hsome Hdef Hvid. unfold patched. rewrite sanitize_value by done.
  rewrite !get_union, Hsome. rewrite decide_False by done.
  case_decide as Hv; [|done]. destruct Hv as [Heq Hv].
  rewrite Heq in Hsome. rewrite Hsome in Hv. done.
Qed.

End PatchFacts.

(** X17.  [PATCH /api/instances/:id] on a stopped instance is a partial
    update.  It is answered 200 with [restarted: false]; the instance
    stays stopped, the other instances are as before, and of the
    configuration handed to the instance every schema field that the
    body names with a value holds that value, and every schema field
    that the body does not name holds the value it had.  (Fields without
    a value and the retired input type ["video"] are as the sanitizer
    leaves them.) *)
Theorem patch_is_partial_update `{Main.Runtime} (id : string)
  (body : gmap string value) (st : Main.App) (b : Main.Browser) :
  Main.browsers st !! id = Some b → Main.running b = false →
  ∃ st' b',
    Main.webui_patch_instance id body st
    = (Main.Ok (Main.Response 200 (Main.BodyOkRestarted false)), st')
    ∧ Main.browsers st' !! id = Some b'
    ∧ Main.running b' = false
    ∧ (∀ id', id' ≠ id → Main.browsers st' !! id' = Main.browsers st !! id')
    ∧ (∀ f v, f ∈ Config.fields → body !! Config.iname f = Some v →
         v ≠ VUndefined → v ≠ VStr "video" →
         get (Main.cfg b') (Config.iname f) = v)
    ∧ (∀ f, f ∈ Config.fields → body !! Config.iname f = None →
         get (Main.cfg b) (Config.iname f) ≠ VUndefined →
         (Config.iname f = "it" → get (Main.cfg b) "it" ≠ VStr "video") →
         get (Main.cfg b') (Config.iname f) = get (Main.cfg b) (Config.iname f)).
Proof.
  intros Hb Hrun.
  destruct (patch_stopped_run id body st b Hb Hrun) as (st' & Hpatch & Hb').
  exists st', (Main.reconfigure (patched body b) b).
  split; [done|]. split; [by rewrite Hb', lookup_insert_eq|].
  split; [done|]. split.
  { intros id' Hne. by rewrite Hb', lookup_insert_ne. }
  split.
  - intros f v. apply patched_set.
  - intros f. apply patched_kept.
Qed.

(** X18.  [PATCH /api/instances/:id] on a running instance whose edited
    configuration is not valid.  The handler stops the instance, hands
    it the new configuration and fails to start it again: the request is
    answered 500 with the message of the invalid configuration, the
    instance is left stopped with the new configuration, and nothing is
    saved, the store and the version counter being as before. *)
Theorem patch_running_invalid_unsaved `{Main.Runtime} (id : string)
  (body : gmap string value) (st : Main.App) (b : Main.Browser) :
  Main.browsers st !! id = Some b → Main.running b = true →
  Main.valid (Main.Browser_new (patched body b)) = false →
  ∃ st',
    Main.webui_patch_instance id body st
    = (Main.Ok (Main.Response 500
                  (Main.BodyError "browser configuration not valid")), st')
    ∧ Main.browsers st'
      = <[id := Main.Browser_new (patched body b)]> (Main.browsers st)
    ∧ Main.configVersion st' = Main.configVersion st
    ∧ Main.store_browsers st' = Main.store_browsers st.
Proof. apply patch_running_invalid_run. Qed.

Section PatchExamples.
Import Main Model.

Lemma patch_is_partial_update_witness :
  ∃ st' b',
    Main.webui_patch_instance "A" {["w" := VStr "640"]} added
    = (Main.Ok (Main.Response 200 (Main.BodyOkRestarted false)), st')
    ∧ Main.browsers st' !! "A" = Some b'
    ∧ Main.running b' = false
    ∧ (∀ id', id' ≠ "A" →
         Main.browsers st' !! id' = Main.browsers added !! id')
    ∧ (∀ f v, f ∈ Config.fields →
         ({["w" := VStr "640"]} : gmap string value) !! Config.iname f = Some v →
         v ≠ VUndefined → v ≠ VStr "video" →
         get (Main.cfg b') (Config.iname f) = v)
    ∧ (∀ f, f ∈ Config.fields →
         ({["w" := VStr "640"]} : gmap string value) !! Config.iname f = None →
         get cam (Config.iname f) ≠ VUndefined →
         (Config.iname f = "it" → get cam "it" ≠ VStr "video") →
         get (Main.cfg b') (Config.iname f) = get cam (Config.iname f)).
Proof.
  apply (patch_is_partial_update "A" {["w" := VStr "640"]} added
           {| Main.cfg := cam; Main.worker_running := false |});
    reflexivity.
Defined.

Lemma patch_running_invalid_unsaved_witness :
  ∃ st',
    Main.webui_patch_instance "A" {["t" := VStr EmptyString]} started
    = (Main.Ok (Main.Response 500
                  (Main.BodyError "browser configuration not valid")), st')
    ∧ Main.browsers st'
      = <["A" := Main.Browser_new
                   (patched {["t" := VStr EmptyString]}
                      {| Main.cfg := cam; Main.worker_running := true |})]>
          (Main.browsers started)
    ∧ Main.configVersion st' = Main.configVersion started
    ∧ Main.store_browsers st' = Main.store_browsers started.
Proof.
  apply (patch_running_invalid_unsaved "A" {["t" := VStr EmptyString]} started
           {| Main.cfg := cam; Main.worker_running := true |}).
  - reflexivity.
  - reflexivity.
  - vm_compute. reflexivity.
Defined.

End PatchExamples.

(** ** The syslog sender *)

Section TextFacts.
Import Text.

Implicit Types (s a b : string) (c : ascii) (n : nat).

Lemma length_app a b :
  String.length (a ++ b) = String.length a + String.length b.
Proof.
  induction a as [|c a IH]; [done|].
  change (String c a ++ b) with (String c (a ++ b)). cbn [String.length].
  by rewrite IH.
Qed.

Lemma length_repeat_char c n : String.length (repeat_char c n) = n.
Proof. induction n as [|n IH]; [done|]. cbn. by rewrite IH. Qed.

(** A number below one hundred, padded to two places, takes two. *)
Lemma padStart_two c n :
  (n < 100)%nat → String.length (padStart 2 c (String_nat n)) = 2.
Proof.
  intros Hn.
  assert (Forall (λ k, (String.length (String_nat k) ≤ 2)%nat) (seq 0 100)) as Hall.
  { apply (bool_decide_unpack _). by vm_compute. }
  rewrite Forall_forall in Hall. specialize (Hall n).
  unfold padStart. rewrite length_app, length_repeat_char.
  assert (String.length (String_nat n) ≤ 2)%nat; [|lia].
  apply Hall, elem_of_seq. lia.
Qed.

(** The characters of a string. *)
Fixpoint contains c s : bool :=
  match s with
  | EmptyString => false
  | String c' s' => Ascii.eqb c' c || contains c s'
  end.

Lemma length_substring n s : (String.length (String.substring 0 n s) ≤ n)%nat.
Proof.
  revert s. induction n as [|n IH]; intros s.
  { by destruct s. }
  destruct s as [|c s]; cbn; [lia|]. specialize (IH s). lia.
Qed.

Lemma contains_substring c n s :
  contains c s = false → contains c (String.substring 0 n s) = false.
Proof.
  revert s. induction n as [|n IH]; intros s.
  { by destruct s. }
  destruct s as [|c' s]; cbn; [done|].
  intros [Hc Hs]%orb_false_iff. rewrite Hc. by apply IH.
Qed.

End TextFacts.

Section SyslogFacts.
Context `{Syslog.Builtins}.
Import Text Syslog.

Implicit Types (s : sender) (e i p : value) (now : date).

Lemma before_dot_no_dot (a : string) : contains "." (before_dot a) = false.
Proof.
  induction a as [|c a IH]; [done|]. cbn [before_dot].
  destruct (Ascii.eqb c ".") eqn:Hc; [done|]. cbn [contains]. by rewrite Hc.
Qed.

Lemma month_three (m : nat) :
  (m < 12)%nat → String.length (default "undefined" (MONTHS !! m)) = 3.
Proof.
  intros Hm.
  assert (Forall (λ k, String.length (default "undefined" (MONTHS !! k)) = 3)
            (seq 0 12)) as Hall.
  { apply (bool_decide_unpack _). by vm_compute. }
  rewrite Forall_forall in Hall. apply Hall, elem_of_seq. lia.
Qed.

Lemma timestamp_length now :
  (getMonth now < 12)%nat → (getDate now < 100)%nat →
  (getHours now < 100)%nat → (getMinutes now < 100)%nat →
  (getSeconds now < 100)%nat →
  String.length (rfc3164Timestamp now) = 15.
Proof.
  intros Hmo Hd Hh Hm Hs. unfold rfc3164Timestamp.
  rewrite !length_app, month_three, !padStart_two by done. reflexivity.
Qed.

Lemma severity_range (level : string) : (severity_of level < 8)%nat.
Proof.
  unfold severity_of, SEVERITY. cbn [List.find fst].
  repeat (match goal with
          | |- context [String.eqb ?a level] => destruct (String.eqb a level)
          end; [cbn; lia|]).
  cbn. lia.
Qed.

Lemma priority_three (level : string) :
  String.length (String_nat (FACILITY_LOCAL0 * 8 + severity_of level)) = 3.
Proof.
  pose proof (severity_range level) as Hk.
  assert (Forall (λ k, String.length (String_nat (FACILITY_LOCAL0 * 8 + k)) = 3)
            (seq 0 8)) as Hall.
  { apply (bool_decide_unpack _). by vm_compute. }
  rewrite Forall_forall in Hall. apply Hall, elem_of_seq. lia.
Qed.

Lemma configure_hostname e i p s0 s (k : completion) :
  configure e i p s0 = (s, k) → hostname s = hostname s0.
Proof.
  unfold configure. intros Hc.
  repeat match type of Hc with
         | context [if ?t then _ else _] => destruct t
         | context [match ?v with _ => _ end] => destruct v
         end;
    by injection Hc as <- <-.
Qed.

Lemma new_sender_hostname (host : string) :
  (String.length (hostname (new_sender host)) ≤ 15)%nat
  ∧ contains "." (hostname (new_sender host)) = false.
Proof.
  cbn [hostname new_sender]. split; [apply length_substring|].
  apply contains_substring, before_dot_no_dot.
Qed.

(** What [configure] leaves when it returns, and when it throws. *)
Lemma configure_returned e i p s0 s :
  configure e i p s0 = (s, Returned) →
  enabled s = ToBoolean e && ToBoolean i
              && match i with
                 | VStr a => negb (String.eqb (trim a) EmptyString)
                 | _ => false
                 end
  ∧ ip s = match i with VStr a => trim a | _ => trim EmptyString end
  ∧ port s = (if num_truthy (parseInt (ToString p)) then parseInt (ToString p)
              else num_of_Z 514).
Proof.
  unfold configure.
  destruct (ToBoolean e); cbn [negb andb];
    destruct i as [| |[]|n|a]; cbn [ToBoolean negb andb];
    try destruct (num_truthy n) eqn:Hn;
    try destruct (String.eqb_spec a EmptyString) as [->|Ha];
    cbn [negb andb]; intros Hc; try discriminate Hc;
    injection Hc as <-; cbn [enabled ip port]; done.
Qed.

Lemma configure_thrown e i p s0 s :
  configure e i p s0 = (s, TypeError) →
  ToBoolean i = true ∧ (∀ a, i ≠ VStr a)
  ∧ ip s = ip s0 ∧ port s = port s0
  ∧ (enabled s = enabled s0 ∨ enabled s = false).
Proof.
  unfold configure.
  destruct (ToBoolean e); cbn [negb andb];
    destruct i as [| |[]|n|a]; cbn [ToBoolean negb andb];
    try destruct (num_truthy n) eqn:Hn;
    try destruct (String.eqb_spec a EmptyString) as [->|Ha];
    cbn [negb andb]; intros Hc; try discriminate Hc;
    injection Hc as <-; cbn [enabled ip port]; repeat split; try done; auto.
Qed.

Lemma configure_throws e i p s0 :
  ToBoolean i = true → (∀ a, i ≠ VStr a) →
  ∃ s, configure e i p s0 = (s, TypeError).
Proof.
  intros Hi Hno. unfold configure. rewrite Hi. cbn [negb].
  destruct (ToBoolean e); cbn [negb];
    destruct i as [| |b|n|a]; try (by eexists); by destruct (Hno a).
Qed.

Lemma send_is_Some s now (level tag msg : string) :
  is_Some (send s now level tag msg)
  ↔ enabled s = true ∧ ip s ≠ EmptyString.
Proof.
  unfold send. destruct (enabled s); cbn [negb orb].
  - destruct (String.eqb_spec (ip s) EmptyString) as [Hi|Hi].
    + split; [by intros [? ?]|]. by intros [_ ?].
    + split; [done|]. intros _. by eexists.
  - split; [by intros [? ?]|]. by intros [? _].
Qed.

End SyslogFacts.

(** X19.  The layout of a syslog datagram.  Whatever the tag and the
    message, and whatever the level (a name that every object inherits
    apart), a datagram of a sender that was created and configured
    opens with a priority of three digits between angle
    brackets and a timestamp of fifteen characters, followed by the host
    name, which has at most fifteen characters and no dot; it goes to
    the address and the port of the sender.  (The fields of the date
    are below 12 for the month and below 100 for the others.) *)
Theorem syslog_datagram_layout `{Syslog.Builtins} (host : string)
  (e i p : value) (s : Syslog.sender) (now : Text.date)
  (level tag message : string) (g : Syslog.datagram) :
  Syslog.configure e i p (Syslog.new_sender host) = (s, Syslog.Returned) →
  (Text.getMonth now < 12)%nat → (Text.getDate now < 100)%nat →
  (Text.getHours now < 100)%nat → (Text.getMinutes now < 100)%nat →
  (Text.getSeconds now < 100)%nat →
  level ∉ Routes.Object_prototype →
  Syslog.send s now level tag message = Some g →
  ∃ pri ts,
    Syslog.raw g = "<" ++ pri ++ ">" ++ ts ++ " " ++ Syslog.hostname s
                   ++ " WebRetriever[" ++ tag ++ "]: " ++ message
    ∧ String.length pri = 3
    ∧ String.length ts = 15
    ∧ (String.length (Syslog.hostname s) ≤ 15)%nat
    ∧ contains "." (Syslog.hostname s) = false
    ∧ Syslog.to_ip g = Syslog.ip s
    ∧ Syslog.to_port g = Syslog.port s.
Proof.
  intros Hc Hmo Hd Hh Hm Hs _ Hsend. unfold Syslog.send in Hsend.
  destruct (negb (Syslog.enabled s) || String.eqb (Syslog.ip s) EmptyString);
    [discriminate Hsend|].
  apply (inj Some) in Hsend. subst g. cbn [Syslog.raw Syslog.to_ip Syslog.to_port].
  eexists. eexists. split; [reflexivity|].
  split; [apply priority_three|]. split; [by apply timestamp_length|].
  rewrite (configure_hostname _ _ _ _ _ _ Hc).
  destruct (new_sender_hostname host) as [Hlen Hdot]. done.
Qed.

(** X20.  What [configure] makes of a sender.  When it returns, the
    sender is enabled exactly when [enabled] is truthy and [ip] is a
    non-empty string that is not empty after trimming; an enabled
    sender has a non-empty address, so [send] sends a datagram exactly
    when the sender is enabled; and the port is never a falsy number.
    It throws a [TypeError] exactly when [ip] is truthy and not a
    string, and then leaves the address and the port as they were. *)
Theorem syslog_configure_enables `{Syslog.Builtins} (e i p : value)
  (s0 : Syslog.sender) :
  (∀ s, Syslog.configure e i p s0 = (s, Syslog.Returned) →
     (Syslog.enabled s = true ↔
      ToBoolean e = true
      ∧ ∃ a, i = VStr a ∧ a ≠ EmptyString ∧ Syslog.trim a ≠ EmptyString)
     ∧ (Syslog.enabled s = true → Syslog.ip s ≠ EmptyString)
     ∧ (∀ now level tag msg,
          is_Some (Syslog.send s now level tag msg) ↔ Syslog.enabled s = true)
     ∧ (num_truthy (num_of_Z 514) = true → num_truthy (Syslog.port s) = true))
  ∧ ((∃ s, Syslog.configure e i p s0 = (s, Syslog.TypeError))
     ↔ ToBoolean i = true ∧ ∀ a, i ≠ VStr a)
  ∧ (∀ s, Syslog.configure e i p s0 = (s, Syslog.TypeError) →
     Syslog.ip s = Syslog.ip s0 ∧ Syslog.port s = Syslog.port s0).
Proof.
  split; [|split].
  - intros s Hc. destruct (configure_returned e i p s0 s Hc) as (He & Hi & Hp).
    assert (Syslog.enabled s = true ↔
            ToBoolean e = true
            ∧ ∃ a, i = VStr a ∧ a ≠ EmptyString ∧ Syslog.trim a ≠ EmptyString)
      as Hiff.
    { rewrite He, !andb_true_iff. split.
      - intros [[Hte Hti] Htr]. split; [done|].
        destruct i as [| |b|n|a]; try discriminate Htr. exists a.
        split; [done|]. cbn [ToBoolean] in Hti.
        apply negb_true_iff, String.eqb_neq in Hti, Htr. done.
      - intros [Hte (a & -> & Ha & Htr)]. cbn [ToBoolean].
        apply String.eqb_neq in Ha, Htr. by rewrite Ha, Htr. }
    assert (Syslog.enabled s = true → Syslog.ip s ≠ EmptyString) as Hip.
    { intros Hen. apply Hiff in Hen as [_ (a & -> & _ & Htr)]. by rewrite Hi. }
    split; [done|]. split; [done|]. split.
    + intros now level tag msg. rewrite send_is_Some. split; [by intros [? _]|].
      intros Hen. split; [done|by apply Hip].
    + intros H514. rewrite Hp.
      by destruct (num_truthy (Syslog.parseInt (ToString p))) eqn:Hn.
  - split.
    + intros [s Hc]. by destruct (configure_thrown e i p s0 s Hc) as (? & ? & _).
    + intros [Hi Hno]. by apply configure_throws.
  - intros s Hc. by destruct (configure_thrown e i p s0 s Hc) as (_ & _ & ? & ? & _).
Qed.

Section SyslogExamples.
Import Model Text Syslog.

(** Builtins for the examples: [trim] takes the blanks off both ends of
    a string, [parseInt] reads a decimal numeral. *)
Fixpoint drop_end (s : string) : string :=
  match s with
  | EmptyString => EmptyString
  | String c s' =>
    if Ascii.eqb c " " && String.eqb (drop_end s') EmptyString
    then EmptyString else String c (drop_end s')
  end.

#[local] Instance builtins : Builtins :=
  {| trim := λ s, drop_end (drop_spaces s); parseInt := znum_of_string |}.

Definition studio : sender :=
  (configure (VBool true) (VStr " 10.0.0.5 ") (VStr "5514")
     (new_sender "studio.example.org")).1.

Definition morning : date :=
  {| getFullYear := 2025; getMonth := 10; getDate := 2; getHours := 7;
     getMinutes := 5; getSeconds := 9 |}.

Definition hello : datagram :=
  {| raw := "<134>Nov  2 07:05:09 studio WebRetriever[app]: hello";
     to_port := num_of_Z 5514; to_ip := "10.0.0.5" |}.

Lemma syslog_datagram_layout_witness :
  ∃ pri ts,
    raw hello = "<" ++ pri ++ ">" ++ ts ++ " " ++ hostname studio
                ++ " WebRetriever[" ++ "app" ++ "]: " ++ "hello"
    ∧ String.length pri = 3
    ∧ String.length ts = 15
    ∧ (String.length (hostname studio) ≤ 15)%nat
    ∧ contains "." (hostname studio) = false
    ∧ to_ip hello = ip studio
    ∧ to_port hello = port studio.
Proof.
  apply (syslog_datagram_layout "studio.example.org" (VBool true)
           (VStr " 10.0.0.5 ") (VStr "5514") studio morning "info" "app"
           "hello" hello).
  - vm_compute. reflexivity.
  - cbn. lia.
  - cbn. lia.
  - cbn. lia.
  - cbn. lia.
  - cbn. lia.
  - by apply (bool_decide_unpack _).
  - vm_compute. reflexivity.
Defined.

Lemma syslog_configure_enables_witness :
  (enabled studio = true ↔
   ToBoolean (VBool true) = true
   ∧ ∃ a, VStr " 10.0.0.5 " = VStr a ∧ a ≠ EmptyString ∧ trim a ≠ EmptyString)
  ∧ (enabled studio = true → ip studio ≠ EmptyString)
  ∧ (∀ now level tag msg,
       is_Some (send studio now level tag msg) ↔ enabled studio = true)
  ∧ (num_truthy (num_of_Z 514) = true → num_truthy (port studio) = true).
Proof.
  apply (proj1 (syslog_configure_enables (VBool true) (VStr " 10.0.0.5 ")
                  (VStr "5514") (new_sender "studio.example.org")) studio).
  vm_compute. reflexivity.
Defined.

End SyslogExamples.

(** ** Uploads *)

Section UploadFacts.
Import Text Media Upload.

Implicit Types (a b s ext base name : string) (c : ascii) (n k fuel : nat).
Implicit Types (segs : list string) (fs : gmap string node).

Lemma no_slash_app a b : no_slash (a ++ b) = no_slash a && no_slash b.
Proof.
  induction a as [|c a IH]; [done|].
  change (String c a ++ b) with (String c (a ++ b)). cbn [no_slash].
  by rewrite IH, andb_assoc.
Qed.

Lemma contains_app c a b : contains c (a ++ b) = contains c a || contains c b.
Proof.
  induction a as [|c' a IH]; [done|].
  change (String c' a ++ b) with (String c' (a ++ b)). cbn [contains].
  by rewrite IH, orb_assoc.
Qed.

Lemma no_slash_uint (d : Decimal.uint) :
  no_slash (NilEmpty.string_of_uint d) = true.
Proof. induction d; cbn; done. Qed.

Lemma no_slash_String_nat n : no_slash (String_nat n) = true.
Proof. apply no_slash_uint. Qed.

Lemma no_slash_repeat c n :
  Ascii.eqb c slash = false → no_slash (repeat_char c n) = true.
Proof. intros Hc. induction n as [|n IH]; [done|]. cbn. by rewrite Hc, IH. Qed.

Lemma no_slash_pad n : no_slash (pad n) = true.
Proof.
  unfold pad, padStart. rewrite no_slash_app, no_slash_repeat by done.
  apply no_slash_String_nat.
Qed.

Lemma no_slash_stamp (now : date) : no_slash (stamp now) = true.
Proof.
  unfold stamp. by rewrite !no_slash_app, !no_slash_pad, no_slash_String_nat.
Qed.

Lemma allowed_no_slash ext : ext ∈ allowedExts → no_slash ext = true.
Proof.
  intros Hin.
  assert (Forall (λ e, no_slash e = true) allowedExts) as Hall.
  { apply (bool_decide_unpack _). by vm_compute. }
  rewrite Forall_forall in Hall. by apply Hall.
Qed.

(** A name the handler tries is the name of a directory entry. *)
Lemma safeName_plain (pkg_name : string) (now : date) ext k :
  no_slash pkg_name = true → ext ∈ allowedExts →
  plain (safeName_at (pkg_name ++ "_" ++ stamp now) ext k).
Proof.
  intros Hpkg Hext. pose proof (allowed_no_slash ext Hext) as He.
  assert (contains "_" (safeName_at (pkg_name ++ "_" ++ stamp now) ext k) = true)
    as Hus.
  { destruct k; cbn [safeName_at]; rewrite !contains_app;
      change (contains "_" "_") with true; by rewrite !orb_true_r. }
  split; [|split; [|split]].
  - destruct k; cbn [safeName_at]; rewrite !no_slash_app, Hpkg, no_slash_stamp,
      He, ?no_slash_String_nat; done.
  - intros Heq. by rewrite Heq in Hus.
  - intros Heq. by rewrite Heq in Hus.
  - intros Heq. by rewrite Heq in Hus.
Qed.

Lemma app_inv_head a s1 s2 : a ++ s1 = a ++ s2 → s1 = s2.
Proof.
  induction a as [|c a IH]; [done|].
  change (String c a ++ ?x) with (String c (a ++ x)). intros [= Heq]. by apply IH.
Qed.

Lemma app_inv_tail a b s :
  String.length a = String.length b → a ++ s = b ++ s → a = b.
Proof.
  revert b. induction a as [|c a IH]; intros [|c' b] Hlen Heq; try done.
  change (String c a ++ s) with (String c (a ++ s)) in Heq.
  change (String c' b ++ s) with (String c' (b ++ s)) in Heq.
  injection Heq as -> Heq. f_equal. apply IH; [|done]. by injection Hlen.
Qed.

Lemma app_same_tail a b s : a ++ s = b ++ s → a = b.
Proof.
  intros Heq. apply (app_inv_tail a b s); [|done].
  apply (f_equal String.length) in Heq. rewrite !length_app in Heq. lia.
Qed.

Lemma String_nat_inj n k : String_nat n = String_nat k → n = k.
Proof.
  unfold String_nat. intros Heq. apply Unsigned.to_uint_inj.
  apply (f_equal NilEmpty.uint_of_string) in Heq.
  rewrite !NilEmpty.usu in Heq. by injection Heq.
Qed.

Lemma safeName_inj base ext n k :
  safeName_at base ext n = safeName_at base ext k → n = k.
Proof.
  destruct n as [|n], k as [|k]; cbn [safeName_at]; intros Heq; [done|..].
  - apply app_inv_head in Heq. apply (f_equal String.length) in Heq.
    rewrite !length_app in Heq. cbn in Heq. lia.
  - apply app_inv_head in Heq. apply (f_equal String.length) in Heq.
    rewrite !length_app in Heq. cbn in Heq. lia.
  - apply app_inv_head in Heq.
    change ("_" ++ ?x) with (String "_" x) in Heq. injection Heq as Heq.
    apply app_same_tail in Heq. by apply String_nat_inj.
Qed.

(** *** Where a plain name lands in the media directory *)

Lemma unsplit_snoc segs s :
  segs ≠ [] → unsplit (segs ++ [s]) = unsplit segs ++ "/" ++ s.
Proof.
  induction segs as [|a segs IH]; [done|]. intros _.
  destruct segs as [|a' segs]; [done|].
  change (unsplit ((a :: a' :: segs) ++ [s]))
    with (a ++ "/" ++ unsplit ((a' :: segs) ++ [s])).
  rewrite IH by done.
  change (unsplit (a :: a' :: segs)) with (a ++ "/" ++ unsplit (a' :: segs)).
  by rewrite !append_assoc.
Qed.

Lemma abs_snoc_inj segs a b :
  segs ≠ [] → abs (segs ++ [a]) = abs (segs ++ [b]) → a = b.
Proof.
  intros Hne. unfold abs. rewrite !unsplit_snoc by done.
  intros Heq. apply app_inv_head in Heq. apply app_inv_head in Heq.
  by apply app_inv_head in Heq.
Qed.

Lemma join_plain segs name :
  Forall plain segs → segs ≠ [] → plain name →
  join (abs segs) name = abs (segs ++ [name]).
Proof.
  intros Hall Hne Hname. destruct (plain_tests name Hname) as (H0 & H1 & H2).
  destruct Hname as (Hs & Hn0 & _). unfold join.
  assert (String.eqb (abs segs) EmptyString = false) as -> by reflexivity.
  rewrite H0. rewrite normalize_in_dir by done. by rewrite H1, H2.
Qed.

Lemma basename_plain name : plain name → basename name = name.
Proof.
  intros (Hs & Hn0 & _). unfold basename. rewrite segments_plain by done.
  cbn [List.filter]. unfold nonempty.
  apply String.eqb_neq in Hn0. by rewrite Hn0.
Qed.

End UploadFacts.

Section UploadLoop.
Import Text Media Upload.

Implicit Types (ext base name : string) (n k fuel counter : nat).
Implicit Types (segs : list string) (fs : gmap string node).

Lemma free_slot_Some fuel fs (dir base ext : string) counter k :
  free_slot fuel fs dir base ext counter = Some k →
  (counter ≤ k)%nat
  ∧ fs !! join dir (safeName_at base ext k) = None
  ∧ ∀ j, (counter ≤ j < k)%nat →
         is_Some (fs !! join dir (safeName_at base ext j)).
Proof.
  revert counter. induction fuel as [|fuel IH]; intros counter; [done|].
  cbn [free_slot]. case_decide as Hex.
  - intros Hk. destruct (IH _ Hk) as (Hle & Hfree & Hbusy).
    split; [lia|]. split; [done|]. intros j Hj.
    destruct (decide (j = counter)) as [->|Hne]; [done|]. apply Hbusy. lia.
  - intros [= <-]. split; [done|]. split.
    + by destruct (fs !! _) eqn:E; [destruct Hex; eexists|].
    + intros j Hj. lia.
Qed.

Lemma free_slot_None fuel fs (dir base ext : string) counter :
  free_slot fuel fs dir base ext counter = None →
  ∀ j, (counter ≤ j < counter + fuel)%nat →
       is_Some (fs !! join dir (safeName_at base ext j)).
Proof.
  revert counter. induction fuel as [|fuel IH]; intros counter Hnone j Hj;
    [lia|].
  cbn [free_slot] in Hnone. case_decide as Hex; [|done].
  destruct (decide (j = counter)) as [->|Hne]; [done|].
  apply (IH _ Hnone). lia.
Qed.

(** The loop is through before it has tried more names than there are
    entries in the file system. *)
Lemma free_slot_found fuel fs (pkg_name : string) (now : date) segs ext :
  Forall plain segs → segs ≠ [] → no_slash pkg_name = true →
  ext ∈ allowedExts → (stdpp.base.size fs < fuel)%nat →
  is_Some (free_slot fuel fs (abs segs) (pkg_name ++ "_" ++ stamp now) ext 0).
Proof.
  intros Hall Hne Hpkg Hext Hfuel.
  set (base := pkg_name ++ "_" ++ stamp now).
  destruct (free_slot fuel fs (abs segs) base ext 0) as [k|] eqn:Hslot;
    [by eexists|].
  exfalso. pose proof (free_slot_None _ _ _ _ _ _ Hslot) as Hbusy.
  set (tried := (λ j, abs (segs ++ [safeName_at base ext j])) <$> seq 0 fuel).
  assert (NoDup tried) as Hnd.
  { apply NoDup_fmap_2; [|apply NoDup_seq].
    intros j1 j2 Heq. apply abs_snoc_inj in Heq; [|done].
    by apply safeName_inj in Heq. }
  assert (tried ⊆+ (map_to_list fs).*1) as Hsub.
  { apply NoDup_submseteq; [done|]. intros p Hp.
    apply list_elem_of_fmap in Hp as (j & -> & Hj). apply elem_of_seq in Hj.
    destruct (Hbusy j) as [node Hnode]; [lia|].
    rewrite join_plain in Hnode by (done || by apply safeName_plain).
    apply list_elem_of_fmap. exists (abs (segs ++ [safeName_at base ext j]), node).
    split; [done|]. by apply elem_of_map_to_list. }
  apply submseteq_length in Hsub.
  unfold tried in Hsub.
  rewrite !length_fmap, length_seq, length_map_to_list in Hsub. lia.
Qed.

End UploadLoop.

(** X21.  An upload takes the first free name and overwrites nothing.
    Let the media directory be an absolute path of plain names, the
    package name be without a slash, the extension of the original
    name be an allowed one, and the temporary file of the upload be
    there.  Then the search for a name ends before it has tried more
    names than the file system has entries; the name it stops at is a
    plain one, built from the package name, the time stamp, the counter
    and the lowercased extension; the entry of that name in the media
    directory was free, and the names tried before it were all taken.
    The request is answered 200 with that name, and the files are the
    ones before with the temporary file moved to the new entry. *)
Theorem upload_takes_free_name (fuel : nat) (pkg_name : string)
  (segs : list string) (now : Text.date) (fs : gmap string Media.node)
  (f : Upload.file) (node : Media.node) :
  Forall plain segs → segs ≠ [] → no_slash pkg_name = true →
  Text.toLowerCase (Upload.extname (Upload.originalname f))
    ∈ Upload.allowedExts →
  fs !! Upload.path f = Some node →
  (size fs < fuel)%nat →
  ∃ counter name line,
    name = Upload.safeName_at (pkg_name ++ "_" ++ Upload.stamp now)
             (Text.toLowerCase (Upload.extname (Upload.originalname f)))
             counter
    ∧ plain name
    ∧ fs !! abs (segs ++ [name]) = None
    ∧ (∀ k, (k < counter)%nat →
         is_Some (fs !! abs (segs ++ [
           Upload.safeName_at (pkg_name ++ "_" ++ Upload.stamp now)
             (Text.toLowerCase (Upload.extname (Upload.originalname f))) k])))
    ∧ Upload.media_upload fuel pkg_name (abs segs) now fs (Some f)
      = Some (Upload.Outcome
                (<[abs (segs ++ [name]) := node]> (delete (Upload.path f) fs))
                200 (Upload.OkBody name ("/media/" ++ name)) (Some line)).
Proof.
  intros Hall Hne Hpkg Hext Hfile Hfuel.
  destruct (free_slot_found fuel fs pkg_name now segs _ Hall Hne Hpkg Hext Hfuel)
    as [counter Hslot].
  destruct (free_slot_Some _ _ _ _ _ _ _ Hslot) as (_ & Hfree & Hbusy).
  assert (∀ k, plain (Upload.safeName_at (pkg_name ++ "_" ++ Upload.stamp now)
                        (Text.toLowerCase
                           (Upload.extname (Upload.originalname f))) k))
    as Hplain by (intros k; by apply safeName_plain).
  rewrite join_plain in Hfree by done.
  eexists counter, _, _. split; [reflexivity|]. split; [apply Hplain|].
  split; [exact Hfree|]. split.
  { intros k Hk. rewrite <- join_plain by done. apply Hbusy. lia. }
  unfold Upload.media_upload. rewrite bool_decide_eq_true_2 by done.
  cbn [negb]. rewrite Hslot, Hfile. by rewrite join_plain.
Qed.

(** X22.  An uploaded file is served under the name of the answer.
    Under the conditions of X21, with a file as the temporary file:
    after the upload, [GET /media/:filename] with the name of the
    answer sends the content that was uploaded, and every path other
    than the temporary file and the new entry holds what it held. *)
Theorem upload_then_get (fuel : nat) (pkg_name : string)
  (segs : list string) (now : Text.date) (fs : gmap string Media.node)
  (f : Upload.file) (data : string) :
  Forall plain segs → segs ≠ [] → no_slash pkg_name = true →
  Text.toLowerCase (Upload.extname (Upload.originalname f))
    ∈ Upload.allowedExts →
  fs !! Upload.path f = Some (Media.File data) →
  (size fs < fuel)%nat →
  ∃ out name url,
    Upload.media_upload fuel pkg_name (abs segs) now fs (Some f) = Some out
    ∧ Upload.status out = 200
    ∧ Upload.sent out = Upload.OkBody name url
    ∧ Media.media_get (abs segs) (Upload.files out) name = Media.Sent data
    ∧ ∀ p, p ≠ Upload.path f → p ≠ Media.join (abs segs) name →
           Upload.files out !! p = fs !! p.
Proof.
  intros Hall Hne Hpkg Hext Hfile Hfuel.
  destruct (free_slot_found fuel fs pkg_name now segs _ Hall Hne Hpkg Hext Hfuel)
    as [counter Hslot].
  pose proof (safeName_plain pkg_name now _ counter Hpkg Hext) as Hplain.
  unfold Upload.media_upload. rewrite bool_decide_eq_true_2 by done.
  cbn [negb]. rewrite Hslot, Hfile.
  eexists _, _, _. split; [reflexivity|].
  cbn [Upload.status Upload.sent Upload.files]. split; [done|].
  split; [reflexivity|]. split.
  - unfold Media.media_get, Media.filePath. rewrite basename_plain by done.
    by rewrite lookup_insert_eq.
  - intros p Hp Hd. by rewrite lookup_insert_ne, lookup_delete_ne.
Qed.

(** X23.  The uploads that are turned down.  A request without a file
    is answered 400 and changes no file.  A file whose original name
    has an extension, lowercased, that is not one of the eleven allowed
    ones is answered 415 whatever else holds, however long the search
    for a name would take; the temporary file is removed and every
    other path holds what it held. *)
Theorem upload_rejections (fuel : nat) (pkg_name mediaDir : string)
  (now : Text.date) (fs : gmap string Media.node) (f : Upload.file) :
  Upload.media_upload fuel pkg_name mediaDir now fs None
  = Some (Upload.Outcome fs 400 (Upload.ErrorBody "no file in upload") None)
  ∧ (Text.toLowerCase (Upload.extname (Upload.originalname f))
       ∉ Upload.allowedExts →
     ∃ out message,
       Upload.media_upload fuel pkg_name mediaDir now fs (Some f) = Some out
       ∧ Upload.status out = 415
       ∧ Upload.sent out = Upload.ErrorBody message
       ∧ Upload.logged out = None
       ∧ (∀ data, fs !! Upload.path f = Some (Media.File data) →
            Upload.files out !! Upload.path f = None)
       ∧ ∀ p, p ≠ Upload.path f → Upload.files out !! p = fs !! p).
Proof.
  split; [done|]. intros Hext. unfold Upload.media_upload.
  rewrite bool_decide_eq_false_2 by done. cbn [negb].
  eexists _, _. split; [reflexivity|].
  cbn [Upload.status Upload.sent Upload.logged Upload.files].
  repeat (split; [done|]). unfold Upload.unlink_quietly. split.
  - intros data Hfile. rewrite Hfile. apply lookup_delete_eq.
  - intros p Hp. destruct (fs !! Upload.path f) as [[data|]|]; [|done..].
    by rewrite lookup_delete_ne.
Qed.

(** X26.  Deleting an uploaded file undoes the upload.  Under the
    conditions of X21, with a file as the temporary file: after the
    upload, [DELETE /api/media/:filename] with the name of the answer
    deletes the new entry, and the files are then the ones before the
    upload without the temporary file; a download under that name is
    then answered as not found. *)
Theorem upload_then_delete (fuel : nat) (pkg_name : string)
  (segs : list string) (now : Text.date) (fs : gmap string Media.node)
  (f : Upload.file) (data : string) :
  Forall plain segs → segs ≠ [] → no_slash pkg_name = true →
  Text.toLowerCase (Upload.extname (Upload.originalname f))
    ∈ Upload.allowedExts →
  fs !! Upload.path f = Some (Media.File data) →
  (size fs < fuel)%nat →
  ∃ out name url,
    Upload.media_upload fuel pkg_name (abs segs) now fs (Some f) = Some out
    ∧ Upload.status out = 200
    ∧ Upload.sent out = Upload.OkBody name url
    ∧ Media.media_delete (abs segs) (Upload.files out) name
      = (delete (Upload.path f) fs, Media.Deleted)
    ∧ Media.media_get (abs segs) (delete (Upload.path f) fs) name
      = Media.NotFound.
Proof.
  intros Hall Hne Hpkg Hext Hfile Hfuel.
  destruct (free_slot_found fuel fs pkg_name now segs _ Hall Hne Hpkg Hext Hfuel)
    as [counter Hslot].
  destruct (free_slot_Some _ _ _ _ _ _ _ Hslot) as (_ & Hfree & _).
  pose proof (safeName_plain pkg_name now _ counter Hpkg Hext) as Hplain.
  assert (delete (Upload.path f) fs
            !! Media.join (abs segs)
                 (Upload.safeName_at (pkg_name ++ "_" ++ Upload.stamp now)
                    (Text.toLowerCase (Upload.extname (Upload.originalname f)))
                    counter) = None) as Hfree'.
  { rewrite lookup_delete_ne; [done|]. intros Heq. by rewrite Heq, Hfree in Hfile. }
  unfold Upload.media_upload. rewrite bool_decide_eq_true_2 by done.
  cbn [negb]. rewrite Hslot, Hfile.
  eexists _, _, _. split; [reflexivity|].
  cbn [Upload.status Upload.sent Upload.files]. split; [done|].
  split; [reflexivity|].
  unfold Media.media_delete, Media.media_get, Media.filePath.
  rewrite basename_plain by done. rewrite lookup_insert_eq, Hfree'.
  by rewrite delete_insert_id.
Qed.

Section UploadExamples.
Import Text Media.

(** A media directory that already holds an upload of the same second. *)
Definition library : gmap string node :=
  {["/home/user/Media" := Dir;
    "/home/user/Media/0f3a9c" := File "PNG...";
    "/home/user/Media/webretriever_20251102_070509.png" := File "old"]}.

Definition logo : Upload.file :=
  {| Upload.originalname := "Logo.PNG"; Upload.path := "/home/user/Media/0f3a9c";
     Upload.size := 2048 |}.

Definition clip : Upload.file :=
  {| Upload.originalname := "clip.mkv"; Upload.path := "/home/user/Media/0f3a9c";
     Upload.size := 2048 |}.

Definition second : date :=
  {| getFullYear := 2025; getMonth := 10; getDate := 2; getHours := 7;
     getMinutes := 5; getSeconds := 9 |}.

Lemma upload_takes_free_name_witness :
  ∃ counter name line,
    name = Upload.safeName_at ("webretriever" ++ "_" ++ Upload.stamp second)
             (toLowerCase (Upload.extname (Upload.originalname logo))) counter
    ∧ plain name
    ∧ library !! abs (["home"; "user"; "Media"] ++ [name]) = None
    ∧ (∀ k, (k < counter)%nat →
         is_Some (library !! abs (["home"; "user"; "Media"] ++ [
           Upload.safeName_at ("webretriever" ++ "_" ++ Upload.stamp second)
             (toLowerCase (Upload.extname (Upload.originalname logo))) k])))
    ∧ Upload.media_upload 4 "webretriever" (abs ["home"; "user"; "Media"])
        second library (Some logo)
      = Some (Upload.Outcome
                (<[abs (["home"; "user"; "Media"] ++ [name]) := File "PNG..."]>
                   (delete (Upload.path logo) library))
                200 (Upload.OkBody name ("/media/" ++ name)) (Some line)).
Proof.
  apply (upload_takes_free_name 4 "webretriever" ["home"; "user"; "Media"]
           second library logo (File "PNG...")).
  - repeat constructor; done.
  - done.
  - reflexivity.
  - apply (bool_decide_unpack _). by vm_compute.
  - reflexivity.
  - vm_compute. lia.
Defined.

Lemma upload_then_get_witness :
  ∃ out name url,
    Upload.media_upload 4 "webretriever" (abs ["home"; "user"; "Media"])
      second library (Some logo) = Some out
    ∧ Upload.status out = 200
    ∧ Upload.sent out = Upload.OkBody name url
    ∧ media_get (abs ["home"; "user"; "Media"]) (Upload.files out) name
      = Sent "PNG..."
    ∧ ∀ p, p ≠ Upload.path logo →
           p ≠ join (abs ["home"; "user"; "Media"]) name →
           Upload.files out !! p = library !! p.
Proof.
  apply (upload_then_get 4 "webretriever" ["home"; "user"; "Media"]
           second library logo "PNG...").
  - repeat constructor; done.
  - done.
  - reflexivity.
  - apply (bool_decide_unpack _). by vm_compute.
  - reflexivity.
  - vm_compute. lia.
Defined.

Lemma upload_then_delete_witness :
  ∃ out name url,
    Upload.media_upload 4 "webretriever" (abs ["home"; "user"; "Media"])
      second library (Some logo) = Some out
    ∧ Upload.status out = 200
    ∧ Upload.sent out = Upload.OkBody name url
    ∧ media_delete (abs ["home"; "user"; "Media"]) (Upload.files out) name
      = (delete (Upload.path logo) library, Deleted)
    ∧ media_get (abs ["home"; "user"; "Media"])
        (delete (Upload.path logo) library) name
      = NotFound.
Proof.
  apply (upload_then_delete 4 "webretriever" ["home"; "user"; "Media"]
           second library logo "PNG...").
  - repeat constructor; done.
  - done.
  - reflexivity.
  - apply (bool_decide_unpack _). by vm_compute.
  - reflexivity.
  - vm_compute. lia.
Defined.

Lemma upload_rejections_witness :
  ∃ out message,
    Upload.media_upload 0 "webretriever" (abs ["home"; "user"; "Media"])
      second library (Some clip) = Some out
    ∧ Upload.status out = 415
    ∧ Upload.sent out = Upload.ErrorBody message
    ∧ Upload.logged out = None
    ∧ (∀ data, library !! Upload.path clip = Some (File data) →
         Upload.files out !! Upload.path clip = None)
    ∧ ∀ p, p ≠ Upload.path clip → Upload.files out !! p = library !! p.
Proof.
  apply (upload_rejections 0 "webretriever" (abs ["home"; "user"; "Media"])
           second library clip).
  apply (bool_decide_unpack _). by vm_compute.
Defined.

End UploadExamples.

(** ** The options of the service installer *)

Section InstallerFacts.
Import Installer.

Implicit Types (rest : list string) (name extra : string).

(** What the loop makes of one of the two variables: the value it had,
    or the argument after an argument [option]. *)
Definition chosen rest (option before after : string) : Prop :=
  after ≠ EmptyString
  ∧ (after = before
     ∨ ∃ i : nat, rest !! i = Some option ∧ rest !! S i = Some after).

Lemma chosen_skip rest (arg option before after : string) :
  chosen rest option before after → chosen (arg :: rest) option before after.
Proof.
  intros [Hne [->|(i & Hi & Hj)]]; (split; [done|]); [by left|right].
  by exists (S i).
Qed.

Lemma chosen_set rest (option before after final : string) :
  chosen rest option after final →
  chosen (option :: after :: rest) option before final.
Proof.
  intros [Hne [->|(i & Hi & Hj)]]; (split; [done|]); right.
  - by exists 0.
  - by exists (S (S i)).
Qed.

Lemma options_spec rest name extra :
  name ≠ EmptyString → extra ≠ EmptyString →
  chosen rest "--name" name (options rest name extra).1
  ∧ chosen rest "--args" extra (options rest name extra).2.
Proof.
  revert name extra.
  induction rest as [rest IH] using (induction_ltof1 _ (@length string)).
  unfold ltof in IH. intros name extra Hn He.
  destruct rest as [|arg [|next rest]]; cbn [options];
    [by repeat split; auto..|].
  assert (chosen (next :: rest) "--name" name
            (options (next :: rest) name extra).1
          ∧ chosen (next :: rest) "--args" extra
              (options (next :: rest) name extra).2) as [Sn Se].
  { apply IH; [cbn; lia|done..]. }
  destruct (String.eqb_spec arg "--name") as [->|Ha];
    destruct (String.eqb_spec next EmptyString) as [Hx|Hx]; cbn [andb negb].
  - split; by apply chosen_skip.
  - destruct (IH rest) with (name := next) (extra := extra) as [Tn Te];
      [cbn; lia|done..|].
    split.
    + by apply chosen_set.
    + by do 2 apply chosen_skip.
  - destruct (String.eqb arg "--args"); cbn [andb]; split;
      by apply chosen_skip.
  - destruct (String.eqb_spec arg "--args") as [->|Ha']; cbn [andb].
    + destruct (IH rest) with (name := name) (extra := next) as [Tn Te];
        [cbn; lia|done..|].
      split.
      * by do 2 apply chosen_skip.
      * by apply chosen_set.
    + split; by apply chosen_skip.
Qed.

End InstallerFacts.

(** X24.  The options of the service installer.  Whatever the
    arguments, the service name and the extra arguments the installer
    ends up with are never empty; the service name is the default
    [Vingester] unless it is the argument that follows an argument
    [--name], and likewise the extra arguments are the default
    [--autostart] unless they follow an argument [--args].  (The first
    argument is the action.) *)
Theorem installer_options (args : list string) :
  let '(svcName, extraArgs) := Installer.parse args in
  svcName ≠ EmptyString ∧ extraArgs ≠ EmptyString
  ∧ (svcName = "Vingester"
     ∨ ∃ i : nat, (0 < i)%nat ∧ args !! i = Some "--name"
                  ∧ args !! S i = Some svcName)
  ∧ (extraArgs = "--autostart"
     ∨ ∃ i : nat, (0 < i)%nat ∧ args !! i = Some "--args"
                  ∧ args !! S i = Some extraArgs).
Proof.
  unfold Installer.parse.
  destruct (options_spec (tail args) "Vingester" "--autostart")
    as ((N1 & N2) & (E1 & E2)); [done..|].
  destruct (Installer.options (tail args) "Vingester" "--autostart")
    as [svcName extraArgs]. cbn [fst snd] in *.
  split; [done|]. split; [done|].
  assert (∀ (i : nat) (x : string),
            tail args !! i = Some x → args !! S i = Some x) as Htail.
  { intros i x. by destruct args. }
  split.
  - destruct N2 as [?|(i & ? & ?)]; [by left|right].
    exists (S i). split; [lia|]. split; by apply Htail.
  - destruct E2 as [?|(i & ? & ?)]; [by left|right].
    exists (S i). split; [lia|]. split; by apply Htail.
Qed.

(** ** Auto-start *)

Section StartupFacts.
Context `{Main.Runtime}.
Import Main.

Implicit Types (id : string) (st : App) (b : Browser).

Definition wanted_at st id : bool :=
  match browsers st !! id with
  | Some b => Startup.wanted b
  | None => false
  end.

Lemma wanted_eligible b : Startup.wanted b = true → eligible b = true.
Proof.
  unfold Startup.wanted, eligible.
  intros [[_ Hr]%andb_true_iff Hv]%andb_true_iff. by rewrite Hr, Hv.
Qed.

(** The per-instance loop over ids that are in the registry: it asks
    the worker to start exactly the ids that pass the test, in order. *)
Lemma per_instance_start ids st :
  NoDup ids → (∀ id, id ∈ ids → is_Some (browsers st !! id)) →
  ∃ st' new,
    bulk Startup.wanted
      (λ id, try_catch (controlBrowser "start" id ∅) (λ err, mret tt)) ids st
    = (Ok tt, st')
    ∧ effects st' = (effects st ++ new)%list
    ∧ starts new = filter (λ id, wanted_at st id = true) ids.
Proof.
  revert st. induction ids as [|id ids IH]; intros st Hnd Hall.
  { exists st, []. by rewrite app_nil_r. }
  apply NoDup_cons in Hnd as [Hid Hnd].
  destruct (Hall id) as [b Hb]; [left|].
  assert (wanted_at st id = Startup.wanted b) as Hwa.
  { unfold wanted_at. by rewrite Hb. }
  cbn [bulk]. rewrite Hb, filter_cons.
  destruct (Startup.wanted b) eqn:Hw.
  - destruct (start_eligible id st b Hb (wanted_eligible b Hw))
      as (st1 & new1 & Hrun & He1 & Hs1 & Hb1).
    unfold try_catch at 1.
    change (controlBrowser "start" id ∅) with (control_start id).
    rewrite Hrun.
    destruct (IH st1 Hnd) as (st2 & new2 & -> & He2 & Hs2).
    { intros id' Hin. rewrite Hb1, lookup_insert_ne by set_solver.
      apply Hall. by right. }
    exists st2, (new1 ++ new2)%list. split; [done|].
    rewrite He2, He1, app_assoc. split; [done|].
    rewrite starts_app, Hs1, Hs2, decide_True by done. cbn. f_equal.
    apply filter_ext_elem. intros id' Hin. unfold wanted_at.
    rewrite Hb1, lookup_insert_ne; [done|]. intros ->. done.
  - destruct (IH st Hnd) as (st2 & new2 & -> & He2 & Hs2).
    { intros id' Hin. apply Hall. by right. }
    exists st2, new2. rewrite decide_False by congruence. done.
Qed.

Lemma auto_start_flag st :
  Startup.auto_start true st
  = bulk eligible control_start (browser_ids st) st.
Proof. reflexivity. Qed.

Lemma auto_start_fields st :
  Startup.auto_start false st
  = bulk Startup.wanted
      (λ id, try_catch (controlBrowser "start" id ∅) (λ err, mret tt))
      (browser_ids st) st.
Proof. reflexivity. Qed.

Lemma preserves_auto_start (autostart : bool) :
  preserves (Startup.auto_start autostart).
Proof.
  destruct autostart; cbn [Startup.auto_start].
  - apply preserves_bulk_action. left.
  - apply preserves_bind; [apply preserves_read|]. intros ids.
    apply preserves_bulk. intros id.
    apply preserves_try; [apply preserves_start|]. intros e.
    apply preserves_ret.
Qed.

End StartupFacts.

(** X25.  The auto-start that follows the mounting of the control
    window.  It never fails.  With the flag [--autostart] it asks the
    worker to start every instance that is not running and valid,
    whatever its own auto-start field says; without the flag it asks
    for exactly those of them whose field [as] is truthy.  No instance
    is asked twice, and the configurations, the store and the version
    counter are as before. *)
Theorem auto_start_selects `{Main.Runtime} (autostart : bool)
  (st : Main.App) :
  ∃ st' new,
    Startup.auto_start autostart st = (Main.Ok tt, st')
    ∧ Main.effects st' = (Main.effects st ++ new)%list
    ∧ NoDup (starts new)
    ∧ (∀ id, id ∈ starts new ↔
         ∃ b, Main.browsers st !! id = Some b
              ∧ Main.running b = false ∧ Main.valid b = true
              ∧ (autostart = true
                 ∨ ToBoolean (get (Main.cfg b) "as") = true))
    ∧ same_configuration st st'.
Proof.
  pose proof (preserves_auto_start autostart st) as Hsame.
  destruct autostart.
  - destruct (bulk_start (Main.browser_ids st) st (browser_ids_NoDup st))
      as (st' & new & Hrun & Heff & Hst).
    { intros id. apply elem_of_browser_ids. }
    rewrite auto_start_flag, Hrun in Hsame |- *. exists st', new.
    split; [done|]. split; [done|]. split; [|split; [|exact Hsame]].
    { rewrite Hst. apply NoDup_filter, browser_ids_NoDup. }
    intros id. rewrite Hst, list_elem_of_filter, elem_of_browser_ids.
    unfold eligible_at, eligible. split.
    + intros [Hel [b Hb]]. rewrite Hb in Hel. exists b.
      apply andb_true_iff in Hel as [Hr Hv]. apply negb_true_iff in Hr.
      repeat (split; [done|]). by left.
    + intros (b & Hb & Hr & Hv & _). rewrite Hb, Hr, Hv.
      split; [done|by eexists].
  - destruct (per_instance_start (Main.browser_ids st) st (browser_ids_NoDup st))
      as (st' & new & Hrun & Heff & Hst).
    { intros id. apply elem_of_browser_ids. }
    rewrite auto_start_fields, Hrun in Hsame |- *. exists st', new.
    split; [done|]. split; [done|]. split; [|split; [|exact Hsame]].
    { rewrite Hst. apply NoDup_filter, browser_ids_NoDup. }
    intros id. rewrite Hst, list_elem_of_filter, elem_of_browser_ids.
    unfold wanted_at, Startup.wanted. split.
    + intros [Hw [b Hb]]. rewrite Hb in Hw. exists b.
      apply andb_true_iff in Hw as [[Has Hr]%andb_true_iff Hv].
      apply negb_true_iff in Hr. repeat (split; [done|]). by right.
    + intros (b & Hb & Hr & Hv & [?|Has]); [done|].
      rewrite Hb, Has, Hr, Hv. split; [done|by eexists].
Qed.
